(** * The graph-rewiring environment of the community-deception code

  A shallow embedding of [src/environment/graph_env.py] (class
  [GraphEnvironment]) and of the goal test of [src/utils/hiding_node.py]
  (class [NodeHiding]), with proofs of the properties the specification
  states and of further properties of the code.

  - Python [float]s are the kernel's binary64 floats ([PrimFloat]), with
    the same rounding as CPython's.
  - A value that is "an [int] or [None]" is an [option Z].
  - Methods run in a state-and-exception monad over the [World]: the
    environment object, the tape of the process-wide random generator and
    the log of the calls made to the community detector.
  - networkx's [Graph] is its adjacency dictionary; cdlib's
    [NodeClustering] is its list of communities. *)

From Stdlib Require Import ZArith Lia Sorted.
From Stdlib Require Floats Uint63.
From stdpp Require Import gmap strings list.

Open Scope Z_scope.

(* A decimal literal denotes the nearest binary64 value, as in Python. *)
Set Warnings "-inexact-float".

(** ** Python values and built-ins *)

Module Py.

Import PrimFloat SpecFloat FloatOps.

(** The exceptions the modelled code can raise. *)
Inductive exn : Type :=
| AssertionError
| AttributeError
| IndexError
| NetworkXError
| OverflowError
| TypeError
| ValueError
| ZeroDivisionError.

(** The result of a computation without side effects that may raise. *)
Definition result (A : Type) : Type := exn + A.

(** [float(n)] for a Python [int] [n]; exact below 2^53, and the
    correctly rounded value up to the 2^63 a container length can reach
    (beyond that the model wraps where CPython keeps rounding). *)
Definition float_of_int (n : Z) : float :=
  match n with
  | Z0 => 0%float
  | Zpos _ => of_uint63 (Uint63.of_Z n)
  | Zneg _ => (- of_uint63 (Uint63.of_Z (- n)))%float
  end.

(** The integer parts of the real number a finite float denotes:
    [sign * m * 2^e].  [Z.shiftl] with a negative shift divides, rounding
    down. *)
Definition sf_trunc (s : bool) (m : positive) (e : Z) : Z :=
  cond_Zopp s (Z.shiftl (Zpos m) e).

Definition sf_floor (s : bool) (m : positive) (e : Z) : Z :=
  Z.shiftl (cond_Zopp s (Zpos m)) e.

Definition sf_ceil (s : bool) (m : positive) (e : Z) : Z :=
  - Z.shiftl (cond_Zopp (negb s) (Zpos m)) e.

(** [int(x)]: truncation toward zero; [ValueError] on nan and
    [OverflowError] on an infinity. *)
Definition int_of_float (x : float) : result Z :=
  match Prim2SF x with
  | S754_zero _ => inr 0
  | S754_finite s m e => inr (sf_trunc s m e)
  | S754_infinity _ => inl OverflowError
  | S754_nan => inl ValueError
  end.

(** [math.floor(x)], the floor the specification writes. *)
Definition math_floor (x : float) : result Z :=
  match Prim2SF x with
  | S754_zero _ => inr 0
  | S754_finite s m e => inr (sf_floor s m e)
  | S754_infinity _ => inl OverflowError
  | S754_nan => inl ValueError
  end.

(** [math.ceil(x)]. *)
Definition math_ceil (x : float) : result Z :=
  match Prim2SF x with
  | S754_zero _ => inr 0
  | S754_finite s m e => inr (sf_ceil s m e)
  | S754_infinity _ => inl OverflowError
  | S754_nan => inl ValueError
  end.

(** [int(np.ceil(x))].  [np.ceil] keeps nan and the infinities, on which
    [int] raises, and maps every other float to the float of its ceiling,
    which [int] reads back exactly; the two calls are modelled as one. *)
Definition int_np_ceil (x : float) : result Z := math_ceil x.

(** [x in l] for a list of ints and a value that may be [None]. *)
Definition contains (l : list Z) (x : option Z) : bool :=
  match x with
  | Some n => bool_decide (n ∈ l)
  | None => false
  end.

(** [l.remove(x)]: drops the first occurrence; [ValueError] when there is
    none. *)
Fixpoint list_remove (x : Z) (l : list Z) : result (list Z) :=
  match l with
  | [] => inl ValueError
  | y :: l' =>
      if decide (y = x) then inr l'
      else match list_remove x l' with
           | inr r => inr (y :: r)
           | inl err => inl err
           end
  end.

Definition remove (l : list Z) (x : option Z) : result (list Z) :=
  match x with
  | Some n => list_remove n l
  | None => inl ValueError
  end.

(** [sorted(l, key=len)] and [sorted(l, key=len, reverse=True)]: stable
    sorts, by insertion from the right. *)
Fixpoint insert_by_len {A} (c : list A) (l : list (list A)) : list (list A) :=
  match l with
  | [] => [c]
  | d :: l' =>
      if (length c <=? length d)%nat then c :: l
      else d :: insert_by_len c l'
  end.

Definition sorted_by_len {A} (l : list (list A)) : list (list A) :=
  foldr insert_by_len [] l.

Fixpoint insert_by_len_reverse {A} (c : list A) (l : list (list A))
  : list (list A) :=
  match l with
  | [] => [c]
  | d :: l' =>
      if (length d <=? length c)%nat then c :: l
      else d :: insert_by_len_reverse c l'
  end.

Definition sorted_by_len_reverse {A} (l : list (list A)) : list (list A) :=
  foldr insert_by_len_reverse [] l.

(** [max(l)] of a list of ints; [ValueError] on the empty list. *)
Definition max_list (l : list Z) : result Z :=
  match l with
  | [] => inl ValueError
  | x :: l' => inr (foldl Z.max x l')
  end.

(** [min(l, key=key)]: the first element whose key is least. *)
Definition min_by (key : Z → Z) (l : list Z) : result Z :=
  match l with
  | [] => inl ValueError
  | x :: l' =>
      inr (foldl (λ best y, if key y <? key best then y else best) x l')
  end.

(** [l.index(x)]: the position of the first occurrence. *)
Fixpoint index (x : Z) (l : list Z) : result nat :=
  match l with
  | [] => inl ValueError
  | y :: l' =>
      if decide (y = x) then inr 0%nat
      else match index x l' with
           | inr i => inr (S i)
           | inl err => inl err
           end
  end.

End Py.

(** ** networkx graphs *)

Module Nx.

Import Py.

(** [Graph._adj]: node -> neighbour -> the edge's weight.  The nodes are
    the keys.  Node attributes (the feature vectors) are opaque to every
    method below and left out. *)
Record Graph : Type := mkGraph { _adj : gmap Z (gmap Z Z) }.

Definition copy (g : Graph) : Graph := g.

(** [G.nodes()]; the methods below only accumulate sets from it, so the
    order of the enumeration is not observable. *)
Definition nodes (g : Graph) : list Z := elements (dom (_adj g)).

Definition number_of_nodes (g : Graph) : Z := Z.of_nat (size (_adj g)).

(** [G.degree]: a self-loop counts twice. *)
Definition degree (n : Z) (nbrs : gmap Z Z) : Z :=
  Z.of_nat (size nbrs) + (if decide (is_Some (nbrs !! n)) then 1 else 0).

(** [G.number_of_edges()]: half the sum of the degrees. *)
Definition number_of_edges (g : Graph) : Z :=
  map_fold (λ n nbrs acc, degree n nbrs + acc) 0 (_adj g) `div` 2.

(** [G.has_edge(u, v)]: [v in self._adj[u]], and [False] on a [KeyError]. *)
Definition has_edge (g : Graph) (u v : option Z) : bool :=
  match u, v with
  | Some a, Some b =>
      match _adj g !! a with
      | Some nbrs => bool_decide (is_Some (nbrs !! b))
      | None => false
      end
  | _, _ => false
  end.

Definition add_node (a : Z) (adj : gmap Z (gmap Z Z)) : gmap Z (gmap Z Z) :=
  match adj !! a with
  | Some _ => adj
  | None => <[a := ∅]> adj
  end.

(** [G.add_edge(u, v, weight=w)]: missing endpoints become nodes ([None]
    is refused), and both directions get the weight. *)
Definition add_edge (g : Graph) (u v : option Z) (w : Z) : result Graph :=
  match u, v with
  | Some a, Some b =>
      let adj1 := add_node b (add_node a (_adj g)) in
      let adj2 := <[a := <[b := w]> (default ∅ (adj1 !! a))]> adj1 in
      inr (mkGraph (<[b := <[a := w]> (default ∅ (adj2 !! b))]> adj2))
  | _, _ => inl ValueError
  end.

(** [del d[k]] on one adjacency row. *)
Definition del_nbr (a b : Z) (adj : gmap Z (gmap Z Z))
  : result (gmap Z (gmap Z Z)) :=
  match adj !! a with
  | Some nbrs =>
      match nbrs !! b with
      | Some _ => inr (<[a := delete b nbrs]> adj)
      | None => inl NetworkXError
      end
  | None => inl NetworkXError
  end.

(** [G.remove_edge(u, v)]: deletes both directions; any [KeyError] on the
    way is re-raised as [NetworkXError]. *)
Definition remove_edge (g : Graph) (u v : option Z) : result Graph :=
  match u, v with
  | Some a, Some b =>
      match del_nbr a b (_adj g) with
      | inr adj1 =>
          if decide (a = b) then inr (mkGraph adj1)
          else match del_nbr b a adj1 with
               | inr adj2 => inr (mkGraph adj2)
               | inl err => inl err
               end
      | inl err => inl err
      end
  | _, _ => inl NetworkXError
  end.

End Nx.

(** ** cdlib clusterings *)

Module Cd.

(** [NodeClustering.communities]: the communities, each a list of nodes, in
    the order the detector returned them. *)
Record NodeClustering : Type := mkClustering { communities : list (list Z) }.

End Cd.

(** ** The environment object *)

Import PrimFloat.
Import Py Cd.

(** A rewiring action: the pair [(u, v)] as the code stores it. *)
Definition action_pair : Type := (option Z * option Z)%type.

(** [possible_actions]: the dictionary with the keys ["ADD"] and
    ["REMOVE"], each bound to a set of pairs. *)
Record PossibleActions : Type := mkActions {
  ADD : gset action_pair;
  REMOVE : gset action_pair
}.

(** The attributes of [GraphEnvironment] that the modelled methods read or
    write. *)
Record Env : Type := mkEnv {
  env_name : string;
  graph : Nx.Graph;
  original_graph : Nx.Graph;
  old_graph : option Nx.Graph;
  beta : float;
  tau : float;
  lambda_metric : option float;
  alpha_metric : option float;
  old_penalty_value : float;
  original_community_structure : NodeClustering;
  old_community_structure : option NodeClustering;
  new_community_structure : option NodeClustering;
  preferred_community_size : float;
  community_target : option (list Z);
  node_target : option Z;
  edge_budget : Z;
  used_edge_budget : Z;
  stop_episode : bool;
  rewards : float;
  old_rewards : float;
  possible_actions : PossibleActions
}.

Definition with_graph (v : Nx.Graph) (e : Env) : Env :=
  mkEnv (env_name e) v (original_graph e) (old_graph e) (beta e) (tau e)
    (lambda_metric e) (alpha_metric e) (old_penalty_value e)
    (original_community_structure e) (old_community_structure e)
    (new_community_structure e) (preferred_community_size e)
    (community_target e) (node_target e) (edge_budget e)
    (used_edge_budget e) (stop_episode e) (rewards e) (old_rewards e) (possible_actions e).

Definition with_old_graph (v : option Nx.Graph) (e : Env) : Env :=
  mkEnv (env_name e) (graph e) (original_graph e) v (beta e) (tau e)
    (lambda_metric e) (alpha_metric e) (old_penalty_value e)
    (original_community_structure e) (old_community_structure e)
    (new_community_structure e) (preferred_community_size e)
    (community_target e) (node_target e) (edge_budget e)
    (used_edge_budget e) (stop_episode e) (rewards e) (old_rewards e) (possible_actions e).

Definition with_old_penalty_value (v : float) (e : Env) : Env :=
  mkEnv (env_name e) (graph e) (original_graph e) (old_graph e) (beta e)
    (tau e) (lambda_metric e) (alpha_metric e) v
    (original_community_structure e) (old_community_structure e)
    (new_community_structure e) (preferred_community_size e)
    (community_target e) (node_target e) (edge_budget e)
    (used_edge_budget e) (stop_episode e) (rewards e) (old_rewards e) (possible_actions e).

Definition with_old_community_structure (v : option NodeClustering) (e : Env) : Env :=
  mkEnv (env_name e) (graph e) (original_graph e) (old_graph e) (beta e)
    (tau e) (lambda_metric e) (alpha_metric e) (old_penalty_value e)
    (original_community_structure e) v (new_community_structure e)
    (preferred_community_size e) (community_target e) (node_target e)
    (edge_budget e) (used_edge_budget e) (stop_episode e) (rewards e)
    (old_rewards e) (possible_actions e).

Definition with_new_community_structure (v : option NodeClustering) (e : Env) : Env :=
  mkEnv (env_name e) (graph e) (original_graph e) (old_graph e) (beta e)
    (tau e) (lambda_metric e) (alpha_metric e) (old_penalty_value e)
    (original_community_structure e) (old_community_structure e) v
    (preferred_community_size e) (community_target e) (node_target e)
    (edge_budget e) (used_edge_budget e) (stop_episode e) (rewards e)
    (old_rewards e) (possible_actions e).

Definition with_community_target (v : option (list Z)) (e : Env) : Env :=
  mkEnv (env_name e) (graph e) (original_graph e) (old_graph e) (beta e)
    (tau e) (lambda_metric e) (alpha_metric e) (old_penalty_value e)
    (original_community_structure e) (old_community_structure e)
    (new_community_structure e) (preferred_community_size e) v (node_target
    e) (edge_budget e) (used_edge_budget e) (stop_episode e) (rewards e)
    (old_rewards e) (possible_actions e).

Definition with_node_target (v : option Z) (e : Env) : Env :=
  mkEnv (env_name e) (graph e) (original_graph e) (old_graph e) (beta e)
    (tau e) (lambda_metric e) (alpha_metric e) (old_penalty_value e)
    (original_community_structure e) (old_community_structure e)
    (new_community_structure e) (preferred_community_size e)
    (community_target e) v (edge_budget e) (used_edge_budget e)
    (stop_episode e) (rewards e) (old_rewards e) (possible_actions e).

Definition with_used_edge_budget (v : Z) (e : Env) : Env :=
  mkEnv (env_name e) (graph e) (original_graph e) (old_graph e) (beta e)
    (tau e) (lambda_metric e) (alpha_metric e) (old_penalty_value e)
    (original_community_structure e) (old_community_structure e)
    (new_community_structure e) (preferred_community_size e)
    (community_target e) (node_target e) (edge_budget e) v (stop_episode e)
    (rewards e) (old_rewards e) (possible_actions e).

Definition with_stop_episode (v : bool) (e : Env) : Env :=
  mkEnv (env_name e) (graph e) (original_graph e) (old_graph e) (beta e)
    (tau e) (lambda_metric e) (alpha_metric e) (old_penalty_value e)
    (original_community_structure e) (old_community_structure e)
    (new_community_structure e) (preferred_community_size e)
    (community_target e) (node_target e) (edge_budget e)
    (used_edge_budget e) v (rewards e) (old_rewards e) (possible_actions e).

Definition with_rewards (v : float) (e : Env) : Env :=
  mkEnv (env_name e) (graph e) (original_graph e) (old_graph e) (beta e)
    (tau e) (lambda_metric e) (alpha_metric e) (old_penalty_value e)
    (original_community_structure e) (old_community_structure e)
    (new_community_structure e) (preferred_community_size e)
    (community_target e) (node_target e) (edge_budget e)
    (used_edge_budget e) (stop_episode e) v (old_rewards e) (possible_actions e).

Definition with_old_rewards (v : float) (e : Env) : Env :=
  mkEnv (env_name e) (graph e) (original_graph e) (old_graph e) (beta e)
    (tau e) (lambda_metric e) (alpha_metric e) (old_penalty_value e)
    (original_community_structure e) (old_community_structure e)
    (new_community_structure e) (preferred_community_size e)
    (community_target e) (node_target e) (edge_budget e)
    (used_edge_budget e) (stop_episode e) (rewards e) v (possible_actions e).

Definition with_possible_actions (v : PossibleActions) (e : Env) : Env :=
  mkEnv (env_name e) (graph e) (original_graph e) (old_graph e) (beta e)
    (tau e) (lambda_metric e) (alpha_metric e) (old_penalty_value e)
    (original_community_structure e) (old_community_structure e)
    (new_community_structure e) (preferred_community_size e)
    (community_target e) (node_target e) (edge_budget e)
    (used_edge_budget e) (stop_episode e) (rewards e) (old_rewards e) v.

(** The collaborators the environment is configured with: the community
    detector, cdlib's normalised mutual information (its [score]), the two
    similarity functions selected by name, and the constant
    [HyperParams.COMMUNITY_CHANGE_METHOD]. *)
Class Collaborators : Type := {
  detect : Nx.Graph → NodeClustering;
  normalized_mutual_information : NodeClustering → NodeClustering → float;
  community_similarity : list Z → list Z → float;
  graph_similarity : Nx.Graph → Nx.Graph → float;
  COMMUNITY_CHANGE_METHOD : Z
}.

(** ** The monad of methods *)

(** What a method can touch: the object, the draws the process-wide random
    generator will deliver (one natural number per call of
    [random.choice]) and the graphs handed to the detector so far, latest
    first.  The code re-seeds the generator from the wall clock before each
    draw ([random.seed(time.time())]), so the draws are whatever the clock
    makes them: the tape is arbitrary. *)
Record World : Type := mkWorld {
  self : Env;
  rng : list nat;
  detector_calls : list Nx.Graph
}.

(** A call returns a value and a new world, raises, or is [Starved]: it
    asked for a draw after the tape ended, so the tape was too short to
    tell what the call does. *)
Inductive outcome (A : Type) : Type :=
| Returns (a : A) (w : World)
| Raises (err : exn)
| Starved.

Arguments Returns {A} a w.
Arguments Raises {A} err.
Arguments Starved {A}.

Definition M (A : Type) : Type := World → outcome A.

#[global] Instance M_ret : MRet M := λ A a w, Returns a w.

#[global] Instance M_bind : MBind M := λ A B f m w,
  match m w with
  | Returns a w' => f a w'
  | Raises err => Raises err
  | Starved => Starved
  end.

Definition raise {A} (err : exn) : M A := λ _, Raises err.

Definition starve {A} : M A := λ _, Starved.

Definition get_self : M Env := λ w, Returns (self w) w.

Definition put_self (e : Env) : M unit :=
  λ w, Returns tt (mkWorld e (rng w) (detector_calls w)).

Definition modify_self (f : Env → Env) : M unit :=
  e ← get_self; put_self (f e).

(** A computation without side effects, run inside a method. *)
Definition lift {A} (r : result A) : M A :=
  match r with
  | inr a => mret a
  | inl err => raise err
  end.

(** Reading a value that must not be [None]: [err] is what the assertion
    on it, or the use that follows, raises otherwise. *)
Definition require {A} (err : exn) (o : option A) : M A :=
  match o with
  | Some a => mret a
  | None => raise err
  end.

(** [random.choice(seq)]: [IndexError] on an empty sequence, else the
    element the next draw selects. *)
Definition random_choice {A} (seq : list A) : M A := λ w,
  match seq with
  | [] => Raises IndexError
  | _ =>
      match rng w with
      | [] => Starved
      | d :: tape =>
          match seq !! (d mod length seq)%nat with
          | Some x => Returns x (mkWorld (self w) tape (detector_calls w))
          | None => Raises IndexError
          end
      end
  end.

(** How many draws are left: no loop that draws once per round can run
    more rounds than this without starving. *)
Definition draws_left : M nat := λ w, Returns (length (rng w)) w.

(** ** The methods of [GraphEnvironment] *)

Section Methods.

Context {cb : Collaborators}.

(** [self.detection.compute_community(g)]. *)
Definition compute_community (g : Nx.Graph) : M NodeClustering := λ w,
  Returns (detect g) (mkWorld (self w) (rng w) (g :: detector_calls w)).

(** *** Possible actions *)

Definition no_actions : PossibleActions := mkActions ∅ ∅.

(** One round of the loop of [get_possible_actions] for the node [v], with
    [u] the target node.  [in_community(u)] is the first thing a round that
    is not skipped evaluates; it raises [TypeError] when the target
    community is [None], and so would every later call of the two
    helpers. *)
Definition possible_actions_round (e : Env) (u : option Z)
    (possible_actions : PossibleActions) (v : Z) : result PossibleActions :=
  if decide (u = Some v) then inr possible_actions
  else
    match community_target e with
    | None => inl TypeError
    | Some community =>
        let in_community node := contains community node in
        let out_community node := negb (contains community node) in
        if in_community u && in_community (Some v) then
          if Nx.has_edge (graph e) u (Some v) then
            if decide ((Some v, u) ∉ REMOVE possible_actions) then
              inr (mkActions (ADD possible_actions)
                     ({[ (u, Some v) ]} ∪ REMOVE possible_actions))
            else inr possible_actions
          else inr possible_actions
        else if (in_community u && out_community (Some v))
                || (out_community u && in_community (Some v)) then
          if negb (Nx.has_edge (graph e) u (Some v)) then
            if decide ((Some v, u) ∉ ADD possible_actions) then
              inr (mkActions ({[ (u, Some v) ]} ∪ ADD possible_actions)
                     (REMOVE possible_actions))
            else inr possible_actions
          else inr possible_actions
        else inr possible_actions
    end.

Fixpoint possible_actions_loop (e : Env) (u : option Z)
    (possible_actions : PossibleActions) (vs : list Z)
  : result PossibleActions :=
  match vs with
  | [] => inr possible_actions
  | v :: vs' =>
      match possible_actions_round e u possible_actions v with
      | inr possible_actions' => possible_actions_loop e u possible_actions' vs'
      | inl err => inl err
      end
  end.

Definition get_possible_actions : M PossibleActions :=
  e ← get_self;
  lift (possible_actions_loop e (node_target e) no_actions (Nx.nodes (graph e))).

(** *** Episode reset *)

Definition reset (graph_reset : bool) : M Nx.Graph :=
  modify_self (with_used_edge_budget 0);;
  modify_self (with_stop_episode false);;
  modify_self (with_rewards 0%float);;
  modify_self (with_old_rewards 0%float);;
  (if graph_reset
   then modify_self (λ e, with_graph (Nx.copy (original_graph e)) e)
   else mret tt);;
  modify_self (with_old_graph None);;
  modify_self (with_old_penalty_value 0%float);;
  modify_self (λ e,
    with_old_community_structure (Some (original_community_structure e)) e);;
  possible_actions ← get_possible_actions;
  modify_self (with_possible_actions possible_actions);;
  e ← get_self;
  mret (graph e).

(** *** Applying an action *)

Definition apply_action (action : Z) : M Z :=
  e ← get_self;
  let action : action_pair := (node_target e, Some action) in
  let action_reversed : action_pair := (action.2, action.1) in
  let actions := possible_actions e in
  if decide (action ∈ ADD actions) then
    g ← lift (Nx.add_edge (graph e) action.1 action.2 1);
    put_self (with_possible_actions
                (mkActions (ADD actions ∖ {[ action ]}) (REMOVE actions))
                (with_graph g e));;
    mret 1
  else if decide (action_reversed ∈ ADD actions) then
    g ← lift (Nx.add_edge (graph e) action_reversed.1 action_reversed.2 1);
    put_self (with_possible_actions
                (mkActions (ADD actions ∖ {[ action_reversed ]}) (REMOVE actions))
                (with_graph g e));;
    mret 1
  else if decide (action ∈ REMOVE actions) then
    g ← lift (Nx.remove_edge (graph e) action.1 action.2);
    put_self (with_possible_actions
                (mkActions (ADD actions) (REMOVE actions ∖ {[ action ]}))
                (with_graph g e));;
    mret 1
  else if decide (action_reversed ∈ REMOVE actions) then
    g ← lift (Nx.remove_edge (graph e) action_reversed.1 action_reversed.2);
    put_self (with_possible_actions
                (mkActions (ADD actions) (REMOVE actions ∖ {[ action_reversed ]}))
                (with_graph g e));;
    mret 1
  else mret 0.

(** *** Penalty and reward *)

Definition get_penalty : M float :=
  e ← get_self;
  new_structure ← require AttributeError (new_community_structure e);
  old_structure ← require AttributeError (old_community_structure e);
  let community_distance :=
    normalized_mutual_information new_structure old_structure in
  let community_distance := (1 - community_distance)%float in
  old_graph ← require AttributeError (old_graph e);
  let graph_distance := graph_similarity (graph e) old_graph in
  alpha ← require AssertionError (alpha_metric e);
  let penalty :=
    (alpha * community_distance + (1 - alpha) * graph_distance)%float in
  let penalty := (penalty - old_penalty_value e)%float in
  modify_self (with_old_penalty_value penalty);;
  mret penalty.

(** [next((c for c in communities if node in c), None)]. *)
Definition community_of (node : option Z) (cs : list (list Z))
  : option (list Z) :=
  List.find (λ c, contains c node) cs.

Definition get_reward : M (float * bool) :=
  e ← get_self;
  lambda ← require AssertionError (lambda_metric e);
  new_structure ← require AttributeError (new_community_structure e);
  let new_community_target :=
    community_of (node_target e) (communities new_structure) in
  new_community_target ← require AssertionError new_community_target;
  penalty ← get_penalty;
  if bool_decide (length new_community_target = 1%nat) then
    let reward := (1 - lambda * penalty)%float in
    mret (reward, true)
  else
    let new_community_target_copy := new_community_target in
    new_community_target_copy ←
      lift (remove new_community_target_copy (node_target e));
    community_target_copy ← require AttributeError (community_target e);
    community_target_copy ← lift (remove community_target_copy (node_target e));
    let similarity :=
      community_similarity new_community_target_copy community_target_copy in
    if (similarity <=? tau e)%float then
      let reward := (1 - lambda * penalty)%float in
      mret (reward, true)
    else
      let reward := (0 - lambda * penalty)%float in
      mret (reward, false).

(** *** One step of an episode *)

Definition step (action : Z) : M (Nx.Graph * float * bool * bool) :=
  modify_self (λ e, with_old_graph (Some (Nx.copy (graph e))) e);;
  budget_consumed ← apply_action action;
  if budget_consumed =? 0 then
    modify_self (with_rewards (-1)%float);;
    e ← get_self;
    mret (graph e, rewards e, stop_episode e, false)
  else
    e ← get_self;
    new_structure ← compute_community (graph e);
    modify_self (with_new_community_structure (Some new_structure));;
    '(reward, done) ← get_reward;
    modify_self (with_rewards reward);;
    (if done : bool then modify_self (with_stop_episode true) else mret tt);;
    modify_self (λ e, with_used_edge_budget (used_edge_budget e + budget_consumed) e);;
    e ← get_self;
    (if edge_budget e - used_edge_budget e <? 1
     then modify_self (with_stop_episode true)
     else mret tt);;
    modify_self (λ e, with_old_community_structure (new_community_structure e) e);;
    e ← get_self;
    mret (graph e, rewards e, stop_episode e, done).

(** [c.remove(node)] on the community of [cs] that [community_of] returned:
    the list is shared with the clustering, which sees the removal. *)
Fixpoint remove_in_place (node : option Z) (cs : list (list Z))
  : result (list (list Z)) :=
  match cs with
  | [] => inl AttributeError
  | c :: cs' =>
      if contains c node then
        match remove c node with
        | inr c' => inr (c' :: cs')
        | inl err => inl err
        end
      else
        match remove_in_place node cs' with
        | inr r => inr (c :: r)
        | inl err => inl err
        end
  end.

(** The variant of [step] used in evaluation: no metrics, no rewards. *)
Definition act (action : Z) : M (Nx.Graph * bool) :=
  budget_consumed ← apply_action action;
  (if budget_consumed =? -1 then
     e ← get_self;
     new_structure ← compute_community (graph e);
     modify_self (with_new_community_structure (Some new_structure));;
     let new_community_target :=
       community_of (node_target e) (communities new_structure) in
     community_target_copy ← require AttributeError (community_target e);
     new_communities ←
       lift (remove_in_place (node_target e) (communities new_structure));
     modify_self
       (with_new_community_structure (Some (mkClustering new_communities)));;
     new_community_target ←
       lift (match new_community_target with
             | Some c => remove c (node_target e)
             | None => inl AttributeError
             end);
     community_target_copy ← lift (remove community_target_copy (node_target e));
     let similarity :=
       community_similarity new_community_target community_target_copy in
     if (similarity <=? tau e)%float
     then modify_self (with_stop_episode true)
     else mret tt
   else mret tt);;
  modify_self (λ e, with_used_edge_budget (used_edge_budget e + budget_consumed) e);;
  e ← get_self;
  (if edge_budget e - used_edge_budget e <? 1
   then modify_self (with_stop_episode true)
   else mret tt);;
  e ← get_self;
  mret (graph e, stop_episode e).

(** *** Target selection *)

(** The loop of [change_target_node]: draw from the target community while
    the target node is still the old one.  [fuel] bounds the rounds. *)
Fixpoint change_target_node_loop (fuel : nat) (old_node : option Z) : M unit :=
  e ← get_self;
  if decide (node_target e = old_node) then
    match fuel with
    | O => starve
    | S fuel' =>
        community ← require TypeError (community_target e);
        node ← random_choice community;
        modify_self (with_node_target (Some node));;
        change_target_node_loop fuel' old_node
    end
  else mret tt.

Definition change_target_node (node_target_arg : option Z) : M unit :=
  match node_target_arg with
  | None =>
      e ← get_self;
      let old_node := node_target e in
      fuel ← draws_left;
      change_target_node_loop (S fuel) old_node
  | Some node => modify_self (with_node_target (Some node))
  end.

(** The loop of [random_community]. *)
Fixpoint random_community_loop (fuel : nat) (old_community : list Z) : M unit :=
  match fuel with
  | O => starve
  | S fuel' =>
      e ← get_self;
      let communities := communities (original_community_structure e) in
      community ← random_choice communities;
      modify_self (with_community_target (Some community));;
      if ((1 <? length community)%nat
          && negb (bool_decide (community = old_community)))
         || (length communities <? 2)%nat
      then mret tt
      else random_community_loop fuel' old_community
  end.

Definition random_community : M unit :=
  e ← get_self;
  old_community ← require AttributeError (community_target e);
  fuel ← draws_left;
  random_community_loop (S fuel) old_community.

Definition len (c : list Z) : Z := Z.of_nat (length c).

Definition preferred_size (e : Env) (communities_len : list Z) : result Z :=
  match max_list communities_len with
  | inr largest =>
      int_np_ceil (float_of_int largest * preferred_community_size e)%float
  | inl err => inl err
  end.

Definition fixed_community : M unit :=
  e ← get_self;
  let communities := communities (original_community_structure e) in
  let communities_len := len <$> communities in
  preferred_size ← lift (preferred_size e communities_len);
  closest ← lift (min_by (λ x, Z.abs (x - preferred_size)) communities_len);
  i ← lift (index closest communities_len);
  community ← require IndexError (communities !! i);
  modify_self (with_community_target (Some community)).

(** [np.mean] of a list of lengths. *)
Definition np_mean (l : list Z) : float :=
  let total := foldr Z.add 0 l in
  (float_of_int total / float_of_int (len l))%float.

Definition distribution_community (min_len : Z) : M unit :=
  e ← get_self;
  let communities := communities (original_community_structure e) in
  if (length communities <? 10)%nat then
    community ← random_choice communities;
    modify_self (with_community_target (Some community))
  else
    let avg_nodes := np_mean (len <$> communities) in
    max_nodes ← lift (max_list (len <$> communities));
    let max_len := (0.8 * float_of_int max_nodes)%float in
    let min_len :=
      if (avg_nodes <? float_of_int min_len)%float then 2 else min_len in
    let filtered_communities :=
      List.filter
        (λ c, (min_len <? len c)
              && (float_of_int (len c) <? max_len)%float
              && (len c <? 5000))
        communities in
    community ← random_choice filtered_communities;
    modify_self (with_community_target (Some community)).

Definition change_target_community (community : option (list Z))
    (node_target_arg : option Z) : M unit :=
  match community with
  | None =>
      if COMMUNITY_CHANGE_METHOD =? 1 then random_community
      else if COMMUNITY_CHANGE_METHOD =? 2 then fixed_community
      else if COMMUNITY_CHANGE_METHOD =? 3 then distribution_community 10
      else raise ValueError
  | Some community => modify_self (with_community_target (Some community))
  end;;
  change_target_node node_target_arg.

(** *** The edge budget *)

(** [a / b] on two ints. *)
Definition true_div (a b : Z) : result float :=
  if b =? 0 then inl ZeroDivisionError
  else inr (float_of_int a / float_of_int b)%float.

Definition get_edge_budget : M Z :=
  e ← get_self;
  if bool_decide (env_name e = "pow"%string)
     || bool_decide (env_name e = "kar"%string) then
    density ←
      lift (true_div (Nx.number_of_edges (graph e))
              (Nx.number_of_nodes (graph e)));
    lift (int_of_float ((density + 1) * beta e)%float)
  else
    density ←
      lift (true_div (Nx.number_of_edges (graph e))
              (Nx.number_of_nodes (graph e)));
    lift (int_of_float (density * beta e)%float).

End Methods.

(** ** Episodes and the properties the specification names *)

Section Episodes.

Context {cb : Collaborators}.

(** The calls a driver makes between two resets. *)
Inductive call : Type :=
| Step (action : Z)
| Act (action : Z)
| ApplyAction (action : Z).

Definition run_call (c : call) : M unit :=
  match c with
  | Step action => _ ← step action; mret tt
  | Act action => _ ← act action; mret tt
  | ApplyAction action => _ ← apply_action action; mret tt
  end.

Fixpoint episode (calls : list call) : M unit :=
  match calls with
  | [] => mret tt
  | c :: calls' => run_call c;; episode calls'
  end.

End Episodes.

(** The target invariant: the target node is a member of the target
    community. *)
Definition target_invariant (e : Env) : bool :=
  match community_target e, node_target e with
  | Some community, Some node => bool_decide (node ∈ community)
  | _, _ => false
  end.

(** No pair is listed twice: not in both sets, and not in both
    orientations. *)
Definition listed (actions : PossibleActions) : gset action_pair :=
  ADD actions ∪ REMOVE actions.

Definition one_shot (actions : PossibleActions) : bool :=
  bool_decide (ADD actions ## REMOVE actions)
  && forallb (λ p : action_pair,
                bool_decide (p.1 = p.2)
                || bool_decide ((p.2, p.1) ∉ listed actions))
       (elements (listed actions)).

(** A float that is not negative: a zero of either sign, a positive finite
    number or plus infinity. *)
Definition nonnegative (x : float) : bool := (0 <=? x)%float.

(** Every float but the finite ones below zero: on these, truncation and
    floor agree. *)
Definition not_negative (x : SpecFloat.spec_float) : bool :=
  match x with
  | SpecFloat.S754_finite true _ _ => false
  | _ => true
  end.

(** A float that is a number and not an infinity. *)
Definition finite (x : float) : bool :=
  match FloatOps.Prim2SF x with
  | SpecFloat.S754_zero _ | SpecFloat.S754_finite _ _ _ => true
  | _ => false
  end.

(** The number a finite float denotes, [sign * mantissa * 2 ^ exponent], as
    a fraction with a positive denominator. *)
Definition as_fraction (x : float) : option (Z * Z) :=
  match FloatOps.Prim2SF x with
  | SpecFloat.S754_zero _ => Some (0, 1)
  | SpecFloat.S754_finite s m e =>
      let v := SpecFloat.cond_Zopp s (Zpos m) in
      Some (if 0 <=? e then (v * 2 ^ e, 1) else (v, 2 ^ (- e)))
  | _ => None
  end.


(** The integer [k] is the ceiling of the number [x] denotes: the least
    integer not below it. *)
Definition is_ceiling (x : float) (k : Z) : Prop :=
  ∃ n d, as_fraction x = Some (n, d) ∧ (k - 1) * d < n ≤ k * d.



(** The preferred size as the specification writes it, in exact arithmetic:
    ceil(fraction * largest size) for the fraction [num / den]. *)
Definition spec_preferred_size (num den largest : Z) : Z :=
  - ((- (num * largest)) `div` den).

(** [l'] is [l] without the first occurrence of the node [u], which is set
    and occurs in [l]. *)
Definition without_first (u : option Z) (l l' : list Z) : Prop :=
  ∃ n before after,
    u = Some n ∧ l = before ++ n :: after ∧ (n ∉ before)
    ∧ l' = before ++ after.

(** The distance the fixed-size policy minimises. *)
Definition distance_to (p : Z) (c : list Z) : Z := Z.abs (len c - p).

(** The first community of [cs], in the order of [cs], among those whose
    size is nearest to [p]. *)
Definition first_closest (p : Z) (cs : list (list Z)) : option (list Z) :=
  match cs with
  | [] => None
  | c :: cs' =>
      Some (foldl (λ best c',
                     if distance_to p c' <? distance_to p best
                     then c' else best) c cs')
  end.

(** The choice as the specification words it: the first nearest community
    in the size-sorted order. *)
Definition spec_fixed_choice (p : Z) (cs : list (list Z)) : option (list Z) :=
  first_closest p (sorted_by_len cs).

(** The same with the sizes sorted from the largest down. *)
Definition spec_fixed_choice_reverse (p : Z) (cs : list (list Z))
  : option (list Z) :=
  first_closest p (sorted_by_len_reverse cs).

(** [keeps R m]: whenever [m] returns, the world it leaves is related by [R]
    to the one it started from. *)
Definition keeps {A} (R : relation World) (m : M A) : Prop :=
  ∀ w a w1, m w = Returns a w1 → R w w1.

(** What every call of an episode respects: the two sets only lose pairs,
    the target stays, and the used budget does not decrease. *)
Definition steady (w w1 : World) : Prop :=
  ADD (possible_actions (self w1)) ⊆ ADD (possible_actions (self w))
  ∧ REMOVE (possible_actions (self w1)) ⊆ REMOVE (possible_actions (self w))
  ∧ node_target (self w1) = node_target (self w)
  ∧ used_edge_budget (self w) ≤ used_edge_budget (self w1).

(** ** A small environment to run the methods on *)

Module Demo.

Definition graph_of_edges (edges : list (Z * Z)) : Nx.Graph :=
  foldl (λ g '(a, b),
           match Nx.add_edge g (Some a) (Some b) 1 with
           | inr g' => g'
           | inl _ => g
           end) (Nx.mkGraph ∅) edges.

(** Ten nodes: the ring 0..4 with the chord 0-2, the ring 5..9, and the
    bridge 4-5. *)
Definition two_rings : Nx.Graph :=
  graph_of_edges [(0, 1); (1, 2); (2, 3); (3, 4); (4, 0); (0, 2);
                  (5, 6); (6, 7); (7, 8); (8, 9); (9, 5); (4, 5)].

Definition two_rings_clustering : NodeClustering :=
  mkClustering [[0; 1; 2; 3; 4]; [5; 6; 7; 8; 9]].


(** A detector that splits off the nodes left without a neighbour, an
    all-or-nothing partition score, the Jaccard index of two node sets as
    the community similarity and a constant graph similarity. *)
Definition isolated (g : Nx.Graph) (n : Z) : bool :=
  bool_decide (default ∅ (Nx._adj g !! n) = ∅).

Definition split_isolated (g : Nx.Graph) : NodeClustering :=
  mkClustering
    (flat_map (λ c, match List.filter (λ n, negb (isolated g n)) c with
                    | [] => []
                    | c' => [c']
                    end) (communities two_rings_clustering)
     ++ ((λ n, [n]) <$> List.filter (isolated g) (Nx.nodes g))).

Definition jaccard (a b : list Z) : float :=
  let inter := List.filter (λ x, bool_decide (x ∈ b)) a in
  let union := a ++ List.filter (λ x, negb (bool_decide (x ∈ a))) b in
  match union with
  | [] => 0%float
  | _ => (float_of_int (len inter) / float_of_int (len union))%float
  end.

Definition collaborators (method : Z) : Collaborators := {|
  detect := split_isolated;
  normalized_mutual_information := λ a b,
    if decide (communities a = communities b) then 1%float else 0.5%float;
  community_similarity := jaccard;
  graph_similarity := λ _ _, 0.25%float;
  COMMUNITY_CHANGE_METHOD := method
|}.

Definition env : Env :=
  mkEnv "demo" two_rings two_rings None 10%float 0.5%float
    (Some 0.1%float) (Some 0.7%float) 0%float
    two_rings_clustering (Some two_rings_clustering) None 0.8%float
    (Some [0; 1; 2; 3; 4]) (Some 0) 12 0 false 0%float 0%float no_actions.

Definition world : World := mkWorld env [3%nat; 1%nat; 4%nat] [].

(** The world after [reset(True)]. *)
Definition fresh : World :=
  match reset true world with
  | Returns _ w => w
  | _ => world
  end.

(** The fresh world after the action "add the edge (0, 7)". *)
Definition after_add : World :=
  match apply_action 7 fresh with
  | Returns _ w => w
  | _ => fresh
  end.

(** The fresh world after the action "remove the edge (0, 1)". *)
Definition after_remove : World :=
  match apply_action 1 fresh with
  | Returns _ w => w
  | _ => fresh
  end.

(** The fresh world after [act(7)]. *)
Definition after_act : World :=
  match act (cb := collaborators 2) 7 fresh with
  | Returns _ w => w
  | _ => fresh
  end.

(** The world in the middle of a step that cut node 0 off: the detector
    has put it in a community of its own. *)
Definition cut_off : World :=
  mkWorld
    (with_new_community_structure
       (Some (mkClustering [[1; 2; 3; 4]; [5; 6; 7; 8; 9]; [0]]))
       (with_old_graph (Some two_rings) (self fresh)))
    (rng fresh) (detector_calls fresh).

(** The world in the middle of a step after which the detector found the
    partition it had found before. *)
Definition settled : World :=
  mkWorld
    (with_new_community_structure (Some two_rings_clustering)
       (with_old_graph (Some two_rings) (self after_add)))
    (rng after_add) (detector_calls after_add).

(** Two communities of sizes 5 and 3, and the same two in the other
    order. *)
Definition five_three : NodeClustering :=
  mkClustering [[0; 1; 2; 3; 4]; [5; 6; 7]].

Definition three_five : NodeClustering :=
  mkClustering [[5; 6; 7]; [0; 1; 2; 3; 4]].

Definition with_structure (cs : NodeClustering) (e : Env) : Env :=
  mkEnv (env_name e) (graph e) (original_graph e) (old_graph e) (beta e)
    (tau e) (lambda_metric e) (alpha_metric e) (old_penalty_value e)
    cs (old_community_structure e) (new_community_structure e)
    (preferred_community_size e) (community_target e) (node_target e)
    (edge_budget e) (used_edge_budget e) (stop_episode e) (rewards e)
    (old_rewards e) (possible_actions e).

Definition world_of (cs : NodeClustering) : World :=
  mkWorld (with_structure cs env) [] [].

(** The demo world after [change_target_community()] under the fixed-size
    policy. *)
Definition retargeted : World :=
  match change_target_community (cb := collaborators 2) None None world with
  | Returns _ w => w
  | _ => world
  end.


End Demo.

(** ** The rest of the environment and its evaluation harness *)

(** [l.pop(i)] for an index that is not negative. *)
Definition list_pop {A} (i : nat) (l : list A) : result (A * list A) :=
  match l !! i with
  | Some x => inr (x, delete i l)
  | None => inl IndexError
  end.

Definition with_original_community_structure (v : NodeClustering) (e : Env)
  : Env :=
  mkEnv (env_name e) (graph e) (original_graph e) (old_graph e) (beta e)
    (tau e) (lambda_metric e) (alpha_metric e) (old_penalty_value e)
    v (old_community_structure e) (new_community_structure e)
    (preferred_community_size e) (community_target e) (node_target e)
    (edge_budget e) (used_edge_budget e) (stop_episode e) (rewards e)
    (old_rewards e) (possible_actions e).

(** [[n_node / sum(n_nodes) for n_node in n_nodes]]. *)
Fixpoint shares (total : Z) (n_nodes : list Z) : result (list float) :=
  match n_nodes with
  | [] => inr []
  | n_node :: rest =>
      match true_div n_node total with
      | inr share =>
          match shares total rest with
          | inr others => inr (share :: others)
          | inl err => inl err
          end
      | inl err => inl err
      end
  end.

(** The loop of [set_communities] that pops the communities of at most one
    node while it enumerates the list it pops from.  The list iterator
    holds a position, which is also the counter [i] of [enumerate]: each
    round reads the element now at that position, and the loop ends when
    the position has left the list.  [fuel] bounds the rounds. *)
Fixpoint prune_loop (fuel i : nat) (sorted_communities : list (list Z))
    (prob_dist : list float) : result (list (list Z) * list float) :=
  match fuel with
  | O => inr (sorted_communities, prob_dist)
  | S fuel' =>
      match sorted_communities !! i with
      | None => inr (sorted_communities, prob_dist)
      | Some community =>
          if (length community <=? 1)%nat then
            match list_pop i sorted_communities with
            | inr (_, sorted_communities') =>
                match list_pop i prob_dist with
                | inr (_, prob_dist') =>
                    prune_loop fuel' (S i) sorted_communities' prob_dist'
                | inl err => inl err
                end
            | inl err => inl err
            end
          else prune_loop fuel' (S i) sorted_communities prob_dist
      end
  end.

Section Setters.

Context {cb : Collaborators}.

(** [set_communities], for a detector that is already chosen.  The
    attributes [sorted_communities] and [prob_dist], which no other method
    reads, are what the model returns.  The position of the loop advances
    by one each round over a list that does not grow, so as many rounds as
    the list is long are enough. *)
Definition set_communities : M (list (list Z) * list float) :=
  modify_self (with_old_penalty_value 0%float);;
  e ← get_self;
  original ← compute_community (graph e);
  modify_self (with_original_community_structure original);;
  modify_self (with_old_community_structure (Some original));;
  let communities := communities original in
  let sorted_communities := sorted_by_len communities in
  let n_nodes := len <$> sorted_communities in
  prob_dist ← lift (shares (foldr Z.add 0 n_nodes) n_nodes);
  '(sorted_communities, prob_dist) ←
    lift (prune_loop (length sorted_communities) 0 sorted_communities
            prob_dist);
  require AssertionError
    (if (0 <? length sorted_communities)%nat
     then Some (sorted_communities, prob_dist) else None).

End Setters.

(** The elements a list holds at its odd positions. *)
Fixpoint every_other {A} (l : list A) : list A :=
  match l with
  | _ :: y :: l' => y :: every_other l'
  | _ => []
  end.

(** A community of at most one node. *)
Definition tiny (c : list Z) : bool := (length c <=? 1)%nat.

(** The share of the nodes that a community holds, and the communities
    [set_communities] keeps of a list sorted by size: of those with at
    most one node every other one, and all the others. *)
Definition share (total : Z) (c : list Z) : float :=
  (float_of_int (len c) / float_of_int total)%float.

Definition survivors (sorted_communities : list (list Z)) : list (list Z) :=
  every_other (List.filter tiny sorted_communities)
  ++ List.filter (λ c, negb (tiny c)) sorted_communities.

(** networkx keeps the adjacency symmetric: [v] is a neighbour of [u]
    exactly when [u] is one of [v]. *)
Definition symmetric (g : Nx.Graph) : Prop :=
  ∀ a b, Nx.has_edge g (Some a) (Some b) = Nx.has_edge g (Some b) (Some a).

(** [n in G]. *)
Definition has_node (g : Nx.Graph) (n : Z) : Prop :=
  is_Some (Nx._adj g !! n).

(** The action sets agree with the graph and the target node [u]: every
    pair listed runs from [u] to another node, and the pairs to remove are
    edges. *)
Definition applicable (u : Z) (e : Env) : Prop :=
  (∀ p, p ∈ listed (possible_actions e) → ∃ v, p = (Some u, Some v) ∧ v ≠ u)
  ∧ (∀ v, (Some u, Some v) ∈ REMOVE (possible_actions e) →
       Nx.has_edge (graph e) (Some u) (Some v) = true).

(** An environment on which every action can be applied. *)
Definition ready (u : Z) (e : Env) : Prop :=
  node_target e = Some u ∧ symmetric (graph e) ∧ applicable u e.

(** An environment on which a reward can be computed once a structure is
    detected, and a detector that finds a community for [u] on every graph
    that has [u]. *)
Definition rewarding (u : Z) (e : Env) : Prop :=
  has_node (graph e) u
  ∧ target_invariant e = true
  ∧ is_Some (lambda_metric e)
  ∧ is_Some (alpha_metric e)
  ∧ is_Some (old_community_structure e).

Definition covers {cb : Collaborators} (u : Z) : Prop :=
  ∀ g, has_node g u →
    is_Some (community_of (Some u) (communities (detect g))).

(** The number of pairs in two action sets. *)
Definition listed_size (actions : PossibleActions) : nat :=
  (size (ADD actions) + size (REMOVE actions))%nat.

(** The number of actions still listed. *)
Definition actions_left (e : Env) : Z :=
  Z.of_nat (size (ADD (possible_actions e)))
  + Z.of_nat (size (REMOVE (possible_actions e))).

(** The calls that keep the budget count, [step] and [act], and the calls
    that compute no reward, [act] and [apply_action]. *)
Definition counts_budget (c : call) : bool :=
  match c with
  | ApplyAction _ => false
  | _ => true
  end.

Definition skips_reward (c : call) : bool :=
  match c with
  | Step _ => false
  | _ => true
  end.

(** *** The evaluation harness ([NodeHiding]) *)

(** The attributes of [NodeHiding] that its goal test reads: the copies of
    the target it took from the environment and [tau], which is [None]
    until [set_parameters] runs. *)
Record NodeHiding : Type := mkNodeHiding {
  nh_community_target : option (list Z);
  nh_node_target : option Z;
  nh_tau : option float
}.

(** [NodeHiding.get_nmi]; the branch without a new structure returns the
    int 1. *)
Definition get_nmi {cb : Collaborators}
    (old_communities : NodeClustering)
    (new_communities : option NodeClustering) : float :=
  match new_communities with
  | None => 1%float
  | Some new_communities =>
      normalized_mutual_information old_communities new_communities
  end.

(** [NodeHiding.get_new_community]. *)
Definition get_new_community (h : NodeHiding)
    (new_community_structure : option NodeClustering)
  : result (option (list Z)) :=
  match new_community_structure with
  | None => inr (nh_community_target h)
  | Some structure =>
      match List.find (λ community, contains community (nh_node_target h))
              (communities structure) with
      | Some community => inr (Some community)
      | None => inl ValueError
      end
  end.

(** [NodeHiding.check_goal]. *)
Definition check_goal {cb : Collaborators} (h : NodeHiding)
    (new_community : option (list Z)) : result Z :=
  match new_community with
  | None => inl TypeError
  | Some new_community =>
      if bool_decide (length new_community = 1%nat) then inr 1
      else
        match remove new_community (nh_node_target h) with
        | inl err => inl err
        | inr new_community_copy =>
            match nh_community_target h with
            | None => inl AttributeError
            | Some old_community =>
                match remove old_community (nh_node_target h) with
                | inl err => inl err
                | inr old_community_copy =>
                    let similarity :=
                      community_similarity new_community_copy
                        old_community_copy in
                    match nh_tau h with
                    | None => inl TypeError
                    | Some tau =>
                        if (similarity <=? tau)%float then inr 1 else inr 0
                    end
                end
            end
        end
  end.

(** The two lines of [run_alg] that turn the structure an algorithm
    returned into the goal flag. *)
Definition goal_of {cb : Collaborators} (h : NodeHiding)
    (new_communities : option NodeClustering) : result Z :=
  match get_new_community h new_communities with
  | inr community_target => check_goal h community_target
  | inl err => inl err
  end.

(** The harness as its constructor, [reset_experiment] and
    [set_parameters] leave it for the environment [e]: its own copies of
    the target, and the environment's [tau]. *)
Definition harness_of (e : Env) : NodeHiding :=
  mkNodeHiding (community_target e) (node_target e) (Some (tau e)).

(** The calls that run the detector whenever they use budget: all but
    [act]. *)
Definition detects (c : call) : bool :=
  match c with
  | Act _ => false
  | _ => true
  end.

(** What no call of an episode writes: the name, the original graph and
    structure, the hyperparameters, the target, the budget and the reward
    of the previous step. *)
Definition same_setup (e e1 : Env) : Prop :=
  env_name e1 = env_name e
  ∧ original_graph e1 = original_graph e
  ∧ beta e1 = beta e
  ∧ tau e1 = tau e
  ∧ lambda_metric e1 = lambda_metric e
  ∧ alpha_metric e1 = alpha_metric e
  ∧ original_community_structure e1 = original_community_structure e
  ∧ preferred_community_size e1 = preferred_community_size e
  ∧ community_target e1 = community_target e
  ∧ node_target e1 = node_target e
  ∧ edge_budget e1 = edge_budget e
  ∧ old_rewards e1 = old_rewards e.

(** The attributes as [reset] leaves them before it lists the actions. *)
Definition reset_env (graph_reset : bool) (e : Env) : Env :=
  with_old_community_structure (Some (original_community_structure e))
    (with_old_penalty_value 0%float
       (with_old_graph None
          (with_graph (if graph_reset then Nx.copy (original_graph e)
                       else graph e)
             (with_old_rewards 0%float
                (with_rewards 0%float
                   (with_stop_episode false
                      (with_used_edge_budget 0 e))))))).

(** What a change of target leaves alone: putting the old target back
    gives the old environment, and the detector was not called. *)
Definition retargets (w w1 : World) : Prop :=
  with_node_target (node_target (self w))
    (with_community_target (community_target (self w)) (self w1))
  = self w
  ∧ detector_calls w1 = detector_calls w.

(** *** Construction and parameters *)

Definition with_beta (v : float) (e : Env) : Env :=
  mkEnv (env_name e) (graph e) (original_graph e) (old_graph e) v (tau e)
    (lambda_metric e) (alpha_metric e) (old_penalty_value e)
    (original_community_structure e) (old_community_structure e)
    (new_community_structure e) (preferred_community_size e)
    (community_target e) (node_target e) (edge_budget e)
    (used_edge_budget e) (stop_episode e) (rewards e) (old_rewards e)
    (possible_actions e).

Definition with_tau (v : float) (e : Env) : Env :=
  mkEnv (env_name e) (graph e) (original_graph e) (old_graph e) (beta e) v
    (lambda_metric e) (alpha_metric e) (old_penalty_value e)
    (original_community_structure e) (old_community_structure e)
    (new_community_structure e) (preferred_community_size e)
    (community_target e) (node_target e) (edge_budget e)
    (used_edge_budget e) (stop_episode e) (rewards e) (old_rewards e)
    (possible_actions e).

Definition with_lambda_metric (v : option float) (e : Env) : Env :=
  mkEnv (env_name e) (graph e) (original_graph e) (old_graph e) (beta e)
    (tau e) v (alpha_metric e) (old_penalty_value e)
    (original_community_structure e) (old_community_structure e)
    (new_community_structure e) (preferred_community_size e)
    (community_target e) (node_target e) (edge_budget e)
    (used_edge_budget e) (stop_episode e) (rewards e) (old_rewards e)
    (possible_actions e).

Definition with_alpha_metric (v : option float) (e : Env) : Env :=
  mkEnv (env_name e) (graph e) (original_graph e) (old_graph e) (beta e)
    (tau e) (lambda_metric e) v (old_penalty_value e)
    (original_community_structure e) (old_community_structure e)
    (new_community_structure e) (preferred_community_size e)
    (community_target e) (node_target e) (edge_budget e)
    (used_edge_budget e) (stop_episode e) (rewards e) (old_rewards e)
    (possible_actions e).

Definition with_preferred_community_size (v : float) (e : Env) : Env :=
  mkEnv (env_name e) (graph e) (original_graph e) (old_graph e) (beta e)
    (tau e) (lambda_metric e) (alpha_metric e) (old_penalty_value e)
    (original_community_structure e) (old_community_structure e)
    (new_community_structure e) v (community_target e) (node_target e)
    (edge_budget e) (used_edge_budget e) (stop_episode e) (rewards e)
    (old_rewards e) (possible_actions e).

Definition with_edge_budget (v : Z) (e : Env) : Env :=
  mkEnv (env_name e) (graph e) (original_graph e) (old_graph e) (beta e)
    (tau e) (lambda_metric e) (alpha_metric e) (old_penalty_value e)
    (original_community_structure e) (old_community_structure e)
    (new_community_structure e) (preferred_community_size e)
    (community_target e) (node_target e) v (used_edge_budget e)
    (stop_episode e) (rewards e) (old_rewards e) (possible_actions e).

(** [print_env_info]: what it prints is not part of the state; what it
    computes on the way can raise. *)
Definition print_env_info : M unit :=
  e ← get_self;
  density ←
    lift (true_div (Nx.number_of_edges (graph e))
            (Nx.number_of_nodes (graph e)));
  _ ← lift (int_of_float density);
  mret tt.

(** The attributes as [set_rewiring_budget] leaves them before it lists
    the actions. *)
Definition budget_env (budget : Z) (e : Env) : Env :=
  with_old_rewards 0%float
    (with_rewards 0%float
       (with_stop_episode false
          (with_used_edge_budget 0 (with_edge_budget budget e)))).

Section Construction.

Context {cb : Collaborators}.

(** The product of a budget with the hyperparameter [MAX_STEPS_MUL], whose
    value and type are set outside these sources. *)
Context {Steps : Type} (max_steps_of : Z → Steps).

(** [set_rewiring_budget].  The attributes [max_steps] and
    [len_add_actions], which no method of the environment reads, are what
    the model returns. *)
Definition set_rewiring_budget : M (Steps * nat) :=
  budget ← get_edge_budget;
  modify_self (with_edge_budget budget);;
  modify_self (with_used_edge_budget 0);;
  e ← get_self;
  let max_steps := max_steps_of (edge_budget e) in
  modify_self (with_stop_episode false);;
  modify_self (with_rewards 0%float);;
  modify_self (with_old_rewards 0%float);;
  possible_actions ← get_possible_actions;
  modify_self (with_possible_actions possible_actions);;
  mret (max_steps, size (ADD possible_actions)).

(** [GraphEnvironment.__init__] from the checks of the hyperparameters on,
    that is, once the graph is loaded.  The attributes it sets to [None]
    only for [set_communities] and [set_rewiring_budget] to overwrite them
    before any read are left as they are. *)
Definition construct (beta_arg tau_arg : float)
    (preferred_community_size_arg : float)
  : M (list (list Z) * list float * Steps * nat) :=
  require AssertionError
    (if (0 <=? beta_arg)%float && (beta_arg <=? 100)%float
     then Some tt else None);;
  require AssertionError
    (if (0 <=? tau_arg)%float && (tau_arg <=? 1)%float
     then Some tt else None);;
  modify_self (with_beta beta_arg);;
  modify_self (with_tau tau_arg);;
  modify_self (with_lambda_metric None);;
  modify_self (with_alpha_metric None);;
  modify_self (with_old_community_structure None);;
  modify_self (with_new_community_structure None);;
  modify_self (with_preferred_community_size preferred_community_size_arg);;
  '(sorted_communities, prob_dist) ← set_communities;
  modify_self (with_community_target None);;
  modify_self (with_node_target None);;
  change_target_community None None;;
  modify_self (with_edge_budget 0);;
  modify_self (with_used_edge_budget 0);;
  modify_self (with_stop_episode false);;
  modify_self (with_rewards 0%float);;
  modify_self (with_old_rewards 0%float);;
  '(max_steps, len_add_actions) ← set_rewiring_budget;
  print_env_info;;
  mret (sorted_communities, prob_dist, max_steps, len_add_actions).

(** [NodeHiding.set_parameters], before it writes the log dictionary and
    the path of the results.  The harness with its new [tau] is returned
    with the two attributes the goal test does not read, [edge_budget] and
    [max_steps]. *)
Definition set_parameters (h : NodeHiding) (beta_arg tau_arg : float)
  : M (NodeHiding * Z * Steps) :=
  modify_self (with_beta beta_arg);;
  modify_self (with_tau tau_arg);;
  '(max_steps, _) ← set_rewiring_budget;
  e ← get_self;
  if edge_budget e <? 1 then raise ValueError
  else
    mret (mkNodeHiding (nh_community_target h) (nh_node_target h)
            (Some tau_arg),
          edge_budget e, max_steps).

(** The lines of [NodeHiding.reset_experiment] that choose the target and
    copy it into the harness; the baseline algorithms it builds next are
    objects of classes outside these sources. *)
Definition reset_experiment (h : NodeHiding) (target_community : bool)
  : M NodeHiding :=
  h ← (if target_community then
         change_target_community None None;;
         e ← get_self;
         mret (mkNodeHiding (community_target e) (nh_node_target h)
                 (nh_tau h))
       else
         change_target_node None;;
         mret h);
  e ← get_self;
  mret (mkNodeHiding (nh_community_target h) (node_target e) (nh_tau h)).

End Construction.

(** The harness as [NodeHiding.__init__] leaves it: the target of the
    environment, and no [tau] yet. *)
Definition new_harness (e : Env) : NodeHiding :=
  mkNodeHiding (community_target e) (node_target e) None.

(** Runs of the demo world, used to instantiate the properties below. *)
Module Runs.

Definition calls : list call := [Act 7; Step 3; Step 9; Act 7].

(** The fresh demo world after those four calls. *)
Definition after_calls : World :=
  match episode (cb := Demo.collaborators 2) calls Demo.fresh with
  | Returns _ w => w
  | _ => Demo.fresh
  end.

(** The fresh demo world after [step(9)], with what the call returned. *)
Definition step_9 : outcome (Nx.Graph * float * bool * bool) :=
  step (cb := Demo.collaborators 2) 9 Demo.fresh.

Definition after_step_9 : World :=
  match step_9 with
  | Returns _ w => w
  | _ => Demo.fresh
  end.

(** A detector that puts every node of a five-node graph in a community of
    its own. *)
Definition singletons : Collaborators := {|
  detect := λ _, mkClustering [[0]; [1]; [2]; [3]; [4]];
  normalized_mutual_information :=
    normalized_mutual_information (Collaborators := Demo.collaborators 2);
  community_similarity := Demo.jaccard;
  graph_similarity := λ _ _, 0.25%float;
  COMMUNITY_CHANGE_METHOD := 2
|}.

(** The reward of the step that cut node 0 off, and the world it leaves. *)
Definition cut_off_reward : float :=
  match get_reward (cb := Demo.collaborators 2) Demo.cut_off with
  | Returns (reward, _) _ => reward
  | _ => 0%float
  end.

Definition after_cut_off : World :=
  match get_reward (cb := Demo.collaborators 2) Demo.cut_off with
  | Returns _ w => w
  | _ => Demo.cut_off
  end.

(** A target community that holds the target node alone. *)
Definition lonely : World :=
  mkWorld (with_community_target (Some [0]) Demo.env)
    [3%nat; 1%nat; 4%nat] [].

(** A partition whose only community of more than one node is the
    target. *)
Definition stuck : World :=
  mkWorld (Demo.with_structure (mkClustering [[0; 1; 2; 3; 4]; [5]]) Demo.env)
    [3%nat; 1%nat; 4%nat] [].

(** The demo world after [random_community()]. *)
Definition after_random_community : World :=
  match random_community Demo.world with
  | Returns _ w => w
  | _ => Demo.world
  end.




(** The demo environment before a target community is chosen. *)
Definition untargeted : World :=
  mkWorld (with_community_target None Demo.env) [] [].

(** Twice the budget for [max_steps], and the demo world after
    [set_parameters(10, 0.5)] on a new harness. *)
Definition twice (budget : Z) : Z := 2 * budget.

Definition after_set_parameters : World :=
  match set_parameters twice (new_harness (self Demo.world)) 10 0.5
          Demo.world with
  | Returns _ w => w
  | _ => Demo.world
  end.

(** The demo world as the constructor leaves it under the fixed-size
    policy. *)
Definition constructed : World :=
  match construct (cb := Demo.collaborators 2) twice 10 0.5 0.8 Demo.world with
  | Returns _ w => w
  | _ => Demo.world
  end.

(** Calls that compute no reward. *)
Definition quiet_calls : list call := [Act 7; ApplyAction 9; Act 2; Act 7].

(** The world after those four calls and a [reset(True)]. *)
Definition after_reset : World :=
  match reset true after_calls with
  | Returns _ w => w
  | _ => after_calls
  end.

(** Communities of the sizes 7, 5 and 6; under the demo fraction 0.8 the
    product with the largest size is 5.6000000000000005. *)
Definition seven_five_six : NodeClustering :=
  mkClustering [seqZ 0 7; seqZ 7 5; seqZ 12 6].

(** Communities of the sizes 25, 7 and 8 under the fraction 0.28, and of
    the sizes 10, 1 and 2 under the fraction 0.1. *)
Definition quarter : World :=
  mkWorld
    (with_preferred_community_size 0.28%float
       (Demo.with_structure
          (mkClustering [seqZ 0 25; seqZ 25 7; seqZ 32 8]) Demo.env))
    [] [].

Definition tenth : World :=
  mkWorld
    (with_preferred_community_size 0.1%float
       (Demo.with_structure
          (mkClustering [seqZ 0 10; seqZ 10 1; seqZ 11 2]) Demo.env))
    [] [].




End Runs.

(** * Proofs *)

#[local] Set Warnings "-clear-no-such-hyp".

(** ** Reasoning about methods *)

Ltac run :=
  unfold mbind, M_bind, mret, M_ret, modify_self, get_self, put_self, lift,
    raise, require, starve, draws_left, compute_community in *;
  simpl in *.

Section Keeps.

Context (R : relation World) `{!PreOrder R}.

Lemma keeps_ret {A} (a : A) : keeps R (mret a).
Proof. intros w b w1 [= _ <-]. reflexivity. Qed.

Lemma keeps_bind {A B} (m : M A) (f : A → M B) :
  keeps R m → (∀ a, keeps R (f a)) → keeps R (m ≫= f).
Proof.
  intros Hm Hf w b w2. unfold mbind, M_bind.
  destruct (m w) as [a w1| |] eqn:Em; try discriminate.
  intros Ef. transitivity w1; [exact (Hm _ _ _ Em) | exact (Hf _ _ _ _ Ef)].
Qed.

Lemma keeps_raise {A} (err : exn) : keeps R (raise (A := A) err).
Proof. intros w a w1. discriminate. Qed.

Lemma keeps_lift {A} (r : result A) : keeps R (lift r).
Proof. destruct r; [apply keeps_raise | apply keeps_ret]. Qed.

Lemma keeps_require {A} (err : exn) (o : option A) : keeps R (require err o).
Proof. destruct o; [apply keeps_ret | apply keeps_raise]. Qed.

Lemma keeps_get_self : keeps R get_self.
Proof. intros w a w1 [= _ <-]. reflexivity. Qed.

Lemma keeps_modify_self (f : Env → Env) :
  (∀ w, R w (mkWorld (f (self w)) (rng w) (detector_calls w))) →
  keeps R (modify_self f).
Proof. intros Hf w a w1 Hrun. inversion Hrun; subst. apply Hf. Qed.

Lemma keeps_if {A} (b : bool) (m1 m2 : M A) :
  keeps R m1 → keeps R m2 → keeps R (if b then m1 else m2).
Proof. destruct b; auto. Qed.

End Keeps.

(** ** Within an episode the action sets shrink and the used budget grows *)

#[local] Instance steady_preorder : PreOrder steady.
Proof.
  split.
  - intros w. unfold steady. repeat split; try reflexivity.
  - intros w1 w2 w3 (Ha & Hr & Hn & Hu) (Ha' & Hr' & Hn' & Hu').
    unfold steady. repeat split; [set_solver | set_solver | congruence | lia].
Qed.

(** A change of the object that leaves those four attributes alone. *)
Lemma steady_frame (w : World) (f : Env → Env) :
  possible_actions (f (self w)) = possible_actions (self w) →
  node_target (f (self w)) = node_target (self w) →
  used_edge_budget (f (self w)) = used_edge_budget (self w) →
  steady w (mkWorld (f (self w)) (rng w) (detector_calls w)).
Proof.
  intros Hp Hn Hu. unfold steady. simpl. rewrite Hp, Hn, Hu.
  repeat split; reflexivity.
Qed.

Create HintDb keeps.

#[local] Hint Resolve keeps_ret keeps_raise keeps_lift keeps_require
  keeps_get_self : keeps.

Ltac keeps_frame :=
  apply keeps_modify_self; intros ?; apply steady_frame; reflexivity.

Ltac keeps_grow :=
  apply keeps_modify_self; intros ?;
  unfold steady; simpl; repeat split; (reflexivity || lia).

Ltac keeps_steps :=
  repeat first
    [ keeps_frame
    | keeps_grow
    | apply keeps_if
    | match goal with
      | |- keeps _ (let '(_, _) := ?p in _) => destruct p
      end
    | solve [eauto with keeps typeclass_instances]
    | apply keeps_bind; [typeclasses eauto| |intros ?] ].

(** ** [apply_action] *)

Lemma apply_action_unlisted (w : World) (action : Z) :
  (node_target (self w), Some action) ∉ listed (possible_actions (self w)) →
  (Some action, node_target (self w)) ∉ listed (possible_actions (self w)) →
  apply_action action w = Returns 0 w.
Proof.
  unfold listed. intros Hf Hr.
  apply not_elem_of_union in Hf as [Hfa Hfr].
  apply not_elem_of_union in Hr as [Hra Hrr].
  unfold apply_action. run.
  rewrite !decide_False by assumption. reflexivity.
Qed.

(** The shape of every returning call: either nothing matched, or one pair
    [p], the action or its reverse, left the set it was found in. *)
Lemma apply_action_inv (w w1 : World) (action n : Z) :
  apply_action action w = Returns n w1 →
  let e := self w in
  let u := node_target e in
  let actions := possible_actions e in
  (n = 0 ∧ w1 = w
   ∧ ((u, Some action) ∉ listed actions)
   ∧ ((Some action, u) ∉ listed actions))
  ∨ (n = 1 ∧ ∃ p g actions',
        (p = (u, Some action) ∨ p = (Some action, u))
        ∧ ((p ∈ ADD actions
              ∧ actions' = mkActions (ADD actions ∖ {[ p ]}) (REMOVE actions))
           ∨ (p ∈ REMOVE actions
              ∧ actions' = mkActions (ADD actions) (REMOVE actions ∖ {[ p ]})))
        ∧ w1 = mkWorld (with_possible_actions actions' (with_graph g e))
                 (rng w) (detector_calls w)).
Proof.
  unfold apply_action, listed. run.
  repeat case_decide; intros Hrun;
    try (match type of Hrun with
         | context [match ?r with inl _ => _ | inr _ => _ end] =>
             destruct r as [err|g] eqn:Eg; run; [discriminate|]
         end;
         injection Hrun as <- <-; right; split; [reflexivity|];
         match goal with
         | Hin : ?p ∈ _ |- _ =>
             exists p, g; eexists; split; [auto|];
             split; [(left; split; [exact Hin|reflexivity])
                     || (right; split; [exact Hin|reflexivity])
                    |reflexivity]
         end).
  injection Hrun as <- <-. left. repeat split; set_solver.
Qed.

Lemma apply_action_budget (w w1 : World) (action n : Z) :
  apply_action action w = Returns n w1 → n = 0 ∨ n = 1.
Proof.
  intros Hrun. apply apply_action_inv in Hrun as [(-> & _)|(-> & _)]; auto.
Qed.

Lemma apply_action_steady (action : Z) : keeps steady (apply_action action).
Proof.
  intros w n w1 Hrun.
  apply apply_action_inv in Hrun
    as [(_ & -> & _)|(_ & p & g & actions' & _ & Hp & ->)].
  - reflexivity.
  - unfold steady; simpl.
    destruct Hp as [(_ & ->)|(_ & ->)]; simpl;
      repeat split; (set_solver || lia).
Qed.

(** ** [step] on a destination with no legal action *)

Section Step.

Context {cb : Collaborators}.

(** C1.  When neither the pair (target node, destination) nor its reverse
    is listed in a possible-action set, [apply_action] consumes no budget,
    and [step] returns (graph, -1, stop flag, False) at once: the reward
    becomes -1, the snapshot of the graph is taken, and nothing else moves.
    The working graph, the stop flag, the used budget, the action sets and
    the previous-step community structure are as before the call, and the
    community detector has not been called. *)
Theorem step_wasted_turn (w : World) (action : Z) :
  let e := self w in
  let u := node_target e in
  (u, Some action) ∉ listed (possible_actions e) →
  (Some action, u) ∉ listed (possible_actions e) →
  apply_action action w = Returns 0 w
  ∧ ∃ w1,
      step action w
      = Returns (graph e, (-1)%float, stop_episode e, false) w1
      ∧ w1 = mkWorld (with_rewards (-1)%float
                        (with_old_graph (Some (graph e)) e))
               (rng w) (detector_calls w)
      ∧ rewards (self w1) = (-1)%float
      ∧ graph (self w1) = graph e
      ∧ stop_episode (self w1) = stop_episode e
      ∧ used_edge_budget (self w1) = used_edge_budget e
      ∧ possible_actions (self w1) = possible_actions e
      ∧ old_community_structure (self w1) = old_community_structure e
      ∧ new_community_structure (self w1) = new_community_structure e
      ∧ detector_calls w1 = detector_calls w.
Proof.
  intros e u Hf Hr. split; [apply apply_action_unlisted; assumption|].
  eexists. split; [|repeat split; reflexivity].
  unfold step. run.
  set (w0 := mkWorld (with_old_graph (Some (Nx.copy (graph (self w)))) (self w))
               (rng w) (detector_calls w)).
  rewrite (apply_action_unlisted w0 action) by assumption.
  reflexivity.
Qed.

End Step.

(** The destination 3 on the fresh demo world: node 3 is in the target
    community and not a neighbour of the target node 0. *)
Lemma step_wasted_turn_witness :
  apply_action 3 Demo.fresh = Returns 0 Demo.fresh
  ∧ ∃ w1,
      step (cb := Demo.collaborators 2) 3 Demo.fresh
      = Returns (graph (self Demo.fresh), (-1)%float,
                 stop_episode (self Demo.fresh), false) w1
      ∧ w1 = mkWorld (with_rewards (-1)%float
                        (with_old_graph (Some (graph (self Demo.fresh)))
                           (self Demo.fresh)))
               (rng Demo.fresh) (detector_calls Demo.fresh)
      ∧ rewards (self w1) = (-1)%float
      ∧ graph (self w1) = graph (self Demo.fresh)
      ∧ stop_episode (self w1) = stop_episode (self Demo.fresh)
      ∧ used_edge_budget (self w1) = used_edge_budget (self Demo.fresh)
      ∧ possible_actions (self w1) = possible_actions (self Demo.fresh)
      ∧ old_community_structure (self w1)
        = old_community_structure (self Demo.fresh)
      ∧ new_community_structure (self w1)
        = new_community_structure (self Demo.fresh)
      ∧ detector_calls w1 = detector_calls Demo.fresh.
Proof.
  apply (step_wasted_turn (cb := Demo.collaborators 2) Demo.fresh 3);
    apply (proj1 (bool_decide_eq_false _)); vm_compute; reflexivity.
Defined.

(** ** [act] *)

Section Act.

Context {cb : Collaborators}.

(** C6.  [apply_action] returns 0 or 1 and never -1, so the branch of
    [act] guarded by [budget_consumed == -1] is dead: [act] is
    [apply_action] followed by the budget bookkeeping alone.  It adds the
    consumed budget to the used budget and sets the stop flag exactly when
    the flag was already set or the remaining budget is below 1; the
    detector is not called and the current-step community structure is not
    touched. *)
Theorem act_never_tests_similarity (w : World) (action : Z) :
  (∀ n w1, apply_action action w = Returns n w1 → n ≠ -1 ∧ (n = 0 ∨ n = 1))
  ∧ act action w
    = match apply_action action w with
      | Returns n w1 =>
          let e1 := self w1 in
          let used := used_edge_budget e1 + n in
          let stop := stop_episode e1 || (edge_budget e1 - used <? 1) in
          Returns (graph e1, stop)
            (mkWorld (with_stop_episode stop (with_used_edge_budget used e1))
               (rng w1) (detector_calls w1))
      | Raises err => Raises err
      | Starved => Starved
      end
  ∧ (∀ r w2, act action w = Returns r w2 →
       detector_calls w2 = detector_calls w
       ∧ new_community_structure (self w2) = new_community_structure (self w)
       ∧ stop_episode (self w2)
         = stop_episode (self w)
           || (edge_budget (self w) - used_edge_budget (self w2) <? 1)
       ∧ r.2 = stop_episode (self w2)).
Proof.
  assert (Hact : act action w
    = match apply_action action w with
      | Returns n w1 =>
          let e1 := self w1 in
          let used := used_edge_budget e1 + n in
          let stop := stop_episode e1 || (edge_budget e1 - used <? 1) in
          Returns (graph e1, stop)
            (mkWorld (with_stop_episode stop (with_used_edge_budget used e1))
               (rng w1) (detector_calls w1))
      | Raises err => Raises err
      | Starved => Starved
      end).
  { unfold act. run.
    destruct (apply_action action w) as [n w1| |] eqn:Eapply; try reflexivity.
    apply apply_action_budget in Eapply as [-> | ->]; simpl;
      destruct (edge_budget (self w1) - _ <? 1), (stop_episode (self w1)) eqn:Es;
      simpl; try reflexivity;
      unfold with_stop_episode, with_used_edge_budget; simpl;
      rewrite <- ?Es; reflexivity. }
  split; [|split; [exact Hact|]].
  - intros n w1 Hrun. apply apply_action_budget in Hrun. lia.
  - intros r w2. rewrite Hact.
    destruct (apply_action action w) as [n w1| |] eqn:Eapply; try discriminate.
    intros [= <- <-]. simpl.
    apply apply_action_inv in Eapply
      as [(_ & -> & _)|(_ & p & g & actions' & _ & _ & ->)];
      simpl; repeat split; reflexivity.
Qed.

End Act.

(** ** Every call of an episode is steady *)

Lemma keeps_bind_post {A B} (R : relation World) `{!PreOrder R}
    (P : A → Prop) (m : M A) (f : A → M B) :
  (∀ w a w1, m w = Returns a w1 → R w w1 ∧ P a) →
  (∀ a, P a → keeps R (f a)) →
  keeps R (m ≫= f).
Proof.
  intros Hm Hf w b w2. unfold mbind, M_bind.
  destruct (m w) as [a w1| |] eqn:Em; try discriminate.
  destruct (Hm _ _ _ Em) as [HR HP]. intros Ef.
  transitivity w1; [exact HR | exact (Hf _ HP _ _ _ Ef)].
Qed.

Lemma apply_action_steady_budget (action : Z) (w : World) (n : Z) (w1 : World) :
  apply_action action w = Returns n w1 → steady w w1 ∧ (n = 0 ∨ n = 1).
Proof.
  intros Hrun. split;
    [exact (apply_action_steady _ _ _ _ Hrun) | exact (apply_action_budget _ _ _ _ Hrun)].
Qed.

Section Calls.

Context {cb : Collaborators}.

Lemma compute_community_steady (g : Nx.Graph) :
  keeps steady (compute_community g).
Proof. intros w a w1 [= _ <-]. unfold steady. simpl. repeat split; reflexivity. Qed.

Lemma get_penalty_steady : keeps steady get_penalty.
Proof. unfold get_penalty. keeps_steps. Qed.

Lemma get_reward_steady : keeps steady get_reward.
Proof.
  unfold get_reward. keeps_steps.
Qed.

Lemma step_steady (action : Z) : keeps steady (step action).
Proof.
  unfold step.
  apply keeps_bind; [typeclasses eauto|keeps_frame|intros _].
  apply keeps_bind_post with (P := λ n, n = 0 ∨ n = 1);
    [typeclasses eauto|apply apply_action_steady_budget|].
  intros n [-> | ->]; simpl.
  - keeps_steps.
  - keeps_steps;
      try first [apply compute_community_steady | apply get_reward_steady].
Qed.

Lemma act_steady (action : Z) : keeps steady (act action).
Proof.
  unfold act.
  apply keeps_bind_post with (P := λ n, n = 0 ∨ n = 1);
    [typeclasses eauto|apply apply_action_steady_budget|].
  intros n [-> | ->]; simpl; keeps_steps.
Qed.

Lemma run_call_steady (c : call) : keeps steady (run_call c).
Proof.
  destruct c; simpl; (apply keeps_bind; [typeclasses eauto| |intros ?; apply keeps_ret; typeclasses eauto]).
  - apply step_steady.
  - apply act_steady.
  - apply apply_action_steady.
Qed.

Lemma episode_steady (calls : list call) : keeps steady (episode calls).
Proof.
  induction calls as [|c calls IH]; simpl.
  - apply keeps_ret; typeclasses eauto.
  - apply keeps_bind; [typeclasses eauto|apply run_call_steady|intros _; exact IH].
Qed.

End Calls.

(** ** Consumption is one-shot *)

Lemma one_shot_spec (actions : PossibleActions) :
  one_shot actions = true ↔
  ADD actions ## REMOVE actions
  ∧ ∀ p, p ∈ listed actions → p.1 ≠ p.2 → (p.2, p.1) ∉ listed actions.
Proof.
  unfold one_shot.
  rewrite andb_true_iff, bool_decide_eq_true, forallb_forall.
  apply and_iff_compat_l. split.
  - intros Hall p Hp Hne.
    specialize (Hall p). rewrite <- list_elem_of_In, elem_of_elements in Hall.
    apply Hall in Hp. apply orb_true_iff in Hp as [Heq|Hrev].
    + apply bool_decide_eq_true in Heq. contradiction.
    + apply bool_decide_eq_true in Hrev. exact Hrev.
  - intros Hall p Hp. rewrite <- list_elem_of_In, elem_of_elements in Hp.
    destruct (decide (p.1 = p.2)) as [Heq|Hne].
    + rewrite (bool_decide_eq_true_2 _ Heq). reflexivity.
    + rewrite (bool_decide_eq_true_2 _ (Hall p Hp Hne)). apply orb_true_r.
Qed.

(** Once [p] has left the set it was in, neither [p] nor its reverse is
    listed. *)
Lemma consumed_unlisted (actions actions' : PossibleActions) (p : action_pair) :
  one_shot actions = true →
  ((p ∈ ADD actions
    ∧ actions' = mkActions (ADD actions ∖ {[ p ]}) (REMOVE actions))
   ∨ (p ∈ REMOVE actions
      ∧ actions' = mkActions (ADD actions) (REMOVE actions ∖ {[ p ]}))) →
  (p ∉ listed actions') ∧ ((p.2, p.1) ∉ listed actions').
Proof.
  intros [Hdisj Hrev]%one_shot_spec Hp.
  assert (Hin : p ∈ listed actions) by (unfold listed; set_solver).
  assert (Hsub : listed actions' ⊆ listed actions)
    by (unfold listed; destruct Hp as [[_ ->]|[_ ->]]; simpl; set_solver).
  assert (Hp' : p ∉ listed actions')
    by (unfold listed; destruct Hp as [[? ->]|[? ->]]; simpl; set_solver).
  split; [exact Hp'|].
  destruct (decide (p.1 = p.2)) as [Heq|Hne].
  - destruct p as [a b]; simpl in *; subst. exact Hp'.
  - intros Hin'. apply (Hrev p Hin Hne). apply Hsub, Hin'.
Qed.

(** ** The graph operations do what their names say *)

Lemma add_edge_has_edge (g : Nx.Graph) (a b w : Z) :
  ∃ g', Nx.add_edge g (Some a) (Some b) w = inr g'
        ∧ Nx.has_edge g' (Some a) (Some b) = true
        ∧ Nx.has_edge g' (Some b) (Some a) = true.
Proof.
  eexists. split; [reflexivity|]. unfold Nx.has_edge. simpl.
  split.
  - destruct (decide (a = b)) as [->|Hne].
    + rewrite lookup_insert_eq. apply bool_decide_eq_true.
      rewrite lookup_insert_eq. eauto.
    + rewrite lookup_insert_ne, lookup_insert_eq by congruence.
      apply bool_decide_eq_true. rewrite lookup_insert_eq. eauto.
  - rewrite lookup_insert_eq. apply bool_decide_eq_true.
    rewrite lookup_insert_eq. eauto.
Qed.

Lemma remove_edge_has_edge (g : Nx.Graph) (a b : Z) :
  Nx.has_edge g (Some a) (Some b) = true →
  Nx.has_edge g (Some b) (Some a) = true →
  ∃ g', Nx.remove_edge g (Some a) (Some b) = inr g'
        ∧ Nx.has_edge g' (Some a) (Some b) = false
        ∧ Nx.has_edge g' (Some b) (Some a) = false.
Proof.
  unfold Nx.has_edge, Nx.remove_edge, Nx.del_nbr.
  destruct (Nx._adj g !! a) as [na|] eqn:Ea; [|discriminate].
  intros [x Hab]%bool_decide_eq_true. rewrite Hab.
  destruct (decide (a = b)) as [->|Hne].
  - intros _. eexists. split; [reflexivity|]. simpl.
    rewrite lookup_insert_eq.
    split; apply bool_decide_eq_false; rewrite lookup_delete_eq;
      intros [? ?]; discriminate.
  - destruct (Nx._adj g !! b) as [nb|] eqn:Eb; [|discriminate].
    intros [y Hba]%bool_decide_eq_true.
    rewrite lookup_insert_ne, Eb, Hba by congruence.
    eexists. split; [reflexivity|]. simpl.
    rewrite lookup_insert_ne, lookup_insert_eq, lookup_insert_eq by congruence.
    split; apply bool_decide_eq_false; rewrite lookup_delete_eq;
      intros [? ?]; discriminate.
Qed.

(** The row of a node, empty when the node is missing. *)
Lemma has_edge_row (g : Nx.Graph) (x y : Z) :
  Nx.has_edge g (Some x) (Some y) = true
  ↔ is_Some (default ∅ (Nx._adj g !! x) !! y).
Proof.
  unfold Nx.has_edge. destruct (Nx._adj g !! x) as [nbrs|]; simpl.
  - apply bool_decide_eq_true.
  - rewrite lookup_empty. split; [discriminate|intros [? ?]; discriminate].
Qed.

Lemma row_add_node (adj : gmap Z (gmap Z Z)) (a x : Z) :
  default ∅ (Nx.add_node a adj !! x) = default ∅ (adj !! x).
Proof.
  unfold Nx.add_node. destruct (adj !! a) eqn:Ea; [reflexivity|].
  destruct (decide (x = a)) as [->|Hne].
  - rewrite lookup_insert_eq, Ea. reflexivity.
  - rewrite lookup_insert_ne by congruence. reflexivity.
Qed.

Lemma row_insert (adj : gmap Z (gmap Z Z)) (a x : Z) (r : gmap Z Z) :
  default ∅ (<[a := r]> adj !! x)
  = if decide (x = a) then r else default ∅ (adj !! x).
Proof.
  destruct (decide (x = a)) as [->|Hne].
  - rewrite lookup_insert_eq. reflexivity.
  - rewrite lookup_insert_ne by congruence. reflexivity.
Qed.

Lemma node_add_node (adj : gmap Z (gmap Z Z)) (a n : Z) :
  is_Some (adj !! n) → is_Some (Nx.add_node a adj !! n).
Proof.
  unfold Nx.add_node. destruct (adj !! a) eqn:Ea; [tauto|].
  intros Hn. destruct (decide (n = a)) as [->|Hne].
  - rewrite lookup_insert_eq. eauto.
  - rewrite lookup_insert_ne by congruence. exact Hn.
Qed.

Lemma node_insert (adj : gmap Z (gmap Z Z)) (a n : Z) (r : gmap Z Z) :
  is_Some (adj !! n) → is_Some (<[a := r]> adj !! n).
Proof.
  intros Hn. destruct (decide (n = a)) as [->|Hne].
  - rewrite lookup_insert_eq. eauto.
  - rewrite lookup_insert_ne by congruence. exact Hn.
Qed.

(** [add_edge] between two nodes succeeds, adds the edge in both
    directions, and keeps every node and every other edge. *)
Lemma add_edge_spec (g : Nx.Graph) (a b w : Z) :
  ∃ g', Nx.add_edge g (Some a) (Some b) w = inr g'
        ∧ (∀ n, is_Some (Nx._adj g !! n) → is_Some (Nx._adj g' !! n))
        ∧ ∀ x y, Nx.has_edge g' (Some x) (Some y) = true
                 ↔ Nx.has_edge g (Some x) (Some y) = true
                   ∨ (x = a ∧ y = b) ∨ (x = b ∧ y = a).
Proof.
  eexists. split; [reflexivity|]. split.
  - intros n Hn. simpl. do 2 apply node_insert. do 2 apply node_add_node.
    exact Hn.
  - intros x y. rewrite !has_edge_row. simpl.
    rewrite !row_insert, !row_add_node.
    repeat case_decide; rewrite ?row_insert, ?row_add_node;
      repeat case_decide; rewrite ?lookup_insert_is_Some;
      destruct (decide (y = a)), (decide (y = b)); intuition congruence.
Qed.

(** [remove_edge] on an edge that both rows hold succeeds, deletes both
    directions, and keeps every node and every other edge. *)
Lemma remove_edge_spec (g : Nx.Graph) (a b : Z) :
  Nx.has_edge g (Some a) (Some b) = true →
  Nx.has_edge g (Some b) (Some a) = true →
  ∃ g', Nx.remove_edge g (Some a) (Some b) = inr g'
        ∧ (∀ n, is_Some (Nx._adj g !! n) → is_Some (Nx._adj g' !! n))
        ∧ ∀ x y, Nx.has_edge g' (Some x) (Some y) = true
                 ↔ Nx.has_edge g (Some x) (Some y) = true
                   ∧ ¬ (x = a ∧ y = b) ∧ ¬ (x = b ∧ y = a).
Proof.
  intros Hab Hba. unfold Nx.remove_edge, Nx.del_nbr.
  unfold Nx.has_edge in Hab, Hba.
  destruct (Nx._adj g !! a) as [na|] eqn:Ea; [|discriminate].
  apply bool_decide_eq_true in Hab as [wab Hab]. rewrite Hab.
  destruct (decide (a = b)) as [->|Hne].
  - eexists. split; [reflexivity|]. split.
    + intros n. simpl. apply node_insert.
    + intros x y. rewrite !has_edge_row. simpl. rewrite row_insert.
      case_decide; subst; rewrite ?Ea; simpl;
        rewrite ?lookup_delete_is_Some; intuition congruence.
  - destruct (Nx._adj g !! b) as [nb|] eqn:Eb; [|discriminate].
    apply bool_decide_eq_true in Hba as [wba Hba].
    rewrite lookup_insert_ne, Eb, Hba by congruence.
    eexists. split; [reflexivity|]. split.
    + intros n Hn. simpl. do 2 apply node_insert. exact Hn.
    + intros x y. rewrite !has_edge_row. simpl. rewrite !row_insert.
      repeat case_decide; subst; rewrite ?Ea, ?Eb; simpl;
        rewrite ?lookup_delete_is_Some; intuition congruence.
Qed.

(** A [remove_edge] that succeeds found the edge in both rows. *)
Lemma remove_edge_inv (g g' : Nx.Graph) (a b : Z) :
  Nx.remove_edge g (Some a) (Some b) = inr g' →
  Nx.has_edge g (Some a) (Some b) = true
  ∧ Nx.has_edge g (Some b) (Some a) = true.
Proof.
  unfold Nx.remove_edge, Nx.del_nbr, Nx.has_edge.
  destruct (Nx._adj g !! a) as [na|] eqn:Ea; [|discriminate].
  destruct (na !! b) as [wab|] eqn:Eab; [|discriminate].
  destruct (decide (a = b)) as [->|Hne].
  - intros _. rewrite ?Ea, ?Eab. split; apply bool_decide_eq_true; eauto.
  - rewrite lookup_insert_ne by congruence.
    destruct (Nx._adj g !! b) as [nb|] eqn:Eb; [|discriminate].
    destruct (nb !! a) as [wba|] eqn:Eba; [|discriminate].
    intros _. split; apply bool_decide_eq_true; eauto.
Qed.

(** ** [apply_action]: priority order and one-shot consumption *)

Section Consumption.

Context {cb : Collaborators}.

(** C2.  With [forward] the pair (target node, destination) and [reversed]
    its reverse, [apply_action] tries, in this order: [forward] in ADD,
    [reversed] in ADD, [forward] in REMOVE, [reversed] in REMOVE.  On the
    first match it adds (or removes) that edge, deletes exactly that pair
    from the set it was found in and returns 1; the edge is added whenever
    the target node is set, and removed whenever the graph holds it.  With
    no match it returns 0 and changes nothing.  Consequently, when no pair
    is listed twice, after a call that returned 1 neither the pair nor its
    reverse is listed again, in that world or after any further calls of
    the episode, and [apply_action] on the same destination returns 0 and
    leaves the world as it is, however often it is repeated.  Read back
    from the graph of the world a call that returned 1 leaves: the target
    node is set and every node is still there; when the match was in ADD,
    the graph has the edge between the target node and the destination in
    both directions and otherwise exactly the edges it had; when the match
    was in REMOVE, the graph held that edge in both directions before, no
    longer has it in either, and has exactly the other edges it had. *)
Theorem apply_action_priority_and_consumption (w : World) (action : Z) :
  let e := self w in
  let u := node_target e in
  let actions := possible_actions e in
  let forward : action_pair := (u, Some action) in
  let reversed : action_pair := (Some action, u) in
  let consumed (actions' : PossibleActions) (r : result Nx.Graph) :=
    match r with
    | inr g =>
        Returns 1 (mkWorld (with_possible_actions actions' (with_graph g e))
                     (rng w) (detector_calls w))
    | inl err => Raises err
    end in
  (forward ∈ ADD actions →
   apply_action action w
   = consumed (mkActions (ADD actions ∖ {[ forward ]}) (REMOVE actions))
       (Nx.add_edge (graph e) u (Some action) 1))
  ∧ (forward ∉ ADD actions → reversed ∈ ADD actions →
     apply_action action w
     = consumed (mkActions (ADD actions ∖ {[ reversed ]}) (REMOVE actions))
         (Nx.add_edge (graph e) (Some action) u 1))
  ∧ (forward ∉ ADD actions → reversed ∉ ADD actions →
     forward ∈ REMOVE actions →
     apply_action action w
     = consumed (mkActions (ADD actions) (REMOVE actions ∖ {[ forward ]}))
         (Nx.remove_edge (graph e) u (Some action)))
  ∧ (forward ∉ ADD actions → reversed ∉ ADD actions →
     forward ∉ REMOVE actions → reversed ∈ REMOVE actions →
     apply_action action w
     = consumed (mkActions (ADD actions) (REMOVE actions ∖ {[ reversed ]}))
         (Nx.remove_edge (graph e) (Some action) u))
  ∧ (forward ∉ listed actions → reversed ∉ listed actions →
     apply_action action w = Returns 0 w)
  ∧ (∀ a, u = Some a →
       (∃ g, Nx.add_edge (graph e) u (Some action) 1 = inr g
             ∧ Nx.has_edge g u (Some action) = true)
       ∧ (∃ g, Nx.add_edge (graph e) (Some action) u 1 = inr g
               ∧ Nx.has_edge g u (Some action) = true)
       ∧ (Nx.has_edge (graph e) u (Some action) = true →
          Nx.has_edge (graph e) (Some action) u = true →
          (∃ g, Nx.remove_edge (graph e) u (Some action) = inr g
                ∧ Nx.has_edge g u (Some action) = false)
          ∧ (∃ g, Nx.remove_edge (graph e) (Some action) u = inr g
                  ∧ Nx.has_edge g u (Some action) = false)))
  ∧ (one_shot actions = true →
     ∀ w1, apply_action action w = Returns 1 w1 →
       (forward ∉ listed (possible_actions (self w1)))
       ∧ (reversed ∉ listed (possible_actions (self w1)))
       ∧ apply_action action w1 = Returns 0 w1
       ∧ (episode [ApplyAction action; ApplyAction action] w1 = Returns tt w1)
       ∧ ∀ calls w2, episode calls w1 = Returns tt w2 →
           (forward ∉ listed (possible_actions (self w2)))
           ∧ (reversed ∉ listed (possible_actions (self w2)))
           ∧ apply_action action w2 = Returns 0 w2)
  ∧ (∀ w1, apply_action action w = Returns 1 w1 →
       ∃ a, u = Some a
         ∧ (∀ n, is_Some (Nx._adj (graph e) !! n)
                 → is_Some (Nx._adj (graph (self w1)) !! n))
         ∧ (forward ∈ ADD actions ∨ reversed ∈ ADD actions →
            Nx.has_edge (graph (self w1)) u (Some action) = true
            ∧ Nx.has_edge (graph (self w1)) (Some action) u = true
            ∧ ∀ x y, Nx.has_edge (graph (self w1)) (Some x) (Some y) = true
                     ↔ Nx.has_edge (graph e) (Some x) (Some y) = true
                       ∨ (x = a ∧ y = action) ∨ (x = action ∧ y = a))
         ∧ (forward ∉ ADD actions → reversed ∉ ADD actions →
            Nx.has_edge (graph e) u (Some action) = true
            ∧ Nx.has_edge (graph e) (Some action) u = true
            ∧ Nx.has_edge (graph (self w1)) u (Some action) = false
            ∧ Nx.has_edge (graph (self w1)) (Some action) u = false
            ∧ ∀ x y, Nx.has_edge (graph (self w1)) (Some x) (Some y) = true
                     ↔ Nx.has_edge (graph e) (Some x) (Some y) = true
                       ∧ ¬ (x = a ∧ y = action) ∧ ¬ (x = action ∧ y = a))).
Proof.
  intros e u actions forward reversed consumed.
  assert (Hfa : forward ∈ ADD actions →
                apply_action action w
                = consumed (mkActions (ADD actions ∖ {[ forward ]})
                              (REMOVE actions))
                    (Nx.add_edge (graph e) u (Some action) 1)).
  { intros H1. unfold apply_action. run.
    rewrite decide_True by exact H1.
    subst e u actions forward reversed consumed; simpl.
    unfold Nx.add_edge, Nx.remove_edge;
      repeat case_match; run; simplify_eq; reflexivity. }
  assert (Hra : forward ∉ ADD actions → reversed ∈ ADD actions →
                apply_action action w
                = consumed (mkActions (ADD actions ∖ {[ reversed ]})
                              (REMOVE actions))
                    (Nx.add_edge (graph e) (Some action) u 1)).
  { intros H1 H2. unfold apply_action. run.
    rewrite decide_False, decide_True by assumption.
    subst e u actions forward reversed consumed; simpl.
    unfold Nx.add_edge, Nx.remove_edge;
      repeat case_match; run; simplify_eq; reflexivity. }
  assert (Hfr : forward ∉ ADD actions → reversed ∉ ADD actions →
                forward ∈ REMOVE actions →
                apply_action action w
                = consumed (mkActions (ADD actions)
                              (REMOVE actions ∖ {[ forward ]}))
                    (Nx.remove_edge (graph e) u (Some action))).
  { intros H1 H2 H3. unfold apply_action. run.
    rewrite decide_False, decide_False, decide_True by assumption.
    subst e u actions forward reversed consumed; simpl.
    unfold Nx.add_edge, Nx.remove_edge;
      repeat case_match; run; simplify_eq; reflexivity. }
  assert (Hrr : forward ∉ ADD actions → reversed ∉ ADD actions →
                forward ∉ REMOVE actions → reversed ∈ REMOVE actions →
                apply_action action w
                = consumed (mkActions (ADD actions)
                              (REMOVE actions ∖ {[ reversed ]}))
                    (Nx.remove_edge (graph e) (Some action) u)).
  { intros H1 H2 H3 H4. unfold apply_action. run.
    rewrite decide_False, decide_False, decide_False, decide_True
      by assumption.
    subst e u actions forward reversed consumed; simpl.
    unfold Nx.add_edge, Nx.remove_edge;
      repeat case_match; run; simplify_eq; reflexivity. }
  assert (Hno : forward ∉ listed actions → reversed ∉ listed actions →
                apply_action action w = Returns 0 w)
    by apply apply_action_unlisted.
  split; [exact Hfa|]. split; [exact Hra|]. split; [exact Hfr|].
  split; [exact Hrr|]. split; [exact Hno|].
  repeat apply conj.
  - intros a Hu. subst u. rewrite Hu. clear.
    destruct (add_edge_has_edge (graph e) a action 1) as (g1 & E1 & F1 & _).
    destruct (add_edge_has_edge (graph e) action a 1) as (g2 & E2 & _ & F2).
    repeat apply conj; eauto.
    intros Hf Hr.
    destruct (remove_edge_has_edge _ _ _ Hf Hr) as (g3 & E3 & F3 & _).
    destruct (remove_edge_has_edge _ _ _ Hr Hf) as (g4 & E4 & _ & F4).
    split; [exists g3|exists g4]; split; assumption.
  - intros Hone w1 Hrun.
    apply apply_action_inv in Hrun
      as [(Hn & _)|(_ & p & g & actions' & Hp & Hin & ->)]; [discriminate|].
    destruct (consumed_unlisted _ _ _ Hone Hin) as [Hp1 Hp2].
    assert (Hgone : (forward ∉ listed actions') ∧ (reversed ∉ listed actions'))
      by (destruct Hp as [-> | ->]; simpl in Hp2; auto).
    destruct Hgone as [Hfw Hrv].
    set (w1 := mkWorld _ _ _).
    assert (Hzero : apply_action action w1 = Returns 0 w1)
      by (apply apply_action_unlisted; assumption).
    assert (Hlater : ∀ calls w2, episode calls w1 = Returns tt w2 →
              (forward ∉ listed (possible_actions (self w2)))
              ∧ (reversed ∉ listed (possible_actions (self w2)))
              ∧ apply_action action w2 = Returns 0 w2).
    { intros calls w2 Hep.
      destruct (episode_steady calls _ _ _ Hep) as (Ha & Hr & Hn & _).
      simpl in Ha, Hr, Hn.
      assert (Hsub : listed (possible_actions (self w2)) ⊆ listed actions')
        by (unfold listed; set_solver).
      assert (forward ∉ listed (possible_actions (self w2))) by set_solver.
      assert (reversed ∉ listed (possible_actions (self w2))) by set_solver.
      repeat split; try assumption.
      apply apply_action_unlisted; rewrite Hn; assumption. }
    split; [exact Hfw|]. split; [exact Hrv|]. split; [exact Hzero|].
    split; [|exact Hlater].
    simpl. run. rewrite Hzero. simpl. rewrite Hzero. reflexivity.
  - intros w1 Hrun. clearbody u. clearbody e.
    destruct (decide (forward ∈ ADD actions)) as [H1|H1];
      [rewrite (Hfa H1) in Hrun
      |destruct (decide (reversed ∈ ADD actions)) as [H2|H2];
       [rewrite (Hra H1 H2) in Hrun
       |destruct (decide (forward ∈ REMOVE actions)) as [H3|H3];
        [rewrite (Hfr H1 H2 H3) in Hrun
        |destruct (decide (reversed ∈ REMOVE actions)) as [H4|H4];
         [rewrite (Hrr H1 H2 H3 H4) in Hrun
         |rewrite Hno in Hrun by (unfold listed; set_solver);
          discriminate]]]];
      clear Hfa Hra Hfr Hrr Hno; subst consumed; cbv beta in Hrun;
      (destruct u as [a|]; [|discriminate]).
    + destruct (add_edge_spec (graph e) a action 1) as (g & E & Hn & He).
      rewrite E in Hrun. injection Hrun as <-. exists a.
      cbn [self graph with_graph with_possible_actions].
      split; [reflexivity|]. split; [exact Hn|]. split; [|tauto].
      intros _. split; [apply He; tauto|]. split; [apply He; tauto|exact He].
    + destruct (add_edge_spec (graph e) action a 1) as (g & E & Hn & He).
      rewrite E in Hrun. injection Hrun as <-. exists a.
      cbn [self graph with_graph with_possible_actions].
      split; [reflexivity|]. split; [exact Hn|]. split; [|tauto].
      intros _. split; [apply He; tauto|]. split; [apply He; tauto|].
      intros x y. rewrite He. tauto.
    + destruct (Nx.remove_edge (graph e) (Some a) (Some action))
        as [err|g] eqn:Eg; [discriminate|].
      destruct (remove_edge_inv _ _ _ _ Eg) as [Hab Hba].
      destruct (remove_edge_spec _ _ _ Hab Hba) as (g2 & Eg2 & Hn & He).
      rewrite Eg in Eg2. injection Eg2 as <-.
      injection Hrun as <-. exists a.
      cbn [self graph with_graph with_possible_actions].
      split; [reflexivity|]. split; [exact Hn|]. split; [tauto|].
      intros _ _. split; [exact Hab|]. split; [exact Hba|].
      split; [|split; [|exact He]];
        apply not_true_is_false; rewrite He; tauto.
    + destruct (Nx.remove_edge (graph e) (Some action) (Some a))
        as [err|g] eqn:Eg; [discriminate|].
      destruct (remove_edge_inv _ _ _ _ Eg) as [Hba Hab].
      destruct (remove_edge_spec _ _ _ Hba Hab) as (g2 & Eg2 & Hn & He).
      rewrite Eg in Eg2. injection Eg2 as <-.
      injection Hrun as <-. exists a.
      cbn [self graph with_graph with_possible_actions].
      split; [reflexivity|]. split; [exact Hn|]. split; [tauto|].
      intros _ _. split; [exact Hab|]. split; [exact Hba|].
      split; [|split; [|intros x y; rewrite He; tauto]];
        apply not_true_is_false; rewrite He; tauto.
Qed.

End Consumption.


(** The scenario of the specification: ten nodes, the communities 0..4 and
    5..9, target node 0; the action "add the edge (0, 7)" consumes one unit
    of budget and takes the pair off the ADD set for good, and the graph,
    which did not have the edge, has it afterwards in both directions.  The
    action "remove the edge (0, 1)" on the same fresh world takes the edge
    out of the graph in both directions. *)
Lemma apply_action_priority_and_consumption_witness :
  apply_action 7 Demo.fresh = Returns 1 Demo.after_add
  ∧ ((Some 0, Some 7) ∉ listed (possible_actions (self Demo.after_add)))
  ∧ apply_action 7 Demo.after_add = Returns 0 Demo.after_add
  ∧ Nx.has_edge (graph (self Demo.fresh)) (Some 0) (Some 7) = false
  ∧ Nx.has_edge (graph (self Demo.after_add)) (Some 0) (Some 7) = true
  ∧ Nx.has_edge (graph (self Demo.after_add)) (Some 7) (Some 0) = true
  ∧ apply_action 1 Demo.fresh = Returns 1 Demo.after_remove
  ∧ Nx.has_edge (graph (self Demo.fresh)) (Some 0) (Some 1) = true
  ∧ Nx.has_edge (graph (self Demo.fresh)) (Some 1) (Some 0) = true
  ∧ Nx.has_edge (graph (self Demo.after_remove)) (Some 0) (Some 1) = false
  ∧ Nx.has_edge (graph (self Demo.after_remove)) (Some 1) (Some 0) = false.
Proof.
  assert (Hrun : apply_action 7 Demo.fresh = Returns 1 Demo.after_add)
    by (vm_compute; reflexivity).
  assert (Hone : one_shot (possible_actions (self Demo.fresh)) = true)
    by (vm_compute; reflexivity).
  assert (Hin : (Some 0, Some 7) ∈ ADD (possible_actions (self Demo.fresh)))
    by (vm_compute; reflexivity).
  pose proof (apply_action_priority_and_consumption
                (cb := Demo.collaborators 2) Demo.fresh 7) as Hall.
  cbv zeta in Hall.
  destruct Hall as (_ & _ & _ & _ & _ & _ & Hconsumed & Hgraph).
  destruct (Hconsumed Hone _ Hrun) as (Hgone & _ & Hzero & _).
  destruct (Hgraph _ Hrun) as (a & Ha & _ & Hadded & _).
  destruct (Hadded (or_introl Hin)) as (Hfw & Hrv & _).
  assert (Hcut : apply_action 1 Demo.fresh = Returns 1 Demo.after_remove)
    by (vm_compute; reflexivity).
  assert (Hn1 : (Some 0, Some 1) ∉ ADD (possible_actions (self Demo.fresh)))
    by (vm_compute; discriminate).
  assert (Hn2 : (Some 1, Some 0) ∉ ADD (possible_actions (self Demo.fresh)))
    by (vm_compute; discriminate).
  pose proof (apply_action_priority_and_consumption
                (cb := Demo.collaborators 2) Demo.fresh 1) as Hall.
  cbv zeta in Hall.
  destruct Hall as (_ & _ & _ & _ & _ & _ & _ & Hgraph1).
  destruct (Hgraph1 _ Hcut) as (b & Hb & _ & _ & Hremoved).
  destruct (Hremoved Hn1 Hn2) as (Hb1 & Hb2 & Ha1 & Ha2 & _).
  split; [exact Hrun|]. split; [exact Hgone|]. split; [exact Hzero|].
  split; [vm_compute; reflexivity|].
  split; [exact Hfw|]. split; [exact Hrv|]. split; [exact Hcut|].
  split; [exact Hb1|]. split; [exact Hb2|]. split; [exact Ha1|exact Ha2].
Defined.

(** ** [get_possible_actions] *)

(** Every listed pair starts at the target node [u] and ends elsewhere, so
    the reverse of a new pair is never found. *)
Lemma reverse_unlisted (u : option Z) (v : Z) (pairs : gset action_pair) :
  (∀ p, p ∈ pairs → ∃ x, p = (u, Some x) ∧ u ≠ Some x) →
  u ≠ Some v → (Some v, u) ∉ pairs.
Proof.
  intros Hfrom Hne Hin. destruct (Hfrom _ Hin) as (x & [= Hu _] & _).
  congruence.
Qed.

Lemma possible_actions_round_spec (e : Env) (community : list Z)
    (u : option Z) (v : Z) (actions : PossibleActions) :
  community_target e = Some community →
  (∀ p, p ∈ listed actions → ∃ x, p = (u, Some x) ∧ u ≠ Some x) →
  ∃ actions',
    possible_actions_round e u actions v = inr actions'
    ∧ (∀ p, p ∈ REMOVE actions' ↔
         p ∈ REMOVE actions
         ∨ (p = (u, Some v) ∧ u ≠ Some v
            ∧ contains community u = true
            ∧ contains community (Some v) = true
            ∧ Nx.has_edge (graph e) u (Some v) = true))
    ∧ (∀ p, p ∈ ADD actions' ↔
         p ∈ ADD actions
         ∨ (p = (u, Some v) ∧ u ≠ Some v
            ∧ contains community u ≠ contains community (Some v)
            ∧ Nx.has_edge (graph e) u (Some v) = false)).
Proof.
  intros Hc Hfrom. unfold possible_actions_round. rewrite Hc.
  destruct (decide (u = Some v)) as [Heq|Hne].
  { exists actions. split; [reflexivity|]. split; intros p; tauto. }
  assert (Hrev_r : (Some v, u) ∉ REMOVE actions)
    by (apply reverse_unlisted; [|exact Hne];
        intros p Hp; apply Hfrom; unfold listed; set_solver).
  assert (Hrev_a : (Some v, u) ∉ ADD actions)
    by (apply reverse_unlisted; [|exact Hne];
        intros p Hp; apply Hfrom; unfold listed; set_solver).
  rewrite (decide_True _ _ Hrev_r), (decide_True _ _ Hrev_a).
  destruct (contains community u) eqn:Eu,
           (contains community (Some v)) eqn:Ev,
           (Nx.has_edge (graph e) u (Some v)) eqn:Ee; simpl;
    (eexists; split; [reflexivity|]); simpl;
    split; intros p; rewrite ?elem_of_union, ?elem_of_singleton;
    intuition congruence.
Qed.

Lemma possible_actions_loop_spec (e : Env) (community : list Z)
    (u : option Z) (vs : list Z) (actions : PossibleActions) :
  community_target e = Some community →
  (∀ p, p ∈ listed actions → ∃ x, p = (u, Some x) ∧ u ≠ Some x) →
  ∃ actions',
    possible_actions_loop e u actions vs = inr actions'
    ∧ (∀ p, p ∈ REMOVE actions' ↔
         p ∈ REMOVE actions
         ∨ ∃ v, v ∈ vs ∧ p = (u, Some v) ∧ u ≠ Some v
                ∧ contains community u = true
                ∧ contains community (Some v) = true
                ∧ Nx.has_edge (graph e) u (Some v) = true)
    ∧ (∀ p, p ∈ ADD actions' ↔
         p ∈ ADD actions
         ∨ ∃ v, v ∈ vs ∧ p = (u, Some v) ∧ u ≠ Some v
                ∧ contains community u ≠ contains community (Some v)
                ∧ Nx.has_edge (graph e) u (Some v) = false).
Proof.
  intros Hc. revert actions.
  induction vs as [|v vs IH]; intros actions Hfrom; simpl.
  - exists actions. split; [reflexivity|].
    split; intros p; split; auto; intros [?|(v & Hv & _)]; auto;
      inversion Hv.
  - destruct (possible_actions_round_spec e community u v actions Hc Hfrom)
      as (actions1 & -> & Hrem1 & Hadd1).
    destruct (IH actions1) as (actions' & Hrun & Hrem & Hadd).
    { intros p [Hp|Hp]%elem_of_union.
      - apply Hadd1 in Hp as [Hp|(-> & Hne & _)]; [|eauto].
        apply Hfrom. unfold listed. set_solver.
      - apply Hrem1 in Hp as [Hp|(-> & Hne & _)]; [|eauto].
        apply Hfrom. unfold listed. set_solver. }
    exists actions'. split; [exact Hrun|].
    split; intros p; [rewrite Hrem, Hrem1|rewrite Hadd, Hadd1];
      (split;
       [ intros [[Hp|Hp]|(x & Hx & Hp)];
         [ left; exact Hp
         | right; exists v; split; [apply elem_of_cons; left; reflexivity|exact Hp]
         | right; exists x; split; [apply elem_of_cons; right; exact Hx|exact Hp] ]
       | intros [Hp|(x & [->|Hx]%elem_of_cons & Hp)];
         [ left; left; exact Hp
         | left; right; exact Hp
         | right; exists x; split; assumption ] ]).
Qed.

(** What [get_possible_actions] lists, pair by pair. *)
Lemma get_possible_actions_listing (w : World) (community : list Z) :
  let e := self w in
  let u := node_target e in
  community_target e = Some community →
  ∃ actions,
    get_possible_actions w = Returns actions w
    ∧ (∀ p, p ∈ REMOVE actions ↔
         ∃ v, v ∈ Nx.nodes (graph e) ∧ p = (u, Some v) ∧ u ≠ Some v
              ∧ contains community u = true
              ∧ contains community (Some v) = true
              ∧ Nx.has_edge (graph e) u (Some v) = true)
    ∧ (∀ p, p ∈ ADD actions ↔
         ∃ v, v ∈ Nx.nodes (graph e) ∧ p = (u, Some v) ∧ u ≠ Some v
              ∧ contains community u ≠ contains community (Some v)
              ∧ Nx.has_edge (graph e) u (Some v) = false).
Proof.
  intros e u Hc.
  destruct (possible_actions_loop_spec e community u (Nx.nodes (graph e))
              no_actions Hc) as (actions & Hrun & Hrem & Hadd).
  { intros p Hp. unfold listed, no_actions in Hp. simpl in Hp. set_solver. }
  exists actions. split.
  - unfold get_possible_actions. run. fold e u. rewrite Hrun. reflexivity.
  - split; intros p; [rewrite Hrem|rewrite Hadd]; simpl;
      (split; [intros [Hp|Hp]; [set_solver|exact Hp]|intros Hp; right; exact Hp]).
Qed.

(** Such a listing names no pair twice. *)
Lemma listing_one_shot (u : option Z) (actions : PossibleActions)
    (R A : Z → Prop) :
  (∀ p, p ∈ REMOVE actions ↔ ∃ v, p = (u, Some v) ∧ u ≠ Some v ∧ R v) →
  (∀ p, p ∈ ADD actions ↔ ∃ v, p = (u, Some v) ∧ u ≠ Some v ∧ A v) →
  (∀ v, R v → A v → False) →
  ADD actions ## REMOVE actions
  ∧ (∀ a b, (a, b) ∈ listed actions → (b, a) ∉ listed actions)
  ∧ one_shot actions = true.
Proof.
  intros Hrem Hadd Hexcl.
  assert (Hfrom : ∀ p, p ∈ listed actions → ∃ v, p = (u, Some v) ∧ u ≠ Some v).
  { intros p [Hp|Hp]%elem_of_union.
    - apply Hadd in Hp as (v & ? & ? & _). eauto.
    - apply Hrem in Hp as (v & ? & ? & _). eauto. }
  assert (Hdisj : ADD actions ## REMOVE actions).
  { intros p (v & -> & _ & Hv)%Hadd (v' & [= <-] & _ & Hv')%Hrem. eauto. }
  assert (Hrev : ∀ a b, (a, b) ∈ listed actions → (b, a) ∉ listed actions).
  { intros a b (v & [= -> ->] & Hne)%Hfrom (v' & [= Hu _] & _)%Hfrom.
    congruence. }
  split; [exact Hdisj|]. split; [exact Hrev|].
  apply one_shot_spec. split; [exact Hdisj|].
  intros [a b] Hp _. apply Hrev, Hp.
Qed.

(** C4.  For every graph and every target, [get_possible_actions] returns,
    without touching the world, two disjoint sets that hold no self-pair
    and no pair in both orientations; each listed pair is the target node
    [u] followed by another node [v] of the graph.  For such a [v], the
    pair is in REMOVE iff [u] and [v] are both in the target community and
    the edge exists, and in ADD iff exactly one of them is in the target
    community and the edge does not exist. *)
Theorem get_possible_actions_spec (w : World) (community : list Z) :
  let e := self w in
  let u := node_target e in
  community_target e = Some community →
  ∃ actions,
    get_possible_actions w = Returns actions w
    ∧ ADD actions ## REMOVE actions
    ∧ (∀ a, (a, a) ∉ listed actions)
    ∧ (∀ a b, (a, b) ∈ listed actions → (b, a) ∉ listed actions)
    ∧ one_shot actions = true
    ∧ (∀ p, p ∈ listed actions →
         ∃ v, p = (u, Some v) ∧ v ∈ Nx.nodes (graph e) ∧ u ≠ Some v)
    ∧ (∀ v, v ∈ Nx.nodes (graph e) → u ≠ Some v →
         ((u, Some v) ∈ REMOVE actions ↔
            contains community u = true
            ∧ contains community (Some v) = true
            ∧ Nx.has_edge (graph e) u (Some v) = true)
         ∧ ((u, Some v) ∈ ADD actions ↔
              xorb (contains community u) (contains community (Some v)) = true
              ∧ Nx.has_edge (graph e) u (Some v) = false)).
Proof.
  intros e u Hc.
  destruct (get_possible_actions_listing w community Hc)
    as (actions & Hrun & Hrem & Hadd).
  fold e u in Hrem, Hadd.
  destruct (listing_one_shot u actions
              (λ v, v ∈ Nx.nodes (graph e)
                    ∧ contains community u = true
                    ∧ contains community (Some v) = true
                    ∧ Nx.has_edge (graph e) u (Some v) = true)
              (λ v, v ∈ Nx.nodes (graph e)
                    ∧ contains community u ≠ contains community (Some v)
                    ∧ Nx.has_edge (graph e) u (Some v) = false))
    as (Hdisj & Hrev & Hone).
  { intros p. rewrite Hrem. split; intros (v & H); exists v; tauto. }
  { intros p. rewrite Hadd. split; intros (v & H); exists v; tauto. }
  { intros v (_ & Hu & Hv & _) (_ & Hne & _). congruence. }
  exists actions. split; [exact Hrun|]. split; [exact Hdisj|].
  split; [intros a Ha; exact (Hrev a a Ha Ha)|].
  split; [exact Hrev|]. split; [exact Hone|]. split.
  - intros p [Hp|Hp]%elem_of_union.
    + apply Hadd in Hp as (v & ? & ? & ? & _). eauto.
    + apply Hrem in Hp as (v & ? & ? & ? & _). eauto.
  - intros v Hv Hne. split.
    + rewrite Hrem. split.
      * intros (v' & _ & [= <-] & _ & H). exact H.
      * intros H. exists v. tauto.
    + rewrite Hadd. split.
      * intros (v' & _ & [= <-] & _ & Hx & He). split; [|exact He].
        destruct (contains community u), (contains community (Some v));
          simpl; congruence.
      * intros [Hx He]. exists v. repeat split; try assumption.
        intros Heq. rewrite Heq, xorb_nilpotent in Hx. discriminate.
Qed.

(** On the demo world: target node 0 in the community 0..4. *)
Lemma get_possible_actions_spec_witness :
  ∃ actions,
    get_possible_actions Demo.world = Returns actions Demo.world
    ∧ ADD actions ## REMOVE actions
    ∧ ((Some 0, Some 4) ∈ REMOVE actions)
    ∧ ((Some 0, Some 7) ∈ ADD actions)
    ∧ ((Some 0, Some 3) ∉ listed actions).
Proof.
  destruct (get_possible_actions_spec Demo.world [0; 1; 2; 3; 4] eq_refl)
    as (actions & Hrun & Hdisj & _ & _ & _ & Hfrom & Hiff).
  exists actions. split; [exact Hrun|]. split; [exact Hdisj|].
  assert (Hnode : ∀ v, bool_decide (v ∈ Nx.nodes (graph (self Demo.world))) = true →
                       v ∈ Nx.nodes (graph (self Demo.world)))
    by (intros v; apply bool_decide_eq_true).
  split; [|split].
  - apply (Hiff 4); [apply Hnode; vm_compute; reflexivity|discriminate|].
    vm_compute. auto.
  - apply (Hiff 7); [apply Hnode; vm_compute; reflexivity|discriminate|].
    vm_compute. auto.
  - intros [Hin|Hin]%elem_of_union.
    + apply (Hiff 3) in Hin as [Hx _];
        [vm_compute in Hx; discriminate Hx
        |apply Hnode; vm_compute; reflexivity|discriminate].
    + apply (Hiff 3) in Hin as (_ & _ & He);
        [vm_compute in He; discriminate He
        |apply Hnode; vm_compute; reflexivity|discriminate].
Defined.

(** ** [reset] *)

(** The listing reads the graph, the target node and the target community,
    and nothing else. *)
Lemma possible_actions_loop_ext (e e' : Env) (u : option Z) (vs : list Z)
    (actions : PossibleActions) :
  graph e' = graph e →
  community_target e' = community_target e →
  possible_actions_loop e' u actions vs = possible_actions_loop e u actions vs.
Proof.
  intros Hg Hc. revert actions.
  induction vs as [|v vs IH]; intros actions; simpl; [reflexivity|].
  assert (Hround : possible_actions_round e' u actions v
                   = possible_actions_round e u actions v)
    by (unfold possible_actions_round; rewrite Hg, Hc; reflexivity).
  rewrite Hround.
  destruct (possible_actions_round e u actions v); [reflexivity|apply IH].
Qed.

Lemma get_possible_actions_ext (w w' : World) (actions : PossibleActions) :
  graph (self w') = graph (self w) →
  community_target (self w') = community_target (self w) →
  node_target (self w') = node_target (self w) →
  get_possible_actions w = Returns actions w →
  get_possible_actions w' = Returns actions w'.
Proof.
  unfold get_possible_actions. run. intros Hg Hc Hn.
  rewrite Hn, Hg, (possible_actions_loop_ext (self w) (self w')) by assumption.
  destruct (possible_actions_loop _ _ _ _); run; congruence.
Qed.

Section Reset.

Context {cb : Collaborators}.

#[local] Arguments get_possible_actions : simpl never.

(** C7.  [reset] zeroes the used budget, clears the stop flag and both
    reward fields, forgets the graph snapshot and the stored penalty, makes
    the original community structure the previous-step one, replaces the
    working graph by (a copy of) the original graph when [graph_reset] is
    true, stores the action sets [get_possible_actions] yields for the
    current target on that graph, and returns the working graph.  Hence
    after [reset(True)] and no step the graph is the original graph; and in
    every episode the used budget never decreases, so it is back at 0 only
    through [reset]. *)
Theorem reset_spec (w : World) (graph_reset : bool) (community : list Z) :
  let e := self w in
  let g := if graph_reset then original_graph e else graph e in
  community_target e = Some community →
  ∃ actions w1,
    reset graph_reset w = Returns g w1
    ∧ self w1
      = with_possible_actions actions
          (with_old_community_structure (Some (original_community_structure e))
             (with_old_penalty_value 0%float
                (with_old_graph None
                   (with_graph g
                      (with_old_rewards 0%float
                         (with_rewards 0%float
                            (with_stop_episode false
                               (with_used_edge_budget 0 e))))))))
    ∧ rng w1 = rng w ∧ detector_calls w1 = detector_calls w
    ∧ get_possible_actions w1 = Returns actions w1
    ∧ used_edge_budget (self w1) = 0
    ∧ stop_episode (self w1) = false
    ∧ rewards (self w1) = 0%float
    ∧ old_rewards (self w1) = 0%float
    ∧ old_community_structure (self w1) = Some (original_community_structure e)
    ∧ possible_actions (self w1) = actions
    ∧ graph (self w1) = g
    ∧ (graph_reset = true →
       graph (self w1) = original_graph e
       ∧ episode [] w1 = Returns tt w1)
    ∧ (∀ calls w0 w2, episode calls w0 = Returns tt w2 →
         used_edge_budget (self w0) ≤ used_edge_budget (self w2))
    ∧ (∀ calls w2, episode calls w1 = Returns tt w2 →
         0 ≤ used_edge_budget (self w2)).
Proof.
  intros e g Hc. subst g.
  assert (Hgrow : ∀ calls w0 w2, episode calls w0 = Returns tt w2 →
            used_edge_budget (self w0) ≤ used_edge_budget (self w2))
    by (intros calls w0 w2 Hep; apply (episode_steady calls _ _ _ Hep)).
  destruct graph_reset.
  all: match goal with
       | |- ∃ actions w1, _ ∧ self w1 = with_possible_actions actions ?e1 ∧ _ =>
           set (w' := mkWorld e1 (rng w) (detector_calls w))
       end.
  all: destruct (get_possible_actions_listing w' community Hc)
         as (actions & Hrun & _).
  all: exists actions,
         (mkWorld (with_possible_actions actions (self w')) (rng w)
            (detector_calls w)).
  all: split;
         [ unfold reset; run;
           match goal with
           | |- context [get_possible_actions ?wx] =>
               rewrite (get_possible_actions_ext w' wx actions
                          eq_refl eq_refl eq_refl Hrun)
           end; reflexivity |].
  all: split; [reflexivity|].
  all: split; [reflexivity|]; split; [reflexivity|].
  all: split;
         [apply (get_possible_actions_ext w');
          [simpl; reflexivity|simpl; reflexivity|simpl; reflexivity|exact Hrun]|].
  all: do 7 (split; [simpl; reflexivity|]).
  all: split;
         [intros Hflag; try discriminate Hflag; split; simpl; reflexivity|].
  all: split; [exact Hgrow|].
  all: intros calls w2 Hep; exact (Hgrow calls _ _ Hep).
Qed.

End Reset.

(** [reset(True)] in the middle of an episode on the demo world, after
    [act(7)] added the edge (0, 7) and used one unit of budget. *)
Lemma reset_spec_witness :
  ∃ w1,
    reset true Demo.after_act = Returns Demo.two_rings w1
    ∧ used_edge_budget (self Demo.after_act) = 1
    ∧ Nx.has_edge (graph (self Demo.after_act)) (Some 0) (Some 7) = true
    ∧ graph (self w1) = Demo.two_rings
    ∧ used_edge_budget (self w1) = 0.
Proof.
  assert (Hc : community_target (self Demo.after_act) = Some [0; 1; 2; 3; 4])
    by (vm_compute; reflexivity).
  assert (Ho : original_graph (self Demo.after_act) = Demo.two_rings)
    by (vm_compute; reflexivity).
  pose proof (reset_spec (cb := Demo.collaborators 2) Demo.after_act true
                [0; 1; 2; 3; 4] Hc) as Hreset.
  cbv beta iota zeta in Hreset. rewrite Ho in Hreset.
  destruct Hreset
    as (actions & w1 & Hrun & _ & _ & _ & _ & Hused & _ & _ & _ & _ & _
        & Hgraph & _).
  exists w1. split; [exact Hrun|].
  split; [vm_compute; reflexivity|]. split; [vm_compute; reflexivity|].
  split; [exact Hgraph|exact Hused].
Defined.

(** ** Floats *)

Section Floats.

Import SpecFloat FloatOps FloatAxioms.

Lemma SFcompare_refl (s : bool) (m : positive) (e : Z) :
  SFcompare (S754_finite s m e) (S754_finite s m e) = Some Eq.
Proof.
  simpl. rewrite Z.compare_refl, Pos.compare_cont_refl.
  destruct s; reflexivity.
Qed.

(** [0 - x] and [-x] compare equal (they differ in the sign of a zero at
    most), unless [x] is nan. *)
Lemma zero_minus (x : float) :
  is_nan x = false → (0 - x =? - x)%float = true.
Proof.
  unfold is_nan. rewrite !eqb_spec, sub_spec, opp_spec.
  change (Prim2SF 0%float) with (S754_zero false).
  unfold SFeqb. destruct (Prim2SF x) as [s|s| |s m e]; simpl.
  - destruct s; reflexivity.
  - destruct s; reflexivity.
  - discriminate.
  - intros _. rewrite Z.compare_refl, Pos.compare_cont_refl.
    destruct s; reflexivity.
Qed.

(** A finite factor times zero is a zero. *)
Lemma times_zero (a : float) :
  finite a = true → (a * 0 =? 0)%float = true.
Proof.
  unfold finite. rewrite eqb_spec, mul_spec.
  change (Prim2SF 0%float) with (S754_zero false).
  destruct (Prim2SF a) as [s|s| |s m e]; try discriminate; reflexivity.
Qed.

End Floats.

(** ** Floor, ceiling and truncation *)

Lemma shiftl_floor (v e : Z) :
  if 0 <=? e then Z.shiftl v e = v * 2 ^ e
  else Z.shiftl v e * 2 ^ (- e) ≤ v < (Z.shiftl v e + 1) * 2 ^ (- e).
Proof.
  destruct (0 <=? e) eqn:Ee.
  - apply Z.leb_le in Ee. apply Z.shiftl_mul_pow2, Ee.
  - apply Z.leb_gt in Ee.
    rewrite Z.shiftl_div_pow2 by lia.
    assert (Hd : 0 < 2 ^ (- e)) by (apply Z.pow_pos_nonneg; lia).
    pose proof (Z.mul_div_le v _ Hd).
    pose proof (Z.mul_succ_div_gt v _ Hd). lia.
Qed.


Lemma math_ceil_is_ceiling (x : float) (k : Z) :
  math_ceil x = inr k → is_ceiling x k.
Proof.
  unfold math_ceil, is_ceiling, as_fraction, sf_ceil.
  destruct (FloatOps.Prim2SF x) as [s|s| |s m e]; try discriminate.
  - intros [= <-]. exists 0, 1. split; [reflexivity|lia].
  - intros [= <-].
    pose proof (shiftl_floor (SpecFloat.cond_Zopp (negb s) (Z.pos m)) e) as H.
    assert (Hs : SpecFloat.cond_Zopp (negb s) (Z.pos m)
                 = - SpecFloat.cond_Zopp s (Z.pos m))
      by (destruct s; reflexivity).
    rewrite Hs in *.
    cbv zeta. destruct (0 <=? e); eexists _, _; (split; [reflexivity|]); lia.
Qed.


(** A float has one ceiling. *)
Lemma is_ceiling_unique (x : float) (k k' : Z) :
  is_ceiling x k → is_ceiling x k' → k = k'.
Proof.
  intros (n & d & E & H) (n' & d' & E' & H'). rewrite E in E'.
  injection E' as <- <-. nia.
Qed.

(** ** Penalty and reward *)

Lemma list_remove_elem (n : Z) (l : list Z) :
  n ∈ l → ∃ l', list_remove n l = inr l'.
Proof.
  induction l as [|y l IH]; intros Hin; [inversion Hin|]. simpl.
  destruct (decide (y = n)); [eauto|].
  apply elem_of_cons in Hin as [->|Hin]; [congruence|].
  destruct (IH Hin) as [l' ->]. eauto.
Qed.

Lemma contains_remove (l : list Z) (u : option Z) :
  contains l u = true → ∃ l', remove l u = inr l'.
Proof.
  destruct u as [n|]; [|discriminate]. simpl.
  intros Hin%bool_decide_eq_true. apply list_remove_elem, Hin.
Qed.

Lemma community_of_contains (u : option Z) (cs : list (list Z)) (c : list Z) :
  community_of u cs = Some c → c ∈ cs ∧ contains c u = true.
Proof.
  unfold community_of. intros [Hin Hc]%find_some.
  split; [apply list_elem_of_In, Hin|exact Hc].
Qed.

Section Reward.

Context {cb : Collaborators}.

Lemma get_penalty_run (w : World) (alpha : float)
    (new_structure old_structure : NodeClustering) (snapshot : Nx.Graph) :
  let e := self w in
  alpha_metric e = Some alpha →
  new_community_structure e = Some new_structure →
  old_community_structure e = Some old_structure →
  old_graph e = Some snapshot →
  let penalty :=
    (alpha * (1 - normalized_mutual_information new_structure old_structure)
     + (1 - alpha) * graph_similarity (graph e) snapshot
     - old_penalty_value e)%float in
  get_penalty w
  = Returns penalty
      (mkWorld (with_old_penalty_value penalty e) (rng w) (detector_calls w)).
Proof.
  intros e Ha Hn Ho Hg. unfold get_penalty. run. fold e.
  rewrite Hn, Ho, Hg, Ha. reflexivity.
Qed.

(** C5.  [get_penalty] returns alpha * (1 - NMI(current, previous
    structure)) + (1 - alpha) * graph-similarity(working graph, snapshot)
    minus the stored penalty value, and stores what it returned: the next
    call subtracts it.  When the two partitions score NMI = 1 the community
    distance is 0, and so is its weighted share for every finite alpha. *)
Theorem get_penalty_spec (w : World) (alpha : float)
    (new_structure old_structure : NodeClustering) (snapshot : Nx.Graph) :
  let e := self w in
  alpha_metric e = Some alpha →
  new_community_structure e = Some new_structure →
  old_community_structure e = Some old_structure →
  old_graph e = Some snapshot →
  let nmi := normalized_mutual_information new_structure old_structure in
  let community_distance := (1 - nmi)%float in
  let graph_distance := graph_similarity (graph e) snapshot in
  let weighted :=
    (alpha * community_distance + (1 - alpha) * graph_distance)%float in
  let penalty := (weighted - old_penalty_value e)%float in
  let w1 :=
    mkWorld (with_old_penalty_value penalty e) (rng w) (detector_calls w) in
  get_penalty w = Returns penalty w1
  ∧ old_penalty_value (self w1) = penalty
  ∧ get_penalty w1
    = Returns (weighted - penalty)%float
        (mkWorld (with_old_penalty_value (weighted - penalty)%float e)
           (rng w) (detector_calls w))
  ∧ (nmi = 1%float →
     community_distance = 0%float
     ∧ penalty
       = (alpha * 0 + (1 - alpha) * graph_distance - old_penalty_value e)%float
     ∧ (finite alpha = true → (alpha * community_distance =? 0)%float = true)).
Proof.
  intros e Ha Hn Ho Hg nmi community_distance graph_distance weighted penalty w1.
  split; [exact (get_penalty_run w alpha _ _ _ Ha Hn Ho Hg)|].
  split; [reflexivity|]. split.
  - rewrite (get_penalty_run w1 alpha new_structure old_structure snapshot);
      try assumption.
    destruct w as [[] ? ?]; reflexivity.
  - intros Hnmi.
    assert (Hzero : community_distance = 0%float)
      by (subst community_distance; rewrite Hnmi; reflexivity).
    split; [exact Hzero|]. split.
    + subst penalty weighted. rewrite Hzero. reflexivity.
    + rewrite Hzero. apply times_zero.
Qed.

End Reward.

(** On the demo world, after a step that left the partition as it was. *)
Lemma get_penalty_spec_witness :
  ∃ penalty w1,
    get_penalty (cb := Demo.collaborators 2) Demo.settled = Returns penalty w1
    ∧ old_penalty_value (self w1) = penalty
    ∧ penalty = (0.7 * 0 + (1 - 0.7) * 0.25 - 0)%float.
Proof.
  assert (Ha : alpha_metric (self Demo.settled) = Some 0.7%float)
    by (vm_compute; reflexivity).
  assert (Hn : new_community_structure (self Demo.settled)
               = Some Demo.two_rings_clustering)
    by (vm_compute; reflexivity).
  assert (Ho : old_community_structure (self Demo.settled)
               = Some Demo.two_rings_clustering)
    by (vm_compute; reflexivity).
  assert (Hg : old_graph (self Demo.settled) = Some Demo.two_rings)
    by (vm_compute; reflexivity).
  pose proof (get_penalty_spec (cb := Demo.collaborators 2) Demo.settled
                _ _ _ _ Ha Hn Ho Hg) as Hspec.
  cbv zeta in Hspec. destruct Hspec as (Hrun & Hstored & _ & Hsame).
  destruct (Hsame eq_refl) as (_ & Hpenalty & _).
  eexists _, _. split; [exact Hrun|]. split; [exact Hstored|].
  rewrite Hpenalty. vm_compute. reflexivity.
Defined.

(** What [list.remove] returns: the list without the first occurrence. *)
Lemma list_remove_split (n : Z) (l l' : list Z) :
  list_remove n l = inr l' →
  ∃ before after,
    l = before ++ n :: after ∧ (n ∉ before) ∧ l' = before ++ after.
Proof.
  revert l'. induction l as [|y l IH]; intros l'; simpl; [discriminate|].
  destruct (decide (y = n)) as [->|Hne].
  - intros [= <-]. exists [], l. split; [reflexivity|].
    split; [apply not_elem_of_nil|reflexivity].
  - destruct (list_remove n l) as [err|r] eqn:Er; [discriminate|].
    intros [= <-]. destruct (IH r eq_refl) as (before & after & -> & Hb & ->).
    exists (y :: before), after. split; [reflexivity|].
    split; [|reflexivity]. apply not_elem_of_cons. split; [congruence|exact Hb].
Qed.

Lemma remove_without_first (l l' : list Z) (u : option Z) :
  remove l u = inr l' → without_first u l l'.
Proof.
  destruct u as [n|]; [|discriminate]. simpl. intros Hrem.
  destruct (list_remove_split _ _ _ Hrem) as (before & after & Hl & Hb & Hl').
  exists n, before, after. auto.
Qed.

(** In a list without repetitions, as the communities of a partition are,
    the node is gone and every other member is still there. *)
Lemma without_first_NoDup (l l' : list Z) (u : option Z) :
  without_first u l l' → NoDup l →
  ∀ x, x ∈ l' ↔ x ∈ l ∧ Some x ≠ u.
Proof.
  intros (n & before & after & -> & -> & Hb & ->) Hnd x.
  apply NoDup_app in Hnd as (_ & _ & Hnd).
  apply NoDup_cons in Hnd as [Ha _].
  rewrite !elem_of_app, elem_of_cons.
  split.
  - intros [Hx|Hx]; (split; [tauto|]); intros [= ->]; tauto.
  - intros [[Hx|[->|Hx]] Hne]; tauto.
Qed.

Lemma without_first_length (l l' : list Z) (u : option Z) :
  without_first u l l' → length l = S (length l').
Proof.
  intros (n & before & after & _ & -> & _ & ->).
  rewrite !length_app. simpl. lia.
Qed.

Section GetReward.

Context {cb : Collaborators}.

#[local] Arguments get_penalty : simpl never.

(** C3.  [get_reward] looks up the community of the current-step structure
    that holds the target node and fails its assertion when there is none.
    Otherwise, with [penalty] what [get_penalty] returns: if that community
    has size 1 the result is (1 - lambda * penalty, True); else, with [s]
    the similarity of that community and of the target community, each
    without the target node, the result is (1 - lambda * penalty, True)
    when [s <= tau] and (0 - lambda * penalty, False) when not, a reward
    that compares equal to -(lambda * penalty).  Hence a call that returns
    done = True found a community of size 1 or a similarity of at most
    tau.  The two lists given to the similarity are the two communities
    with the first occurrence of the target node taken out and nothing
    else changed: one element shorter, and, for a community without
    repetitions, with exactly the other members. *)
Theorem get_reward_spec (w : World) (lambda alpha : float)
    (new_structure old_structure : NodeClustering) (snapshot : Nx.Graph)
    (target_community : list Z) :
  let e := self w in
  let u := node_target e in
  lambda_metric e = Some lambda →
  alpha_metric e = Some alpha →
  new_community_structure e = Some new_structure →
  old_community_structure e = Some old_structure →
  old_graph e = Some snapshot →
  community_target e = Some target_community →
  target_invariant e = true →
  let penalty :=
    (alpha * (1 - normalized_mutual_information new_structure old_structure)
     + (1 - alpha) * graph_similarity (graph e) snapshot
     - old_penalty_value e)%float in
  let w1 :=
    mkWorld (with_old_penalty_value penalty e) (rng w) (detector_calls w) in
  let minus_target (l l' : list Z) : Prop :=
    without_first u l l'
    ∧ length l = S (length l')
    ∧ (NoDup l → ∀ x, x ∈ l' ↔ x ∈ l ∧ Some x ≠ u) in
  match community_of u (communities new_structure) with
  | None => get_reward w = Raises AssertionError
  | Some c =>
      c ∈ communities new_structure
      ∧ contains c u = true
      ∧ if bool_decide (length c = 1%nat) then
          get_reward w = Returns ((1 - lambda * penalty)%float, true) w1
        else
          ∃ c' t',
            remove c u = inr c'
            ∧ remove target_community u = inr t'
            ∧ minus_target c c'
            ∧ minus_target target_community t'
            ∧ if (community_similarity c' t' <=? tau e)%float then
                get_reward w = Returns ((1 - lambda * penalty)%float, true) w1
              else
                get_reward w = Returns ((0 - lambda * penalty)%float, false) w1
                ∧ (is_nan (lambda * penalty) = false →
                   (0 - lambda * penalty =? - (lambda * penalty))%float = true)
  end
  ∧ (∀ reward w2, get_reward w = Returns (reward, true) w2 →
       ∃ c, community_of u (communities new_structure) = Some c
            ∧ (length c = 1%nat
               ∨ ∃ c' t', remove c u = inr c'
                          ∧ remove target_community u = inr t'
                          ∧ minus_target c c'
                          ∧ minus_target target_community t'
                          ∧ (community_similarity c' t' <=? tau e)%float = true)).
Proof.
  intros e u Hl Ha Hn Ho Hg Hc Hinv penalty w1 minus_target.
  pose proof (get_penalty_run w alpha _ _ _ Ha Hn Ho Hg) as Hpen.
  fold e penalty w1 in Hpen.
  assert (Hminus : ∀ l l', remove l u = inr l' → minus_target l l').
  { intros l l' Hrem. pose proof (remove_without_first _ _ _ Hrem) as Hwf.
    split; [exact Hwf|]. split.
    - apply (without_first_length _ _ _ Hwf).
    - apply (without_first_NoDup _ _ _ Hwf). }
  assert (Hmain :
    match community_of u (communities new_structure) with
    | None => get_reward w = Raises AssertionError
    | Some c =>
        c ∈ communities new_structure
        ∧ contains c u = true
        ∧ if bool_decide (length c = 1%nat) then
            get_reward w = Returns ((1 - lambda * penalty)%float, true) w1
          else
            ∃ c' t',
              remove c u = inr c'
              ∧ remove target_community u = inr t'
              ∧ minus_target c c'
              ∧ minus_target target_community t'
              ∧ if (community_similarity c' t' <=? tau e)%float then
                  get_reward w = Returns ((1 - lambda * penalty)%float, true) w1
                else
                  get_reward w = Returns ((0 - lambda * penalty)%float, false) w1
                  ∧ (is_nan (lambda * penalty) = false →
                     (0 - lambda * penalty =? - (lambda * penalty))%float = true)
    end).
  { clearbody minus_target.
    unfold get_reward. run. fold e u. rewrite Hl, Hn. simpl.
    destruct (community_of u (communities new_structure)) as [c|] eqn:Ec;
      simpl; [|reflexivity].
    destruct (community_of_contains _ _ _ Ec) as [Hin Hu].
    split; [exact Hin|]. split; [exact Hu|].
    rewrite Hpen. simpl.
    destruct (bool_decide (length c = 1%nat)); [reflexivity|].
    destruct (contains_remove _ _ Hu) as [c' Hc'].
    assert (Ht : contains target_community u = true).
    { unfold target_invariant in Hinv. fold u in Hinv. rewrite Hc in Hinv.
      destruct u as [n|]; [exact Hinv|discriminate]. }
    destruct (contains_remove _ _ Ht) as [t' Ht'].
    exists c', t'. split; [exact Hc'|]. split; [exact Ht'|].
    split; [exact (Hminus _ _ Hc')|]. split; [exact (Hminus _ _ Ht')|].
    rewrite Hc', Hc. simpl. rewrite Ht'. simpl.
    destruct (community_similarity c' t' <=? tau e)%float; [reflexivity|].
    split; [reflexivity|apply zero_minus]. }
  split; [exact Hmain|].
  intros reward w2 Hrun.
  destruct (community_of u (communities new_structure)) as [c|];
    [|rewrite Hmain in Hrun; discriminate].
  exists c. split; [reflexivity|].
  destruct Hmain as (_ & _ & Hmain).
  destruct (bool_decide (length c = 1%nat)) eqn:Elen.
  - left. apply bool_decide_eq_true in Elen. exact Elen.
  - right. destruct Hmain as (c' & t' & Hc' & Ht' & Hmc & Hmt & Hmain).
    exists c', t'. split; [exact Hc'|]. split; [exact Ht'|].
    split; [exact Hmc|]. split; [exact Hmt|].
    destruct (community_similarity c' t' <=? tau e)%float; [reflexivity|].
    destruct Hmain as [Hmain _]. rewrite Hmain in Hrun. discriminate.
Qed.

End GetReward.

(** On the demo world after the detector has put the target node 0 in a
    community of its own: the episode is done; and after a step that left
    the partition alone: it is not, and the similarity was taken of
    [1; 2; 3; 4] on both sides, the community 0..4 without the target
    node 0. *)
Lemma get_reward_spec_witness :
  (∃ reward w1,
     get_reward (cb := Demo.collaborators 2) Demo.cut_off
     = Returns (reward, true) w1)
  ∧ (∃ reward w1 c' t',
       get_reward (cb := Demo.collaborators 2) Demo.settled
       = Returns (reward, false) w1
       ∧ remove [0; 1; 2; 3; 4] (Some 0) = inr c'
       ∧ remove [0; 1; 2; 3; 4] (Some 0) = inr t'
       ∧ c' = [1; 2; 3; 4] ∧ t' = [1; 2; 3; 4]
       ∧ (0 ∉ c') ∧ (0 ∉ t')
       ∧ ∀ x, x ∈ c' ↔ x ∈ [0; 1; 2; 3; 4] ∧ Some x ≠ Some 0).
Proof.
  split.
  - assert (Hl : lambda_metric (self Demo.cut_off) = Some 0.1%float)
      by (vm_compute; reflexivity).
    assert (Ha : alpha_metric (self Demo.cut_off) = Some 0.7%float)
      by (vm_compute; reflexivity).
    assert (Hn : new_community_structure (self Demo.cut_off)
                 = Some (mkClustering [[1; 2; 3; 4]; [5; 6; 7; 8; 9]; [0]]))
      by (vm_compute; reflexivity).
    assert (Ho : old_community_structure (self Demo.cut_off)
                 = Some Demo.two_rings_clustering)
      by (vm_compute; reflexivity).
    assert (Hg : old_graph (self Demo.cut_off) = Some Demo.two_rings)
      by (vm_compute; reflexivity).
    assert (Hc : community_target (self Demo.cut_off) = Some [0; 1; 2; 3; 4])
      by (vm_compute; reflexivity).
    assert (Hi : target_invariant (self Demo.cut_off) = true)
      by (vm_compute; reflexivity).
    assert (Hu : node_target (self Demo.cut_off) = Some 0)
      by (vm_compute; reflexivity).
    pose proof (get_reward_spec (cb := Demo.collaborators 2) Demo.cut_off
                  _ _ _ _ _ _ Hl Ha Hn Ho Hg Hc Hi) as Hspec.
    cbv zeta in Hspec. rewrite Hu in Hspec.
    destruct Hspec as [(_ & _ & Hrun) _].
    eexists _, _. exact Hrun.
  - assert (Hl : lambda_metric (self Demo.settled) = Some 0.1%float)
      by (vm_compute; reflexivity).
    assert (Ha : alpha_metric (self Demo.settled) = Some 0.7%float)
      by (vm_compute; reflexivity).
    assert (Hn : new_community_structure (self Demo.settled)
                 = Some Demo.two_rings_clustering)
      by (vm_compute; reflexivity).
    assert (Ho : old_community_structure (self Demo.settled)
                 = Some Demo.two_rings_clustering)
      by (vm_compute; reflexivity).
    assert (Hg : old_graph (self Demo.settled) = Some Demo.two_rings)
      by (vm_compute; reflexivity).
    assert (Hc : community_target (self Demo.settled) = Some [0; 1; 2; 3; 4])
      by (vm_compute; reflexivity).
    assert (Hi : target_invariant (self Demo.settled) = true)
      by (vm_compute; reflexivity).
    assert (Hu : node_target (self Demo.settled) = Some 0)
      by (vm_compute; reflexivity).
    assert (Ht : tau (self Demo.settled) = 0.5%float)
      by (vm_compute; reflexivity).
    pose proof (get_reward_spec (cb := Demo.collaborators 2) Demo.settled
                  _ _ _ _ _ _ Hl Ha Hn Ho Hg Hc Hi) as Hspec.
    cbv zeta in Hspec. rewrite Hu, Ht in Hspec.
    destruct Hspec
      as [(_ & _ & c' & t' & Hc' & Ht' & (_ & _ & Hmc) & (_ & _ & Hmt) & Hrun) _].
    injection Hc' as <-. injection Ht' as <-.
    destruct Hrun as [Hrun _].
    assert (Hnd : NoDup [0; 1; 2; 3; 4])
      by (repeat (apply NoDup_cons_2;
                  [rewrite ?elem_of_cons, elem_of_nil; lia|]);
          apply NoDup_nil_2).
    pose proof (Hmc Hnd) as Hc0. pose proof (Hmt Hnd) as Ht0.
    eexists _, _, [1; 2; 3; 4], [1; 2; 3; 4].
    split; [exact Hrun|]. split; [reflexivity|]. split; [reflexivity|].
    split; [reflexivity|]. split; [reflexivity|].
    split; [|split; [|exact Hc0]].
    + intros H0. apply (proj1 (Hc0 0)) in H0. destruct H0 as [_ H0].
      congruence.
    + intros H0. apply (proj1 (Ht0 0)) in H0. destruct H0 as [_ H0].
      congruence.
Defined.

(** ** The edge budget *)

Section Signs.

Import SpecFloat FloatOps FloatAxioms.

Lemma binary_round_aux_sign (s : bool) (m e : Z) (l : location) :
  match binary_round_aux prec emax s m e l with
  | S754_finite s' _ _ => s' = s
  | _ => True
  end.
Proof.
  unfold binary_round_aux.
  destruct (shr_fexp prec emax m e l) as [mrs e'].
  destruct (shr_fexp prec emax _ e' loc_Exact) as [mrs' e''].
  destruct (shr_m mrs'); try exact I.
  destruct (e'' <=? emax - prec); [reflexivity|exact I].
Qed.

Lemma binary_round_aux_not_negative (m e : Z) (l : location) :
  not_negative (binary_round_aux prec emax false m e l) = true.
Proof.
  pose proof (binary_round_aux_sign false m e l) as Hs.
  destruct (binary_round_aux prec emax false m e l); try reflexivity.
  rewrite Hs. reflexivity.
Qed.

Lemma binary_normalize_not_negative (m e : Z) :
  0 ≤ m → not_negative (binary_normalize prec emax m e false) = true.
Proof.
  intros Hm. destruct m as [|p|p]; [reflexivity| |lia]. simpl.
  unfold binary_round. destruct (shl_align _ _ _).
  apply binary_round_aux_not_negative.
Qed.

Lemma mul_not_negative (x y : float) :
  not_negative (Prim2SF x) = true → not_negative (Prim2SF y) = true →
  not_negative (Prim2SF (x * y)) = true.
Proof.
  rewrite mul_spec. unfold SF64mul, SFmul.
  destruct (Prim2SF x) as [sx|sx| |sx mx ex],
           (Prim2SF y) as [sy|sy| |sy my ey]; try reflexivity.
  destruct sx, sy; try discriminate. intros _ _.
  apply binary_round_aux_not_negative.
Qed.

Lemma div_not_negative (x y : float) :
  not_negative (Prim2SF x) = true → not_negative (Prim2SF y) = true →
  not_negative (Prim2SF (x / y)) = true.
Proof.
  rewrite div_spec. unfold SF64div, SFdiv.
  destruct (Prim2SF x) as [sx|sx| |sx mx ex],
           (Prim2SF y) as [sy|sy| |sy my ey]; try reflexivity.
  destruct sx, sy; try discriminate. intros _ _.
  destruct (SFdiv_core_binary _ _ _ _ _ _) as [[mz ez] lz].
  apply binary_round_aux_not_negative.
Qed.

Lemma add_not_negative (x y : float) :
  not_negative (Prim2SF x) = true → not_negative (Prim2SF y) = true →
  not_negative (Prim2SF (x + y)) = true.
Proof.
  rewrite add_spec. unfold SF64add, SFadd.
  destruct (Prim2SF x) as [sx|sx| |sx mx ex],
           (Prim2SF y) as [sy|sy| |sy my ey];
    try reflexivity; try (destruct sx, sy; reflexivity);
    try (intros; assumption).
  destruct sx, sy; try discriminate. intros _ _.
  apply binary_normalize_not_negative. simpl. lia.
Qed.

Lemma float_of_int_not_negative (n : Z) :
  0 ≤ n → not_negative (Prim2SF (float_of_int n)) = true.
Proof.
  intros Hn. destruct n as [|p|p]; [reflexivity| |lia].
  unfold float_of_int. rewrite of_uint63_spec.
  apply binary_normalize_not_negative.
  apply Uint63.to_Z_bounded.
Qed.

Lemma nonnegative_not_negative (x : float) :
  nonnegative x = true → not_negative (Prim2SF x) = true.
Proof.
  unfold nonnegative. rewrite leb_spec.
  change (Prim2SF 0%float) with (S754_zero false).
  destruct (Prim2SF x) as [s|s| |s m e]; try reflexivity.
  destruct s; [discriminate|reflexivity].
Qed.


End Signs.

Lemma number_of_edges_nonneg (g : Nx.Graph) : 0 ≤ Nx.number_of_edges g.
Proof.
  unfold Nx.number_of_edges. apply Z.div_pos; [|lia].
  apply (map_fold_weak_ind (λ r _, 0 ≤ r)); [lia|].
  intros n nbrs m r _ Hr. unfold Nx.degree. case_decide; lia.
Qed.




(** ** The fixed-size policy *)

(** [min(l, key=k)] and [first_closest] run the same scan: it ends on the
    first element whose key is least. *)
Lemma first_min_spec {A} (k : A → Z) (x0 : A) (l : list A) :
  let best := foldl (λ b y, if k y <? k b then y else b) x0 l in
  ∃ i, (x0 :: l) !! i = Some best
       ∧ (∀ j y, (x0 :: l) !! j = Some y → k best ≤ k y)
       ∧ (∀ j y, (j < i)%nat → (x0 :: l) !! j = Some y → k best < k y).
Proof.
  induction l as [|x l IH] using rev_ind; simpl.
  - exists 0%nat. split; [reflexivity|]. split.
    + intros [|j] y Hy; simpl in Hy; [injection Hy as <-; lia|].
      rewrite lookup_nil in Hy. discriminate.
    + intros j y Hj. lia.
  - rewrite foldl_app. simpl.
    destruct IH as (i & Hi & Hmin & Hfirst).
    set (best := foldl (λ b y, if k y <? k b then y else b) x0 l) in *.
    assert (Hlen : ∀ j y, (x0 :: l ++ [x]) !! j = Some y →
              (x0 :: l) !! j = Some y ∨ (j = S (length l) ∧ y = x)).
    { intros j y Hy. change (x0 :: l ++ [x]) with ((x0 :: l) ++ [x]) in Hy.
      apply lookup_app_Some in Hy as [Hy|[Hj Hy]]; [left; exact Hy|right].
      simpl in Hj, Hy.
      destruct (j - S (length l))%nat as [|n] eqn:En; simpl in Hy;
        [injection Hy as <-; split; [lia|reflexivity]|].
      rewrite lookup_nil in Hy. discriminate. }
    destruct (k x <? k best) eqn:Elt.
    + apply Z.ltb_lt in Elt. exists (S (length l)). split.
      { change (x0 :: l ++ [x]) with ((x0 :: l) ++ [x]).
        rewrite lookup_app_r by (simpl; lia).
        replace (S (length l) - length (x0 :: l))%nat with 0%nat
          by (simpl; lia).
        reflexivity. }
      split.
      * intros j y [Hy|[_ ->]]%Hlen; [|lia].
        specialize (Hmin j y Hy). lia.
      * intros j y Hj [Hy|[-> _]]%Hlen; [|lia].
        specialize (Hmin j y Hy). lia.
    + apply Z.ltb_ge in Elt. exists i. split.
      { change (x0 :: l ++ [x]) with ((x0 :: l) ++ [x]).
        apply lookup_app_l_Some. exact Hi. }
      split.
      * intros j y [Hy|[_ ->]]%Hlen; [exact (Hmin j y Hy)|exact Elt].
      * intros j y Hj [Hy|[-> _]]%Hlen; [exact (Hfirst j y Hj Hy)|].
        apply lookup_lt_Some in Hi. simpl in Hi. lia.
Qed.

Lemma index_spec (x : Z) (l : list Z) :
  x ∈ l →
  ∃ i, index x l = inr i ∧ l !! i = Some x
       ∧ ∀ j, (j < i)%nat → l !! j ≠ Some x.
Proof.
  induction l as [|y l IH]; intros Hin; [inversion Hin|]. simpl.
  destruct (decide (y = x)) as [->|Hne].
  - exists 0%nat. split; [reflexivity|]. split; [reflexivity|]. intros j Hj. lia.
  - apply elem_of_cons in Hin as [->|Hin]; [congruence|].
    destruct (IH Hin) as (i & -> & Hi & Hfirst).
    exists (S i). split; [reflexivity|]. split; [exact Hi|].
    intros [|j] Hj; simpl; [congruence|]. apply Hfirst. lia.
Qed.

Lemma max_list_spec (l : list Z) (m : Z) :
  max_list l = inr m → m ∈ l ∧ ∀ x, x ∈ l → x ≤ m.
Proof.
  destruct l as [|x0 l]; [discriminate|]. simpl. intros [= <-].
  revert x0. induction l as [|y l IH]; intros x0; simpl.
  - split; [apply list_elem_of_here|].
    intros x ->%list_elem_of_singleton. lia.
  - destruct (IH (x0 `max` y)) as [Hin Hmax]. split.
    + apply elem_of_cons in Hin as [Heq|Hin].
      * rewrite Heq. destruct (Z.max_spec x0 y) as [[_ ->]|[_ ->]];
          [right; left|left].
      * right. right. exact Hin.
    + intros x [->|[->|Hx]%elem_of_cons]%elem_of_cons.
      * specialize (Hmax (x0 `max` y) (list_elem_of_here _ _)). lia.
      * specialize (Hmax (x0 `max` y) (list_elem_of_here _ _)). lia.
      * apply Hmax. right. exact Hx.
Qed.

(** The scan of [first_closest] ends on the community [c] at the first
    position whose distance to [p] is least. *)
Lemma first_closest_spec (p : Z) (cs : list (list Z)) (c : list Z) :
  first_closest p cs = Some c ↔
  ∃ i, cs !! i = Some c
       ∧ (∀ j c', cs !! j = Some c' → distance_to p c ≤ distance_to p c')
       ∧ (∀ j c', (j < i)%nat → cs !! j = Some c' →
            distance_to p c < distance_to p c').
Proof.
  destruct cs as [|c0 cs].
  { split; [discriminate|]. intros (i & Hi & _). rewrite lookup_nil in Hi.
    discriminate. }
  unfold first_closest.
  destruct (first_min_spec (distance_to p) c0 cs) as (i & Hi & Hmin & Hfirst).
  set (best := foldl _ c0 cs) in *.
  split.
  - intros [= <-]. exists i. auto.
  - intros (i' & Hi' & Hmin' & Hfirst'). f_equal.
    destruct (Nat.lt_trichotomy i i') as [Hlt|[Heq|Hgt]].
    + specialize (Hfirst' i best Hlt Hi). specialize (Hmin i' c Hi'). lia.
    + subst i'. congruence.
    + specialize (Hfirst i' c Hgt Hi'). specialize (Hmin' i best Hi). lia.
Qed.

(** C9, as the code has it.  With [p] the preferred size, [fixed_community]
    sets the target community to a community whose size is nearest to [p];
    among several equally near it takes the first one in the order in
    which the original community structure lists them.  That is the first
    one in the size-sorted order whenever the structure lists its
    communities sorted by size.  The preferred size is the ceiling of the
    binary64 product (largest community size * preferred fraction): the
    one integer that is not below the number that float holds and is less
    than one above it. *)
Theorem fixed_community_first_in_stored_order (w : World) (p : Z) :
  let e := self w in
  let cs := communities (original_community_structure e) in
  preferred_size e (len <$> cs) = inr p →
  (∃ largest,
      max_list (len <$> cs) = inr largest
      ∧ (∀ c, c ∈ cs → len c ≤ largest)
      ∧ math_ceil (float_of_int largest * preferred_community_size e)%float
        = inr p
      ∧ (∃ c, c ∈ cs ∧ len c = largest)
      ∧ is_ceiling
          (float_of_int largest * preferred_community_size e)%float p
      ∧ ∀ p', is_ceiling
                (float_of_int largest * preferred_community_size e)%float p'
              → p' = p)
  ∧ ∃ c i,
      fixed_community w
      = Returns tt (mkWorld (with_community_target (Some c) e)
                      (rng w) (detector_calls w))
      ∧ cs !! i = Some c
      ∧ (∀ c', c' ∈ cs → distance_to p c ≤ distance_to p c')
      ∧ (∀ j c', (j < i)%nat → cs !! j = Some c' →
           distance_to p c < distance_to p c')
      ∧ first_closest p cs = Some c
      ∧ (sorted_by_len cs = cs → spec_fixed_choice p cs = Some c).
Proof.
  intros e cs Hp. split.
  - unfold preferred_size in Hp.
    destruct (max_list (len <$> cs)) as [err|largest] eqn:Emax; [discriminate|].
    exists largest. split; [reflexivity|].
    destruct (max_list_spec _ _ Emax) as [Hin Hmax].
    split; [|split; [exact Hp|]].
    { intros c Hc. apply Hmax.
      apply list_elem_of_fmap. exists c. split; [reflexivity|exact Hc]. }
    split.
    { apply list_elem_of_fmap in Hin as (c & Hlen & Hc). eauto. }
    pose proof (math_ceil_is_ceiling _ _ Hp) as Hceil.
    split; [exact Hceil|].
    intros p' Hp'. exact (is_ceiling_unique _ _ _ Hp' Hceil).
  - assert (Hne : cs ≠ []).
    { intros Hnil. unfold preferred_size in Hp. rewrite Hnil in Hp.
      discriminate. }
    destruct (len <$> cs) as [|n0 lens] eqn:Elens;
      [destruct cs; [congruence|discriminate]|].
    set (key := λ x : Z, Z.abs (x - p)).
    destruct (first_min_spec key n0 lens) as (i0 & Hi0 & Hmin & Hfirst).
    set (closest := foldl (λ b y, if key y <? key b then y else b) n0 lens) in *.
    assert (Hin : closest ∈ n0 :: lens)
      by (apply list_elem_of_lookup; eauto).
    destruct (index_spec closest (n0 :: lens) Hin) as (i & Hidx & Hi & Hbefore).
    assert (Hle : (i ≤ i0)%nat).
    { destruct (Nat.le_gt_cases i i0) as [?|Hgt]; [assumption|].
      destruct (Hbefore i0 Hgt Hi0). }
    rewrite <- Elens in Hi, Hmin, Hfirst.
    rewrite list_lookup_fmap in Hi.
    destruct (cs !! i) as [c|] eqn:Ec; [|discriminate].
    injection Hi as Hlen.
    assert (Hdist : ∀ c', distance_to p c' = key (len c')) by reflexivity.
    assert (Hall : ∀ j c', cs !! j = Some c' → distance_to p c ≤ distance_to p c').
    { intros j c' Hj. rewrite !Hdist, Hlen. apply (Hmin j).
      rewrite list_lookup_fmap, Hj. reflexivity. }
    assert (Hstrict : ∀ j c', (j < i)%nat → cs !! j = Some c' →
              distance_to p c < distance_to p c').
    { intros j c' Hj Hc'. rewrite !Hdist, Hlen. apply (Hfirst j); [lia|].
      rewrite list_lookup_fmap, Hc'. reflexivity. }
    assert (Hchoice : first_closest p cs = Some c)
      by (apply first_closest_spec; exists i; auto).
    exists c, i.
    split; [|split; [exact Ec|split; [|split; [exact Hstrict|split; [exact Hchoice|]]]]].
    + unfold fixed_community. run. fold e cs. rewrite Elens, Hp.
      unfold mret, M_ret. cbv beta iota.
      change (min_by (λ x : Z, Z.abs (x - p)) (n0 :: lens))
        with (@inr exn Z closest).
      cbv beta iota. cbn [index]. rewrite Hidx. cbv beta iota. rewrite Ec.
      reflexivity.
    + intros c' [j Hj]%list_elem_of_lookup. exact (Hall j c' Hj).
    + intros Hsorted. unfold spec_fixed_choice. rewrite Hsorted. exact Hchoice.
Qed.

(** Sizes 5 and 3, preferred fraction 0.8: the preferred size is 4 and both
    communities are at distance 1.  The code takes the one listed first.
    Sizes 7, 5 and 6, the same fraction: the product is
    5.6000000000000005, its ceiling 6 and its floor 5, and the code takes
    the community of size 6. *)
Lemma fixed_community_first_in_stored_order_witness :
  (∃ c i,
     fixed_community (Demo.world_of Demo.five_three)
     = Returns tt (mkWorld (with_community_target (Some c)
                              (self (Demo.world_of Demo.five_three))) [] [])
     ∧ communities Demo.five_three !! i = Some c
     ∧ first_closest 4 (communities Demo.five_three) = Some c
     ∧ c = [0; 1; 2; 3; 4])
  ∧ (is_ceiling (float_of_int 7 * 0.8)%float 6
     ∧ math_floor (float_of_int 7 * 0.8)%float = inr 5
     ∧ ∃ c,
         fixed_community (Demo.world_of Runs.seven_five_six)
         = Returns tt
             (mkWorld (with_community_target (Some c)
                         (self (Demo.world_of Runs.seven_five_six))) [] [])
         ∧ c = [12; 13; 14; 15; 16; 17]).
Proof.
  split.
  - assert (Hp : preferred_size (self (Demo.world_of Demo.five_three))
                   (len <$> communities Demo.five_three) = inr 4)
      by (vm_compute; reflexivity).
    destruct (fixed_community_first_in_stored_order
                (Demo.world_of Demo.five_three) 4 Hp)
      as (_ & c & i & Hrun & Hi & _ & _ & Hfirst & _).
    exists c, i. split; [exact Hrun|]. split; [exact Hi|].
    split; [exact Hfirst|].
    assert (Hc : first_closest 4 (communities Demo.five_three)
                 = Some [0; 1; 2; 3; 4])
      by (vm_compute; reflexivity).
    cbv zeta in Hfirst.
    change (communities (original_community_structure
                           (self (Demo.world_of Demo.five_three))))
      with (communities Demo.five_three) in Hfirst.
    rewrite Hc in Hfirst. injection Hfirst as <-. reflexivity.
  - assert (Hp : preferred_size (self (Demo.world_of Runs.seven_five_six))
                   (len <$> communities Runs.seven_five_six) = inr 6)
      by (vm_compute; reflexivity).
    destruct (fixed_community_first_in_stored_order
                (Demo.world_of Runs.seven_five_six) 6 Hp)
      as ((largest & Hmax & _ & _ & _ & Hceil & _)
          & c & i & Hrun & _ & _ & _ & Hfirst & _).
    assert (Hl : max_list
                   (len <$> communities
                              (original_community_structure
                                 (self (Demo.world_of Runs.seven_five_six))))
                 = inr 7)
      by (vm_compute; reflexivity).
    cbv zeta in Hmax. rewrite Hl in Hmax. injection Hmax as <-.
    split; [exact Hceil|]. split; [vm_compute; reflexivity|].
    exists c. split; [exact Hrun|].
    assert (Hc : first_closest 6 (communities Runs.seven_five_six)
                 = Some [12; 13; 14; 15; 16; 17])
      by (vm_compute; reflexivity).
    cbv zeta in Hfirst.
    change (communities (original_community_structure
                           (self (Demo.world_of Runs.seven_five_six))))
      with (communities Runs.seven_five_six) in Hfirst.
    rewrite Hc in Hfirst. injection Hfirst as <-. reflexivity.
Defined.

(** C9 as the specification words it fails.  On the sizes 5 and 3 the code
    picks the community of size 5, and the first nearest community in the
    size-sorted order is the one of size 3; on the sizes 3 and 5 the code
    picks the community of size 3, and the first nearest one with the
    sizes sorted from the largest down is the one of size 5.  Nor is the
    preferred size the ceiling of the product in exact arithmetic: on the
    sizes 25, 7 and 8 with the fraction 0.28 the code computes 8 and picks
    the community of size 8, where ceil(0.28 * 25) is 7; on the sizes 10,
    1 and 2 with the fraction 0.1 it computes 1 and picks the community of
    size 1, where the number the float 0.1 holds, times 10, is above 1. *)
Lemma fixed_community_not_size_sorted :
  (preferred_size (self (Demo.world_of Demo.five_three))
     (len <$> communities Demo.five_three) = inr 4
   ∧ fixed_community (Demo.world_of Demo.five_three)
     = Returns tt
         (mkWorld (with_community_target (Some [0; 1; 2; 3; 4])
                     (self (Demo.world_of Demo.five_three))) [] [])
   ∧ spec_fixed_choice 4 (communities Demo.five_three) = Some [5; 6; 7])
  ∧ (preferred_size (self (Demo.world_of Demo.three_five))
       (len <$> communities Demo.three_five) = inr 4
     ∧ fixed_community (Demo.world_of Demo.three_five)
       = Returns tt
           (mkWorld (with_community_target (Some [5; 6; 7])
                       (self (Demo.world_of Demo.three_five))) [] [])
     ∧ spec_fixed_choice_reverse 4 (communities Demo.three_five)
       = Some [0; 1; 2; 3; 4])
  ∧ (preferred_community_size (self Runs.quarter) = 0.28%float
     ∧ len <$> communities (original_community_structure (self Runs.quarter))
       = [25; 7; 8]
     ∧ preferred_size (self Runs.quarter) [25; 7; 8] = inr 8
     ∧ spec_preferred_size 28 100 25 = 7
     ∧ fixed_community Runs.quarter
       = Returns tt
           (mkWorld (with_community_target (Some (seqZ 32 8))
                       (self Runs.quarter)) [] [])
     ∧ spec_fixed_choice 7
         (communities (original_community_structure (self Runs.quarter)))
       = Some (seqZ 25 7))
  ∧ (preferred_community_size (self Runs.tenth) = 0.1%float
     ∧ len <$> communities (original_community_structure (self Runs.tenth))
       = [10; 1; 2]
     ∧ preferred_size (self Runs.tenth) [10; 1; 2] = inr 1
     ∧ (∃ n d, as_fraction 0.1%float = Some (n, d)
               ∧ spec_preferred_size n d 10 = 2)
     ∧ fixed_community Runs.tenth
       = Returns tt
           (mkWorld (with_community_target (Some (seqZ 10 1))
                       (self Runs.tenth)) [] [])).
Proof.
  repeat split; try (vm_compute; reflexivity).
  eexists _, _. split; vm_compute; reflexivity.
Qed.

(** ** The target invariant *)

Lemma random_choice_elem {A} (seq : list A) (w w1 : World) (x : A) :
  random_choice seq w = Returns x w1 →
  x ∈ seq ∧ self w1 = self w ∧ detector_calls w1 = detector_calls w.
Proof.
  unfold random_choice. destruct seq as [|y seq]; [discriminate|].
  destruct (rng w) as [|d tape]; [discriminate|].
  destruct ((y :: seq) !! (d `mod` length (y :: seq))%nat) as [z|] eqn:Ez;
    [|discriminate].
  intros [= <- <-]. split; [|split; reflexivity].
  apply list_elem_of_lookup. eauto.
Qed.

(** The loop of [change_target_node] leaves only through a draw from the
    target community. *)
Lemma change_target_node_loop_invariant (fuel : nat) (old_node : option Z)
    (w w1 : World) :
  change_target_node_loop fuel old_node w = Returns tt w1 →
  node_target (self w) = old_node ∨ target_invariant (self w) = true →
  target_invariant (self w1) = true
  ∧ community_target (self w1) = community_target (self w).
Proof.
  revert w. induction fuel as [|fuel IH]; intros w; simpl; run.
  - destruct (decide (node_target (self w) = old_node)) as [Heq|Hne];
      [discriminate|].
    intros [= <-] [Hold|Hinv]; [contradiction|]. split; [exact Hinv|reflexivity].
  - destruct (decide (node_target (self w) = old_node)) as [Heq|Hne].
    + destruct (community_target (self w)) as [community|] eqn:Ec;
        [|discriminate].
      unfold mret, M_ret. cbv beta iota.
      destruct (random_choice community w) as [node w'| |] eqn:Edraw;
        try discriminate.
      destruct (random_choice_elem _ _ _ _ Edraw) as (Hin & Hself & _).
      intros Hloop _. apply IH in Hloop as [Hinv Hc].
      * split; [exact Hinv|]. rewrite Hc. simpl. rewrite Hself. exact Ec.
      * right. unfold target_invariant. simpl. rewrite Hself, Ec.
        apply bool_decide_eq_true. exact Hin.
    + intros [= <-] [Hold|Hinv]; [contradiction|].
      split; [exact Hinv|reflexivity].
Qed.

Lemma change_target_node_invariant (node : option Z) (w w1 : World) :
  change_target_node node w = Returns tt w1 →
  community_target (self w1) = community_target (self w)
  ∧ match node with
    | None => target_invariant (self w1) = true
    | Some n =>
        node_target (self w1) = Some n
        ∧ (target_invariant (self w1) = true ↔
           ∃ community, community_target (self w1) = Some community
                        ∧ n ∈ community)
    end.
Proof.
  destruct node as [n|].
  - unfold change_target_node; run. intros [= <-]. simpl. split; [reflexivity|]. split; [reflexivity|].
    unfold target_invariant. simpl.
    destruct (community_target (self w)) as [community|].
    + rewrite bool_decide_eq_true. split; [eauto|].
      intros (c & [= <-] & Hin). exact Hin.
    + split; [discriminate|]. intros (c & Hc & _). discriminate.
  - change (change_target_node None w)
      with (change_target_node_loop (S (length (rng w)))
              (node_target (self w)) w).
    intros Hloop.
    apply change_target_node_loop_invariant in Hloop as [Hinv Hc];
      [split; assumption|left; reflexivity].
Qed.

Lemma bind_returns {A B} (m : M A) (f : A → M B) (w w1 : World) (b : B) :
  (m ≫= f) w = Returns b w1 →
  ∃ a w', m w = Returns a w' ∧ f a w' = Returns b w1.
Proof.
  unfold mbind, M_bind. destruct (m w) as [a w'| |]; try discriminate. eauto.
Qed.

Section Targets.

Context {cb : Collaborators}.

(** C8, as the code has it.  A call of [change_target_node] or
    [change_target_community] that leaves the node to be drawn returns
    with the target node in the target community, whatever community was
    given or selected.  An explicit node is installed as it is: the
    invariant then holds exactly when that node belongs to the community
    the call leaves as target.  A draw that selects a node other than the
    previous target ends [change_target_node] after one round. *)
Theorem target_invariant_after_change (w w1 : World)
    (community : option (list Z)) (node : option Z) :
  (change_target_node node w = Returns tt w1 →
   match node with
   | None => target_invariant (self w1) = true
   | Some n =>
       node_target (self w1) = Some n
       ∧ community_target (self w1) = community_target (self w)
       ∧ (target_invariant (self w1) = true ↔
          ∃ c, community_target (self w1) = Some c ∧ n ∈ c)
   end)
  ∧ (change_target_community community node w = Returns tt w1 →
     match node with
     | None => target_invariant (self w1) = true
     | Some n =>
         node_target (self w1) = Some n
         ∧ (target_invariant (self w1) = true ↔
            ∃ c, community_target (self w1) = Some c ∧ n ∈ c)
     end)
  ∧ (∀ c d tape n,
       community_target (self w) = Some c →
       rng w = d :: tape →
       c !! (d `mod` length c)%nat = Some n →
       node_target (self w) ≠ Some n →
       change_target_node None w
       = Returns tt (mkWorld (with_node_target (Some n) (self w)) tape
                       (detector_calls w))).
Proof.
  split; [|split].
  - intros Hrun. apply change_target_node_invariant in Hrun as [Hc Hn].
    destruct node as [n|]; [|exact Hn].
    destruct Hn as [Hn Hiff]. auto.
  - unfold change_target_community.
    intros (a & w' & _ & Hrun)%bind_returns.
    apply change_target_node_invariant in Hrun as [_ Hn].
    exact Hn.
  - intros c d tape n Hc Hrng Hn Hne.
    unfold change_target_node. run. rewrite Hrng. simpl. run.
    rewrite decide_True by reflexivity. rewrite Hc. run.
    unfold random_choice. rewrite Hrng.
    destruct c as [|x c]; [rewrite lookup_nil in Hn; discriminate|].
    rewrite Hn.
    destruct tape; simpl; run; rewrite decide_False by congruence;
      reflexivity.
Qed.

End Targets.

(** On the demo world, under the fixed-size policy: the community 0..4 is
    selected and the first draw picks node 3. *)
Lemma target_invariant_after_change_witness :
  change_target_community (cb := Demo.collaborators 2) None None Demo.world
  = Returns tt Demo.retargeted
  ∧ node_target (self Demo.retargeted) = Some 3
  ∧ target_invariant (self Demo.retargeted) = true.
Proof.
  assert (Hrun : change_target_community (cb := Demo.collaborators 2)
                   None None Demo.world = Returns tt Demo.retargeted)
    by (vm_compute; reflexivity).
  split; [exact Hrun|]. split; [vm_compute; reflexivity|].
  exact (proj1 (proj2 (target_invariant_after_change
                         (cb := Demo.collaborators 2)
                         Demo.world Demo.retargeted None None)) Hrun).
Defined.

(** C8 as the specification words it fails: an explicit node outside the
    target community is installed all the same, by either method. *)
Lemma explicit_node_breaks_target_invariant :
  target_invariant (self Demo.world) = true
  ∧ (∃ w1, change_target_node (Some 7) Demo.world = Returns tt w1
           ∧ community_target (self w1) = Some [0; 1; 2; 3; 4]
           ∧ node_target (self w1) = Some 7
           ∧ target_invariant (self w1) = false)
  ∧ (∃ w1, change_target_community (cb := Demo.collaborators 2)
             (Some [5; 6; 7; 8; 9]) (Some 0) Demo.world = Returns tt w1
           ∧ community_target (self w1) = Some [5; 6; 7; 8; 9]
           ∧ node_target (self w1) = Some 0
           ∧ target_invariant (self w1) = false).
Proof.
  split; [vm_compute; reflexivity|].
  split; eexists; (split; [vm_compute; reflexivity|]);
    repeat split; vm_compute; reflexivity.
Qed.

(** * More of the code *)

(** ** What [get_reward] and [step] leave behind *)

Section StepShape.

Context {cb : Collaborators}.

(** [get_reward] changes the stored penalty and nothing else. *)
Lemma get_reward_inv (w w1 : World) (r : float) (d : bool) :
  get_reward w = Returns (r, d) w1 →
  ∃ p, w1 = mkWorld (with_old_penalty_value p (self w)) (rng w)
              (detector_calls w).
Proof.
  unfold get_reward, get_penalty. run.
  intros Hrun.
  repeat (case_match; simplify_eq; run);
    simplify_eq; eexists; reflexivity.
Qed.

(** [act] is [apply_action] followed by the budget bookkeeping. *)
Lemma act_run (w : World) (action : Z) :
  act action w
  = match apply_action action w with
    | Returns n w1 =>
        let e1 := self w1 in
        let used := used_edge_budget e1 + n in
        let stop := stop_episode e1 || (edge_budget e1 - used <? 1) in
        Returns (graph e1, stop)
          (mkWorld (with_stop_episode stop (with_used_edge_budget used e1))
             (rng w1) (detector_calls w1))
    | Raises err => Raises err
    | Starved => Starved
    end.
Proof.
  unfold act. run.
  destruct (apply_action action w) as [n w1| |] eqn:Eapply; try reflexivity.
  apply apply_action_budget in Eapply as [-> | ->]; simpl;
    destruct (edge_budget (self w1) - _ <? 1), (stop_episode (self w1)) eqn:Es;
    simpl; try reflexivity;
    unfold with_stop_episode, with_used_edge_budget; simpl;
    rewrite <- ?Es; reflexivity.
Qed.

(** The two ways [step] returns: the wasted turn, and the turn that
    consumed one unit of budget, called the detector on the new graph and
    computed a reward. *)
Lemma step_inv (w w2 : World) (action : Z) (g : Nx.Graph) (r : float)
    (s d : bool) :
  step action w = Returns (g, r, s, d) w2 →
  ∃ n w1,
    apply_action action
      (mkWorld (with_old_graph (Some (graph (self w))) (self w)) (rng w)
         (detector_calls w))
    = Returns n w1
    ∧ ((n = 0 ∧ g = graph (self w1) ∧ r = (-1)%float
        ∧ s = stop_episode (self w1) ∧ d = false
        ∧ w2 = mkWorld (with_rewards (-1)%float (self w1)) (rng w1)
                 (detector_calls w1))
       ∨ (n = 1 ∧ ∃ p,
            let e1 := self w1 in
            let structure := detect (graph e1) in
            let used := used_edge_budget e1 + 1 in
            get_reward
              (mkWorld (with_new_community_structure (Some structure) e1)
                 (rng w1) (graph e1 :: detector_calls w1))
            = Returns (r, d)
                (mkWorld
                   (with_old_penalty_value p
                      (with_new_community_structure (Some structure) e1))
                   (rng w1) (graph e1 :: detector_calls w1))
            ∧ g = graph e1
            ∧ s = stop_episode e1 || d || (edge_budget e1 - used <? 1)
            ∧ w2 = mkWorld
                     (with_old_community_structure (Some structure)
                        (with_stop_episode s
                           (with_used_edge_budget used
                              (with_rewards r
                                 (with_old_penalty_value p
                                    (with_new_community_structure
                                       (Some structure) e1))))))
                     (rng w1) (graph e1 :: detector_calls w1))).
Proof.
  unfold step. intros Hrun. do 3 run.
  destruct (apply_action action _) as [n w1| |] eqn:Happly; try discriminate.
  exists n, w1. split; [reflexivity|].
  destruct (apply_action_budget _ _ _ _ Happly) as [-> | ->]; simpl in Hrun.
  - left. simplify_eq. repeat split; reflexivity.
  - right. split; [reflexivity|].
    destruct (get_reward _) as [[reward done] w3| |] eqn:Ereward;
      try discriminate.
    destruct (get_reward_inv _ _ _ _ Ereward) as [p ->].
    exists p.
    assert (Hshape :
      r = reward ∧ d = done ∧ g = graph (self w1)
      ∧ s = stop_episode (self w1) || done
            || (edge_budget (self w1) - (used_edge_budget (self w1) + 1) <? 1)
      ∧ w2 = mkWorld
               (with_old_community_structure
                  (Some (detect (graph (self w1))))
                  (with_stop_episode
                     (stop_episode (self w1) || done
                      || (edge_budget (self w1)
                          - (used_edge_budget (self w1) + 1) <? 1))
                     (with_used_edge_budget (used_edge_budget (self w1) + 1)
                        (with_rewards reward
                           (with_old_penalty_value p
                              (with_new_community_structure
                                 (Some (detect (graph (self w1))))
                                 (self w1)))))))
               (rng w1) (graph (self w1) :: detector_calls w1)).
    { clear Ereward Happly. destruct w1 as [[] tape calls]. simpl in *.
      destruct done, (_ <? 1), stop_episode0; simpl in Hrun; do 2 run;
        simplify_eq; repeat split; reflexivity. }
    destruct Hshape as (-> & -> & -> & -> & ->).
    split; [reflexivity|]. repeat split; reflexivity.
Qed.

End StepShape.

(** ** The budget and the actions left *)

Lemma size_remove_elem (X : gset action_pair) (p : action_pair) :
  p ∈ X → Z.of_nat (size (X ∖ {[ p ]})) + 1 = Z.of_nat (size X).
Proof.
  intros Hin.
  assert (Hsub : ({[ p ]} : gset action_pair) ⊆ X)
    by (apply singleton_subseteq_l; exact Hin).
  pose proof (subseteq_size _ _ Hsub) as Hle.
  rewrite size_difference by exact Hsub.
  rewrite size_singleton in *. lia.
Qed.

(** [apply_action] touches the graph and the action sets alone, and takes
    as many pairs off the sets as it reports. *)
Lemma apply_action_frame (w w1 : World) (action n : Z) :
  apply_action action w = Returns n w1 →
  (∃ g actions,
     w1 = mkWorld (with_possible_actions actions (with_graph g (self w)))
            (rng w) (detector_calls w))
  ∧ actions_left (self w1) + n = actions_left (self w).
Proof.
  intros Hrun.
  apply apply_action_inv in Hrun
    as [(-> & -> & _)|(-> & p & g & actions' & _ & Hp & ->)].
  - split; [|lia]. exists (graph (self w)), (possible_actions (self w)).
    destruct w as [[] ? ?]. reflexivity.
  - split; [eauto|]. unfold actions_left. simpl.
    destruct Hp as [[Hin ->]|[Hin ->]]; simpl;
      rewrite <- (size_remove_elem _ _ Hin).
    + apply Z.add_shuffle0.
    + symmetry. apply Z.add_assoc.
Qed.

Section Budget.

Context {cb : Collaborators}.

Lemma act_balance (w w1 : World) (action : Z) (r : Nx.Graph * bool) :
  act action w = Returns r w1 →
  used_edge_budget (self w1) + actions_left (self w1)
  = used_edge_budget (self w) + actions_left (self w).
Proof.
  rewrite act_run.
  destruct (apply_action action w) as [n w0| |] eqn:Happly; try discriminate.
  intros [= _ <-].
  destruct (apply_action_frame _ _ _ _ Happly) as [(g & actions & ->) Hleft].
  unfold actions_left in *. simpl in *. lia.
Qed.

Lemma step_balance (w w1 : World) (action : Z)
    (r : Nx.Graph * float * bool * bool) :
  step action w = Returns r w1 →
  used_edge_budget (self w1) + actions_left (self w1)
  = used_edge_budget (self w) + actions_left (self w).
Proof.
  destruct r as [[[g r] s] d].
  intros (n & w0 & Happly & Hcase)%step_inv.
  destruct (apply_action_frame _ _ _ _ Happly) as [(g0 & actions & Hw0) Hleft].
  destruct Hcase as [(-> & _ & _ & _ & _ & ->)|(-> & p & _ & _ & _ & ->)];
    rewrite Hw0 in *; unfold actions_left in *; simpl in *; lia.
Qed.

(** The balance over a whole episode. *)
Lemma episode_balance (calls : list call) (w w1 : World) :
  forallb counts_budget calls = true →
  episode calls w = Returns tt w1 →
  used_edge_budget (self w1) + actions_left (self w1)
  = used_edge_budget (self w) + actions_left (self w).
Proof.
  intros Hcalls. revert w. induction calls as [|c calls IH]; intros w; simpl.
  - intros [= <-]. reflexivity.
  - apply andb_true_iff in Hcalls as [Hc Hcalls].
    intros ([] & w0 & Hcall & Hrest)%bind_returns.
    rewrite (IH Hcalls _ Hrest).
    destruct c as [action|action|action]; [| |discriminate]; simpl in Hcall;
      apply bind_returns in Hcall as (r & w0' & Hcall & [= <-]).
    + exact (step_balance _ _ _ _ Hcall).
    + exact (act_balance _ _ _ _ Hcall).
Qed.

(** X1.  Over any sequence of [step] and [act] calls that returns, the used
    budget plus the number of actions still listed stays what it was: each
    unit of budget is paid for with one listed pair.  So an episode never
    uses more budget than there were actions listed at its start. *)
Theorem budget_is_paid_in_actions (calls : list call) (w w1 : World) :
  forallb counts_budget calls = true →
  episode calls w = Returns tt w1 →
  used_edge_budget (self w1) + actions_left (self w1)
  = used_edge_budget (self w) + actions_left (self w)
  ∧ 0 ≤ used_edge_budget (self w1) - used_edge_budget (self w)
      ≤ actions_left (self w).
Proof.
  intros Hcalls Hrun.
  pose proof (episode_balance calls w w1 Hcalls Hrun) as Hbalance.
  split; [exact Hbalance|].
  pose proof (episode_steady calls _ _ _ Hrun) as (_ & _ & _ & Hgrow).
  assert (0 ≤ actions_left (self w1)) by (unfold actions_left; lia).
  lia.
Qed.

End Budget.

(** Four calls on the fresh demo world, two of them wasted: two units of
    budget used, two of the eight actions gone. *)
Lemma budget_is_paid_in_actions_witness :
  used_edge_budget (self Runs.after_calls) = 2
  ∧ actions_left (self Demo.fresh) = 8
  ∧ actions_left (self Runs.after_calls) = 6.
Proof.
  assert (Hrun : episode (cb := Demo.collaborators 2) Runs.calls Demo.fresh
                 = Returns tt Runs.after_calls)
    by (vm_compute; reflexivity).
  pose proof (budget_is_paid_in_actions (cb := Demo.collaborators 2)
                Runs.calls Demo.fresh Runs.after_calls eq_refl Hrun)
    as [Hbalance _].
  assert (Hused : used_edge_budget (self Runs.after_calls) = 2)
    by (vm_compute; reflexivity).
  assert (Hleft : actions_left (self Demo.fresh) = 8)
    by (vm_compute; reflexivity).
  assert (Hzero : used_edge_budget (self Demo.fresh) = 0)
    by (vm_compute; reflexivity).
  split; [exact Hused|]. split; [exact Hleft|].
  rewrite Hused, Hleft, Hzero in Hbalance. lia.
Defined.

(** ** What one [step] leaves behind *)

Section StepFacts.

Context {cb : Collaborators}.

(** X2.  The stop flag [step] returns is the stored one.  It is set exactly
    when it was set before the call, or the step reached the goal, or the
    step used budget and less than one unit is left: no call of [step]
    clears it, and a wasted turn does not set it even on an exhausted
    budget.  The graph and the reward returned are the stored ones too, and
    the budget itself is not touched. *)
Theorem step_stop_flag (w w2 : World) (action : Z) (g : Nx.Graph) (r : float)
    (s d : bool) :
  step action w = Returns (g, r, s, d) w2 →
  g = graph (self w2) ∧ r = rewards (self w2) ∧ s = stop_episode (self w2)
  ∧ edge_budget (self w2) = edge_budget (self w)
  ∧ s = stop_episode (self w) || d
        || ((used_edge_budget (self w) <? used_edge_budget (self w2))
            && (edge_budget (self w) - used_edge_budget (self w2) <? 1)).
Proof.
  intros (n & w0 & Happly & Hcase)%step_inv.
  destruct (apply_action_frame _ _ _ _ Happly) as [(g0 & actions & Hw0) _].
  destruct Hcase as [(-> & -> & -> & -> & -> & ->)
                    |(-> & p & _ & -> & -> & ->)];
    rewrite Hw0; simpl.
  - do 4 (split; [reflexivity|]).
    rewrite Z.ltb_irrefl. simpl. rewrite !orb_false_r. reflexivity.
  - do 4 (split; [reflexivity|]).
    replace (used_edge_budget (self w) <? used_edge_budget (self w) + 1)
      with true by (symmetry; apply Z.ltb_lt; lia).
    reflexivity.
Qed.

(** X3.  A [step] draws nothing and snapshots the graph it found.  If it
    used no budget, the detector was not called and the graph is as it
    was.  If it used budget, that is one unit, the detector was called
    once, on the graph the step returns, and what it found is stored both
    as the current and as the previous-step structure: the next penalty
    compares the next structure with this one. *)
Theorem step_detects_once (w w2 : World) (action : Z) (g : Nx.Graph)
    (r : float) (s d : bool) :
  step action w = Returns (g, r, s, d) w2 →
  rng w2 = rng w
  ∧ old_graph (self w2) = Some (graph (self w))
  ∧ ((used_edge_budget (self w2) = used_edge_budget (self w)
      ∧ detector_calls w2 = detector_calls w
      ∧ g = graph (self w) ∧ r = (-1)%float ∧ d = false)
     ∨ (used_edge_budget (self w2) = used_edge_budget (self w) + 1
        ∧ detector_calls w2 = g :: detector_calls w
        ∧ new_community_structure (self w2) = Some (detect g)
        ∧ old_community_structure (self w2) = Some (detect g))).
Proof.
  intros (n & w0 & Happly & Hcase)%step_inv.
  pose proof Happly as Hframe.
  apply apply_action_frame in Hframe as [(g0 & actions & Hw0) _].
  destruct Hcase as [(-> & -> & -> & -> & -> & ->)
                    |(-> & p & _ & -> & -> & ->)].
  - apply apply_action_inv in Happly as [(_ & -> & _)|(? & _)]; [|lia].
    simpl. split; [reflexivity|]. split; [reflexivity|]. left.
    repeat split; reflexivity.
  - rewrite Hw0. simpl. split; [reflexivity|]. split; [reflexivity|]. right.
    repeat split; reflexivity.
Qed.

End StepFacts.

(** [step(9)] on the fresh demo world adds an edge: budget used, flag still
    down with eleven units left. *)
Lemma step_stop_flag_witness :
  ∃ g r, step (cb := Demo.collaborators 2) 9 Demo.fresh
         = Returns (g, r, false, false) Runs.after_step_9
         ∧ stop_episode (self Runs.after_step_9) = false
         ∧ edge_budget (self Runs.after_step_9) = 12.
Proof.
  assert (Hrun : step (cb := Demo.collaborators 2) 9 Demo.fresh
                 = Returns (graph (self Runs.after_step_9),
                            rewards (self Runs.after_step_9), false, false)
                     Runs.after_step_9)
    by (vm_compute; reflexivity).
  pose proof (step_stop_flag (cb := Demo.collaborators 2) Demo.fresh
                Runs.after_step_9 9 _ _ _ _ Hrun)
    as (_ & _ & Hstop & Hbudget & _).
  exists (graph (self Runs.after_step_9)), (rewards (self Runs.after_step_9)).
  split; [exact Hrun|]. split; [symmetry; exact Hstop|].
  rewrite Hbudget. vm_compute. reflexivity.
Defined.

Lemma step_detects_once_witness :
  detector_calls Runs.after_step_9 = [graph (self Runs.after_step_9)]
  ∧ used_edge_budget (self Runs.after_step_9) = 1.
Proof.
  assert (Hrun : step (cb := Demo.collaborators 2) 9 Demo.fresh
                 = Returns (graph (self Runs.after_step_9),
                            rewards (self Runs.after_step_9), false, false)
                     Runs.after_step_9)
    by (vm_compute; reflexivity).
  pose proof (step_detects_once (cb := Demo.collaborators 2) Demo.fresh
                Runs.after_step_9 9 _ _ _ _ Hrun) as (_ & _ & [(Hused & _)|(Hused & Hcalls & _)]).
  - exfalso. revert Hused. vm_compute. discriminate.
  - split; [rewrite Hcalls|rewrite Hused]; vm_compute; reflexivity.
Defined.

(** ** What an episode leaves alone *)

Section EpisodeFrame.

Context {cb : Collaborators}.

(** What one call does to the setup, the tape, the stop flag and the list
    of detector calls. *)
Lemma run_call_frame (c : call) (w w1 : World) :
  run_call c w = Returns tt w1 →
  same_setup (self w) (self w1)
  ∧ rng w1 = rng w
  ∧ (stop_episode (self w) = true → stop_episode (self w1) = true)
  ∧ ∃ gs, detector_calls w1 = gs ++ detector_calls w
          ∧ Z.of_nat (length gs)
            ≤ used_edge_budget (self w1) - used_edge_budget (self w)
          ∧ (detects c = true →
             Z.of_nat (length gs)
             = used_edge_budget (self w1) - used_edge_budget (self w)).
Proof.
  destruct c as [action|action|action]; simpl;
    intros (r & w0 & Hcall & [= <-])%bind_returns.
  - destruct r as [[[g r] s] d].
    apply step_inv in Hcall as (n & w' & Happly & Hcase).
    destruct (apply_action_frame _ _ _ _ Happly) as [(g0 & actions & Hw') _].
    destruct Hcase as [(-> & _ & _ & _ & _ & ->)|(-> & p & _ & _ & -> & ->)];
      rewrite Hw'; simpl.
    + split; [repeat split|]. split; [reflexivity|]. split; [tauto|].
      exists []. simpl. split; [reflexivity|]. lia.
    + split; [repeat split|]. split; [reflexivity|].
      split; [intros ->; reflexivity|].
      exists [g0]. simpl. split; [reflexivity|]. lia.
  - rewrite act_run in Hcall.
    destruct (apply_action action w) as [n w'| |] eqn:Happly;
      try discriminate.
    injection Hcall as _ <-.
    destruct (apply_action_steady_budget _ _ _ _ Happly) as [_ Hn].
    destruct (apply_action_frame _ _ _ _ Happly) as [(g0 & actions & ->) _].
    simpl.
    split; [repeat split|]. split; [reflexivity|].
    split; [intros ->; reflexivity|].
    exists []. simpl. split; [reflexivity|]. split; [lia|discriminate].
  - destruct (apply_action_frame _ _ _ _ Hcall) as [(g0 & actions & ->) _].
    simpl.
    split; [repeat split|]. split; [reflexivity|]. split; [tauto|].
    exists []. simpl. split; [reflexivity|]. lia.
Qed.

(** The setup and the tape over a whole episode. *)
Lemma episode_frame (calls : list call) (w w1 : World) :
  episode calls w = Returns tt w1 →
  same_setup (self w) (self w1) ∧ rng w1 = rng w.
Proof.
  revert w. induction calls as [|c calls IH]; intros w; simpl.
  - intros [= <-]. split; [repeat split|reflexivity].
  - intros ([] & w0 & Hcall & Hrest)%bind_returns.
    apply run_call_frame in Hcall as (Hsame & Hrng & _).
    apply IH in Hrest as (Hsame' & Hrng').
    split; [|congruence].
    unfold same_setup in *. intuition congruence.
Qed.

(** X4.  No sequence of [step], [act] and [apply_action] calls writes the
    setup of the environment: its name, the original graph and community
    structure, the hyperparameters, the target node and community, the
    edge budget.  It draws no random number, and once the stop flag is
    set no call clears it: only [reset] does. *)
Theorem episode_keeps_setup (calls : list call) (w w1 : World) :
  episode calls w = Returns tt w1 →
  same_setup (self w) (self w1)
  ∧ rng w1 = rng w
  ∧ (stop_episode (self w) = true → stop_episode (self w1) = true).
Proof.
  intros Hrun.
  destruct (episode_frame calls w w1 Hrun) as [Hsame Hrng].
  split; [exact Hsame|]. split; [exact Hrng|].
  clear Hsame Hrng. revert w Hrun.
  induction calls as [|c calls IH]; intros w; simpl.
  - intros [= <-]. tauto.
  - intros ([] & w0 & Hcall & Hrest)%bind_returns Hstop.
    apply run_call_frame in Hcall as (_ & _ & Hkeep & _).
    apply (IH w0 Hrest), Hkeep, Hstop.
Qed.

(** X5.  Over any sequence of calls the detector runs at most once per unit
    of budget used, and exactly once per unit when no call is [act]: the
    graphs it was run on are added in front of the earlier ones, which
    stay. *)
Theorem episode_detections (calls : list call) (w w1 : World) :
  episode calls w = Returns tt w1 →
  ∃ gs, detector_calls w1 = gs ++ detector_calls w
        ∧ Z.of_nat (length gs)
          ≤ used_edge_budget (self w1) - used_edge_budget (self w)
        ∧ (forallb detects calls = true →
           Z.of_nat (length gs)
           = used_edge_budget (self w1) - used_edge_budget (self w)).
Proof.
  revert w. induction calls as [|c calls IH]; intros w; simpl.
  - intros [= <-]. exists []. simpl. split; [reflexivity|]. lia.
  - intros ([] & w0 & Hcall & Hrest)%bind_returns.
    apply run_call_frame in Hcall as (_ & _ & _ & gs & Hgs & Hle & Heq).
    apply IH in Hrest as (gs' & Hgs' & Hle' & Heq').
    exists (gs' ++ gs). rewrite Hgs', Hgs, app_assoc, length_app.
    split; [reflexivity|]. split; [lia|].
    intros [Hc Hcalls]%andb_true_iff.
    specialize (Heq Hc). specialize (Heq' Hcalls). lia.
Qed.

End EpisodeFrame.

(** The four calls on the fresh demo world leave the budget at 12 and the
    target at node 0; of the two units of budget they used, [step] used
    one, and ran the detector for it. *)
Lemma episode_keeps_setup_witness :
  edge_budget (self Runs.after_calls) = 12
  ∧ node_target (self Runs.after_calls) = Some 0.
Proof.
  assert (Hrun : episode (cb := Demo.collaborators 2) Runs.calls Demo.fresh
                 = Returns tt Runs.after_calls)
    by (vm_compute; reflexivity).
  pose proof (episode_keeps_setup (cb := Demo.collaborators 2)
                Runs.calls Demo.fresh Runs.after_calls Hrun)
    as ((_ & _ & _ & _ & _ & _ & _ & _ & _ & Hnode & Hbudget & _) & _).
  rewrite Hnode, Hbudget. split; vm_compute; reflexivity.
Defined.

Lemma episode_detections_witness :
  ∃ gs, detector_calls Runs.after_calls = gs ++ detector_calls Demo.fresh
        ∧ Z.of_nat (length gs) ≤ 2.
Proof.
  assert (Hrun : episode (cb := Demo.collaborators 2) Runs.calls Demo.fresh
                 = Returns tt Runs.after_calls)
    by (vm_compute; reflexivity).
  pose proof (episode_detections (cb := Demo.collaborators 2)
                Runs.calls Demo.fresh Runs.after_calls Hrun)
    as (gs & Hgs & Hle & _).
  assert (Hused : used_edge_budget (self Runs.after_calls) = 2)
    by (vm_compute; reflexivity).
  assert (Hzero : used_edge_budget (self Demo.fresh) = 0)
    by (vm_compute; reflexivity).
  exists gs. split; [exact Hgs|]. rewrite Hused, Hzero in Hle. exact Hle.
Defined.

(** ** [reset] after an episode *)

Lemma get_possible_actions_run (w : World) :
  get_possible_actions w
  = match possible_actions_loop (self w) (node_target (self w)) no_actions
            (Nx.nodes (graph (self w))) with
    | inr actions => Returns actions w
    | inl err => Raises err
    end.
Proof.
  unfold get_possible_actions. run.
  destruct (possible_actions_loop _ _ _ _); reflexivity.
Qed.

Section ResetRun.

#[local] Arguments get_possible_actions : simpl never.

(** [reset] as one equation: the attributes are set, then the actions are
    listed on the result. *)
Lemma reset_run (graph_reset : bool) (w : World) :
  reset graph_reset w
  = let e := reset_env graph_reset (self w) in
    match possible_actions_loop e (node_target e) no_actions
            (Nx.nodes (graph e)) with
    | inr actions =>
        Returns (graph e)
          (mkWorld (with_possible_actions actions e) (rng w)
             (detector_calls w))
    | inl err => Raises err
    end.
Proof.
  unfold reset, reset_env. cbv zeta.
  destruct graph_reset; run; rewrite get_possible_actions_run;
    cbn [self rng detector_calls];
    destruct (possible_actions_loop _ _ _ _); reflexivity.
Qed.

End ResetRun.

Section ResetAgain.

Context {cb : Collaborators}.

(** X6.  [reset(True)] undoes an episode.  After a reset and any sequence
    of [step], [act] and [apply_action] calls, a second [reset(True)]
    returns the graph the first one returned and leaves the environment the
    first one left, but for the structure the last detection stored; it
    draws nothing and does not call the detector. *)
Theorem reset_undoes_episode (calls : list call) (w w1 w2 : World)
    (g : Nx.Graph) :
  reset true w = Returns g w1 →
  episode calls w1 = Returns tt w2 →
  reset true w2
  = Returns g
      (mkWorld (with_new_community_structure
                  (new_community_structure (self w2)) (self w1))
         (rng w1) (detector_calls w2)).
Proof.
  rewrite !reset_run. cbv zeta.
  destruct (possible_actions_loop (reset_env true (self w)) _ _ _)
    as [err|actions] eqn:Hloop; [discriminate|].
  intros [= <- <-] Hep.
  apply episode_frame in Hep as (Hsame & Hrng).
  destruct w as [e tape calls0], w2 as [e2 tape2 calls2].
  simpl in Hsame, Hrng. subst tape2.
  unfold same_setup in Hsame. simpl in Hsame.
  destruct Hsame as (Hname & Horiginal & Hbeta & Htau & Hlambda & Halpha
                     & Hstructure & Hsize & Hcommunity & Hnode & Hbudget
                     & Hold).
  cbn [self rng detector_calls] in *.
  assert (Hg : graph (reset_env true e2) = graph (reset_env true e))
    by (simpl; congruence).
  assert (Hc : community_target (reset_env true e2)
               = community_target (reset_env true e))
    by (simpl; congruence).
  assert (Hn : node_target (reset_env true e2)
               = node_target (reset_env true e))
    by (simpl; congruence).
  rewrite Hn, Hg, (possible_actions_loop_ext (reset_env true e)) by assumption.
  rewrite Hloop. f_equal. f_equal.
  destruct e, e2. simpl in *. subst. reflexivity.
Qed.

End ResetAgain.

(** The demo world after the four calls and a reset is the fresh world
    again, with the structure the one successful [step] detected. *)
Lemma reset_undoes_episode_witness :
  self Runs.after_reset
  = with_new_community_structure
      (new_community_structure (self Runs.after_calls)) (self Demo.fresh)
  ∧ graph (self Runs.after_reset) = Demo.two_rings
  ∧ used_edge_budget (self Runs.after_reset) = 0.
Proof.
  assert (Hreset : reset true Demo.world = Returns Demo.two_rings Demo.fresh)
    by (vm_compute; reflexivity).
  assert (Hrun : episode (cb := Demo.collaborators 2) Runs.calls Demo.fresh
                 = Returns tt Runs.after_calls)
    by (vm_compute; reflexivity).
  pose proof (reset_undoes_episode (cb := Demo.collaborators 2) Runs.calls
                Demo.world Demo.fresh Runs.after_calls Demo.two_rings
                Hreset Hrun) as Hagain.
  assert (Hself : self Runs.after_reset
                  = with_new_community_structure
                      (new_community_structure (self Runs.after_calls))
                      (self Demo.fresh)).
  { unfold Runs.after_reset. rewrite Hagain. reflexivity. }
  split; [exact Hself|]. rewrite Hself.
  split; vm_compute; reflexivity.
Defined.

(** ** Episodes that do not raise *)

(** What one round of the listing can do. *)
Lemma possible_actions_round_cases (e : Env) (u v : Z)
    (actions actions1 : PossibleActions) :
  possible_actions_round e (Some u) actions v = inr actions1 →
  actions1 = actions
  ∨ (v ≠ u
     ∧ ((Nx.has_edge (graph e) (Some u) (Some v) = true
         ∧ actions1 = mkActions (ADD actions)
                        ({[ (Some u, Some v) ]} ∪ REMOVE actions))
        ∨ actions1 = mkActions ({[ (Some u, Some v) ]} ∪ ADD actions)
                       (REMOVE actions))).
Proof.
  unfold possible_actions_round.
  destruct (decide (Some u = Some v)) as [Heq|Hne]; [left; congruence|].
  assert (Hvu : v ≠ u) by congruence.
  destruct (community_target e) as [community|]; [|discriminate].
  destruct (Nx.has_edge (graph e) (Some u) (Some v)),
           (contains community (Some u)), (contains community (Some v));
    simpl; repeat case_decide; intros [= <-]; auto.
Qed.

(** The listing keeps the action sets applicable. *)
Lemma possible_actions_loop_applicable (e : Env) (u : Z) (vs : list Z)
    (actions actions' : PossibleActions) :
  possible_actions_loop e (Some u) actions vs = inr actions' →
  (∀ p, p ∈ listed actions → ∃ v, p = (Some u, Some v) ∧ v ≠ u) →
  (∀ v, (Some u, Some v) ∈ REMOVE actions →
     Nx.has_edge (graph e) (Some u) (Some v) = true) →
  (∀ p, p ∈ listed actions' → ∃ v, p = (Some u, Some v) ∧ v ≠ u)
  ∧ (∀ v, (Some u, Some v) ∈ REMOVE actions' →
       Nx.has_edge (graph e) (Some u) (Some v) = true).
Proof.
  revert actions. induction vs as [|v vs IH]; intros actions; simpl.
  - intros [= <-]. tauto.
  - destruct (possible_actions_round e (Some u) actions v)
      as [err|actions1] eqn:Hround; [discriminate|].
    intros Hloop Hfrom Hedges.
    apply possible_actions_round_cases in Hround
      as [->|(Hvu & [(Hedge & ->)| ->])];
      apply (IH _ Hloop); try assumption; unfold listed in *; simpl.
    + intros p Hp.
      assert (Hcase : p = (Some u, Some v) ∨ p ∈ ADD actions ∪ REMOVE actions)
        by set_solver.
      destruct Hcase as [->|Hp']; eauto.
    + intros x [Hx|Hx]%elem_of_union; [|apply Hedges; exact Hx].
      apply elem_of_singleton in Hx. simplify_eq. exact Hedge.
    + intros p Hp.
      assert (Hcase : p = (Some u, Some v) ∨ p ∈ ADD actions ∪ REMOVE actions)
        by set_solver.
      destruct Hcase as [->|Hp']; eauto.
Qed.

(** What [reset] leaves in the attributes the actions depend on. *)
Lemma reset_fields (graph_reset : bool) (actions : PossibleActions)
    (e : Env) :
  let e1 := with_possible_actions actions (reset_env graph_reset e) in
  graph e1 = (if graph_reset then original_graph e else graph e)
  ∧ possible_actions e1 = actions
  ∧ node_target e1 = node_target e
  ∧ community_target e1 = community_target e
  ∧ lambda_metric e1 = lambda_metric e
  ∧ alpha_metric e1 = alpha_metric e
  ∧ old_community_structure e1 = Some (original_community_structure e).
Proof.
  destruct e, graph_reset; repeat split; reflexivity.
Qed.

Lemma reset_env_fields (graph_reset : bool) (e : Env) :
  graph (reset_env graph_reset e)
  = (if graph_reset then original_graph e else graph e)
  ∧ node_target (reset_env graph_reset e) = node_target e.
Proof.
  destruct e, graph_reset; split; reflexivity.
Qed.

(** [reset] leaves an environment on which every action can be applied. *)
Lemma reset_ready (graph_reset : bool) (w w1 : World) (g : Nx.Graph) (u : Z) :
  reset graph_reset w = Returns g w1 →
  node_target (self w) = Some u →
  symmetric g →
  ready u (self w1) ∧ graph (self w1) = g
  ∧ old_community_structure (self w1)
    = Some (original_community_structure (self w))
  ∧ community_target (self w1) = community_target (self w)
  ∧ lambda_metric (self w1) = lambda_metric (self w)
  ∧ alpha_metric (self w1) = alpha_metric (self w).
Proof.
  rewrite reset_run. cbv zeta.
  destruct (possible_actions_loop _ _ _ _) as [err|actions] eqn:Hloop;
    [discriminate|].
  intros [= <- <-] Hnode Hsym.
  destruct (reset_env_fields graph_reset (self w)) as [Hg0 Hn0].
  rewrite Hn0, Hnode in Hloop.
  apply possible_actions_loop_applicable in Hloop as [Hfrom Hedges];
    [|unfold listed; simpl; set_solver|simpl; set_solver].
  cbn [self].
  destruct (reset_fields graph_reset actions (self w))
    as (Hg & Hactions & Hn & Hc & Hl & Ha & Hold).
  unfold ready, applicable.
  rewrite Hg, Hactions, Hn, Hc, Hl, Ha, Hold.
  rewrite Hg0 in Hedges.
  repeat split; try assumption; reflexivity.
Qed.

(** On such an environment [apply_action] returns, and leaves one. *)
Lemma apply_action_ready (u action : Z) (w : World) :
  ready u (self w) →
  ∃ n w1, apply_action action w = Returns n w1
          ∧ ready u (self w1)
          ∧ (has_node (graph (self w)) u → has_node (graph (self w1)) u).
Proof.
  intros (Hnode & Hsym & Hfrom & Hedges).
  assert (Hrev : ∀ x, (Some x, Some u) ∉ listed (possible_actions (self w))).
  { intros x Hin. destruct (Hfrom _ Hin) as (v & [= -> <-] & Hne).
    congruence. }
  unfold listed in Hrev.
  unfold apply_action, mbind, M_bind, get_self. rewrite Hnode. cbv zeta.
  cbn [fst snd].
  case_decide as Hadd.
  { destruct (add_edge_spec (graph (self w)) u action 1)
      as (g' & -> & Hnodes & Hg').
    eexists _, _. split; [reflexivity|]. simpl. split; [|apply Hnodes].
    split; [exact Hnode|]. split.
    - intros a b. apply eq_iff_eq_true. rewrite !Hg', (Hsym a b). tauto.
    - split.
      + intros p Hp. apply Hfrom. unfold listed in *. simpl in Hp. set_solver.
      + intros v Hv. apply Hg'. left. apply Hedges. exact Hv. }
  case_decide as Hradd; [exfalso; apply (Hrev action); set_solver|].
  case_decide as Hrem.
  { pose proof (Hedges _ Hrem) as Hedge.
    pose proof Hedge as Hback. rewrite Hsym in Hback.
    destruct (remove_edge_spec (graph (self w)) u action Hedge Hback)
      as (g' & -> & Hnodes & Hg').
    eexists _, _. split; [reflexivity|]. simpl. split; [|apply Hnodes].
    split; [exact Hnode|]. split.
    - intros a b. apply eq_iff_eq_true. rewrite !Hg', (Hsym a b). tauto.
    - split.
      + intros p Hp. apply Hfrom. unfold listed in *. simpl in Hp. set_solver.
      + intros v Hv.
        apply elem_of_difference in Hv as [Hv Hne].
        rewrite elem_of_singleton in Hne.
        destruct (Hfrom (Some u, Some v)) as (v' & [= <-] & Hvu);
          [unfold listed; set_solver|].
        apply Hg'. split; [apply Hedges; exact Hv|].
        split; intros [? ?]; congruence. }
  case_decide as Hrrem; [exfalso; apply (Hrev action); set_solver|].
  eexists _, _. split; [reflexivity|]. split; [|tauto].
  split; [exact Hnode|]. split; [exact Hsym|]. split; assumption.
Qed.

(** Readiness reads the target node, the graph and the action sets. *)
Lemma ready_ext (u : Z) (e e' : Env) :
  node_target e' = node_target e →
  graph e' = graph e →
  possible_actions e' = possible_actions e →
  ready u e → ready u e'.
Proof.
  unfold ready, applicable. intros -> -> ->. tauto.
Qed.

Lemma rewarding_ext (u : Z) (e e' : Env) :
  has_node (graph e') u →
  node_target e' = node_target e →
  community_target e' = community_target e →
  lambda_metric e' = lambda_metric e →
  alpha_metric e' = alpha_metric e →
  is_Some (old_community_structure e') →
  rewarding u e → rewarding u e'.
Proof.
  unfold rewarding, target_invariant. intros Hnode -> -> -> -> Hold. tauto.
Qed.

Section Returning.

Context {cb : Collaborators}.

#[local] Arguments get_penalty : simpl never.

(** [get_reward] returns once the weights are set, the detector has found
    a community for the target node, and there is a previous structure and
    a snapshot to compare with. *)
Lemma get_reward_returns (u : Z) (w : World) (s : NodeClustering) :
  node_target (self w) = Some u →
  target_invariant (self w) = true →
  is_Some (lambda_metric (self w)) →
  is_Some (alpha_metric (self w)) →
  is_Some (old_community_structure (self w)) →
  is_Some (old_graph (self w)) →
  new_community_structure (self w) = Some s →
  is_Some (community_of (Some u) (communities s)) →
  ∃ r d w1, get_reward w = Returns (r, d) w1.
Proof.
  intros Hnode Hinv [lambda Hl] [alpha Ha] [old Hold] [snap Hsnap] Hnew
    [c Hc].
  unfold target_invariant in Hinv. rewrite Hnode in Hinv.
  destruct (community_target (self w)) as [t|] eqn:Ht; [|discriminate].
  destruct (community_of_contains _ _ _ Hc) as [_ Hcu].
  destruct (contains_remove c (Some u) Hcu) as [c' Hc'].
  destruct (contains_remove t (Some u) Hinv) as [t' Ht'].
  pose proof (get_penalty_run w alpha s old snap Ha Hnew Hold Hsnap)
    as Hpenalty.
  cbv zeta in Hpenalty.
  unfold get_reward. run.
  rewrite Hl. run. rewrite Hnew. run. rewrite Hnode, Hc. run.
  rewrite Hpenalty. run.
  destruct (bool_decide (length c = 1%nat)); run; [eauto|].
  rewrite Hc'. run. rewrite Ht. run. rewrite Ht'. run.
  destruct (_ <=? _)%float; eauto.
Qed.

(** [step] returns when the action can be applied and, if it uses budget,
    the reward can be computed. *)
Lemma step_returns (w w1 : World) (action n : Z) :
  apply_action action
    (mkWorld (with_old_graph (Some (graph (self w))) (self w)) (rng w)
       (detector_calls w))
  = Returns n w1 →
  (∃ r d w3,
     get_reward
       (mkWorld
          (with_new_community_structure (Some (detect (graph (self w1))))
             (self w1))
          (rng w1) (graph (self w1) :: detector_calls w1))
     = Returns (r, d) w3) →
  ∃ res w2, step action w = Returns res w2.
Proof.
  intros Happly (r & d & w3 & Hreward).
  unfold step. do 3 run. unfold Nx.copy. rewrite Happly.
  destruct (apply_action_budget _ _ _ _ Happly) as [-> | ->]; simpl.
  - eauto.
  - rewrite Hreward. destruct d, (_ <? 1); do 2 run; eauto.
Qed.

End Returning.

Section NeverRaises.

Context {cb : Collaborators}.

(** One call on a ready environment returns and leaves it ready; a call
    of [step] needs an environment on which the reward can be computed,
    and leaves one. *)
Lemma run_call_ready (u : Z) (c : call) (w : World) :
  ready u (self w) →
  skips_reward c = true ∨ (rewarding u (self w) ∧ covers u) →
  ∃ w1, run_call c w = Returns tt w1
        ∧ ready u (self w1)
        ∧ (rewarding u (self w) → rewarding u (self w1)).
Proof.
  intros Hready Hcase.
  destruct c as [action|action|action]; simpl.
  - destruct Hcase as [?|[Hrewarding Hcovers]]; [discriminate|].
    set (w0 := mkWorld (with_old_graph (Some (graph (self w))) (self w))
                 (rng w) (detector_calls w)).
    assert (Hready0 : ready u (self w0))
      by (apply (ready_ext u (self w)); [reflexivity..|exact Hready]).
    destruct (apply_action_ready u action w0 Hready0)
      as (n & w1 & Happly & Hready1 & Hnode1).
    destruct (apply_action_frame _ _ _ _ Happly) as [(g0 & actions & Hw1) _].
    destruct Hrewarding as (Hnode & Hinv & Hlambda & Halpha & Hold).
    specialize (Hnode1 Hnode).
    assert (Hreward : ∃ r d w3,
      get_reward
        (mkWorld
           (with_new_community_structure (Some (detect (graph (self w1))))
              (self w1))
           (rng w1) (graph (self w1) :: detector_calls w1))
      = Returns (r, d) w3).
    { apply (get_reward_returns u _ (detect (graph (self w1)))).
      - exact (proj1 Hready1).
      - rewrite Hw1. exact Hinv.
      - rewrite Hw1. exact Hlambda.
      - rewrite Hw1. exact Halpha.
      - rewrite Hw1. exact Hold.
      - rewrite Hw1. simpl. eauto.
      - reflexivity.
      - apply Hcovers. exact Hnode1. }
    destruct (step_returns w w1 action n Happly Hreward) as (res & w2 & Hstep).
    unfold mbind, M_bind. rewrite Hstep.
    exists w2. split; [reflexivity|].
    destruct res as [[[g r] s] d].
    apply step_inv in Hstep as (n' & w1' & Happly' & Hshape).
    fold w0 in Happly'. rewrite Happly in Happly'.
    injection Happly' as <- <-.
    assert (Hfields : node_target (self w2) = node_target (self w1)
                      ∧ graph (self w2) = graph (self w1)
                      ∧ possible_actions (self w2) = possible_actions (self w1)
                      ∧ community_target (self w2) = community_target (self w1)
                      ∧ lambda_metric (self w2) = lambda_metric (self w1)
                      ∧ alpha_metric (self w2) = alpha_metric (self w1)
                      ∧ (is_Some (old_community_structure (self w1)) →
                         is_Some (old_community_structure (self w2)))).
    { destruct Hshape as [(_ & _ & _ & _ & _ & ->)|(_ & p & _ & _ & _ & ->)];
        simpl; repeat split; eauto. }
    destruct Hfields as (Hn & Hg & Ha & Hc & Hl & Hal & Ho).
    split; [apply (ready_ext u (self w1)); assumption|].
    intros _. apply (rewarding_ext u (self w)).
    + unfold has_node. rewrite Hg. exact Hnode1.
    + rewrite Hn, Hw1. reflexivity.
    + rewrite Hc, Hw1. reflexivity.
    + rewrite Hl, Hw1. reflexivity.
    + rewrite Hal, Hw1. reflexivity.
    + apply Ho. rewrite Hw1. exact Hold.
    + repeat split; assumption.
  - destruct (apply_action_ready u action w Hready)
      as (n & w1 & Happly & Hready1 & Hnode1).
    destruct (apply_action_frame _ _ _ _ Happly) as [(g0 & actions & Hw1) _].
    unfold mbind, M_bind. rewrite act_run, Happly. cbv zeta.
    eexists. split; [reflexivity|]. cbn [self].
    split; [apply (ready_ext u (self w1)); [reflexivity..|exact Hready1]|].
    intros Hrewarding. pose proof Hrewarding as (Hnode & _ & _ & _ & Hold).
    apply (rewarding_ext u (self w)); try exact Hrewarding.
    + apply Hnode1, Hnode.
    + rewrite Hw1. reflexivity.
    + rewrite Hw1. reflexivity.
    + rewrite Hw1. reflexivity.
    + rewrite Hw1. reflexivity.
    + rewrite Hw1. exact Hold.
  - destruct (apply_action_ready u action w Hready)
      as (n & w1 & Happly & Hready1 & Hnode1).
    destruct (apply_action_frame _ _ _ _ Happly) as [(g0 & actions & Hw1) _].
    unfold mbind, M_bind. rewrite Happly.
    eexists. split; [reflexivity|]. split; [exact Hready1|].
    intros Hrewarding. pose proof Hrewarding as (Hnode & _ & _ & _ & Hold).
    apply (rewarding_ext u (self w)); try exact Hrewarding.
    + apply Hnode1, Hnode.
    + rewrite Hw1. reflexivity.
    + rewrite Hw1. reflexivity.
    + rewrite Hw1. reflexivity.
    + rewrite Hw1. reflexivity.
    + rewrite Hw1. exact Hold.
Qed.

Lemma episode_ready (u : Z) (calls : list call) (w : World) :
  ready u (self w) →
  forallb skips_reward calls = true ∨ (rewarding u (self w) ∧ covers u) →
  ∃ w1, episode calls w = Returns tt w1 ∧ ready u (self w1).
Proof.
  revert w. induction calls as [|c calls IH]; intros w Hready Hcase; simpl.
  - eauto.
  - destruct (run_call_ready u c w Hready) as (w0 & Hcall & Hready0 & Hkeep).
    { destruct Hcase as [[? _]%andb_true_iff|?]; [left|right]; assumption. }
    destruct (IH w0 Hready0) as (w1 & Hrest & Hready1).
    { destruct Hcase as [[_ ?]%andb_true_iff|[? ?]]; [left|right];
        [assumption|split; [apply Hkeep|]; assumption]. }
    unfold mbind, M_bind. rewrite Hcall. eauto.
Qed.

(** X7.  After a [reset] with a target node on a graph whose adjacency is
    symmetric, no sequence of [act] and [apply_action] calls raises: every
    action the sets list can be applied, an edge listed for removal is
    still there when its turn comes, and what is left of the sets still
    agrees with the graph. *)
Theorem episode_without_reward_returns (graph_reset : bool)
    (calls : list call) (w w1 : World) (g : Nx.Graph) (u : Z) :
  reset graph_reset w = Returns g w1 →
  node_target (self w) = Some u →
  symmetric g →
  forallb skips_reward calls = true →
  ∃ w2, episode calls w1 = Returns tt w2 ∧ ready u (self w2).
Proof.
  intros Hreset Hnode Hsym Hcalls.
  destruct (reset_ready _ _ _ _ _ Hreset Hnode Hsym) as (Hready & _).
  apply (episode_ready u calls w1 Hready). left. exact Hcalls.
Qed.

(** X8.  If moreover the target node is a node of the graph and a member of
    the target community, both weights are set, and the detector finds a
    community for the target node on every graph that has it, then no
    sequence of [step], [act] and [apply_action] calls raises. *)
Theorem episode_returns (graph_reset : bool) (calls : list call)
    (w w1 : World) (g : Nx.Graph) (u : Z) :
  reset graph_reset w = Returns g w1 →
  node_target (self w) = Some u →
  symmetric g →
  has_node g u →
  target_invariant (self w) = true →
  is_Some (lambda_metric (self w)) →
  is_Some (alpha_metric (self w)) →
  covers u →
  ∃ w2, episode calls w1 = Returns tt w2 ∧ ready u (self w2).
Proof.
  intros Hreset Hnode Hsym Hhas Hinv Hlambda Halpha Hcovers.
  destruct (reset_ready _ _ _ _ _ Hreset Hnode Hsym)
    as (Hready & Hg & Hold & Hc & Hl & Ha).
  apply (episode_ready u calls w1 Hready). right. split; [|exact Hcovers].
  unfold rewarding, target_invariant.
  rewrite Hg, Hc, Hl, Ha, Hold, (proj1 Hready).
  unfold target_invariant in Hinv. rewrite Hnode in Hinv.
  repeat split; eauto.
Qed.

End NeverRaises.

(** The demo graphs are built by [add_edge] alone, so their adjacency is
    symmetric. *)
Lemma graph_of_edges_symmetric (edges : list (Z * Z)) :
  symmetric (Demo.graph_of_edges edges).
Proof.
  unfold Demo.graph_of_edges.
  assert (Hfold : ∀ g, symmetric g →
            symmetric
              (foldl (λ g '(a, b),
                        match Nx.add_edge g (Some a) (Some b) 1 with
                        | inr g' => g'
                        | inl _ => g
                        end) g edges)).
  { induction edges as [|[a b] edges IH]; intros g Hg; cbn [foldl];
      [exact Hg|].
    apply IH.
    destruct (add_edge_spec g a b 1) as (g' & -> & _ & Hg').
    intros x y. apply eq_iff_eq_true. rewrite !Hg', (Hg x y). tauto. }
  apply Hfold. intros a b. unfold Nx.has_edge. simpl.
  rewrite !lookup_empty. reflexivity.
Qed.

Lemma find_is_Some {A} (p : A → bool) (l : list A) (x : A) :
  x ∈ l → p x = true → is_Some (List.find p l).
Proof.
  induction l as [|y l IH]; intros Hin Hp; [inversion Hin|]. simpl.
  destruct (p y) eqn:Hy; [eauto|].
  apply elem_of_cons in Hin as [->|Hin]; [congruence|apply IH; assumption].
Qed.

(** The demo detector finds a community for node 0 on every graph that
    has it: the first ring when the node has a neighbour, a community of
    its own when it has none. *)
Lemma split_isolated_covers :
  covers (cb := Demo.collaborators 2) 0.
Proof.
  intros g Hnode. unfold community_of. simpl. unfold Demo.split_isolated.
  cbn [communities].
  destruct (Demo.isolated g 0) eqn:Hiso.
  - apply (find_is_Some _ _ [0]); [|reflexivity].
    apply elem_of_app. right. apply list_elem_of_fmap. exists 0.
    split; [reflexivity|].
    apply list_elem_of_In, filter_In. split; [|exact Hiso].
    apply list_elem_of_In. unfold Nx.nodes.
    apply elem_of_elements, elem_of_dom. exact Hnode.
  - cbn [negb app].
    eapply find_is_Some; [apply elem_of_cons; left; reflexivity|].
    apply bool_decide_eq_true. apply elem_of_cons. left. reflexivity.
Qed.

(** On the fresh demo world the four quiet calls return, and so do the
    four calls with two steps among them. *)
Lemma episode_without_reward_returns_witness :
  ∃ w2, episode (cb := Demo.collaborators 2) Runs.quiet_calls Demo.fresh
        = Returns tt w2
        ∧ ready 0 (self w2).
Proof.
  assert (Hreset : reset true Demo.world = Returns Demo.two_rings Demo.fresh)
    by (vm_compute; reflexivity).
  exact (episode_without_reward_returns (cb := Demo.collaborators 2) true
           Runs.quiet_calls Demo.world Demo.fresh Demo.two_rings 0
           Hreset eq_refl (graph_of_edges_symmetric _) eq_refl).
Defined.

Lemma episode_returns_witness :
  ∃ w2, episode (cb := Demo.collaborators 2) Runs.calls Demo.fresh
        = Returns tt w2
        ∧ ready 0 (self w2).
Proof.
  assert (Hreset : reset true Demo.world = Returns Demo.two_rings Demo.fresh)
    by (vm_compute; reflexivity).
  assert (Hnode : has_node Demo.two_rings 0)
    by (eexists; vm_compute; reflexivity).
  assert (Hinv : target_invariant (self Demo.world) = true)
    by (vm_compute; reflexivity).
  exact (episode_returns (cb := Demo.collaborators 2) true Runs.calls
           Demo.world Demo.fresh Demo.two_rings 0 Hreset eq_refl
           (graph_of_edges_symmetric _) Hnode Hinv
           (ex_intro _ _ eq_refl) (ex_intro _ _ eq_refl)
           split_isolated_covers).
Defined.

(** ** The communities [set_communities] keeps *)

Lemma insert_by_len_elem {A} (c x : list A) (l : list (list A)) :
  x ∈ insert_by_len c l → x = c ∨ x ∈ l.
Proof.
  induction l as [|d l IH]; simpl.
  - intros ->%list_elem_of_singleton. left. reflexivity.
  - destruct (length c <=? length d)%nat.
    + intros [->|Hx]%elem_of_cons; [left; reflexivity|right; exact Hx].
    + intros [->|Hx]%elem_of_cons; [right; left|].
      destruct (IH Hx) as [->|Hin]; [left; reflexivity|].
      right. right. exact Hin.
Qed.

(** [sorted] puts the communities of at most one node first. *)
Lemma sorted_by_len_split (l : list (list Z)) :
  sorted_by_len l
  = List.filter tiny (sorted_by_len l)
    ++ List.filter (λ c, negb (tiny c)) (sorted_by_len l).
Proof.
  assert (Hsorted : StronglySorted (λ a b : list Z, (length a ≤ length b)%nat)
                      (sorted_by_len l)).
  { unfold sorted_by_len. induction l as [|c l IH]; simpl; [constructor|].
    revert IH. generalize (foldr insert_by_len [] l). clear l.
    intros l. induction l as [|d l IH]; intros Hl; simpl.
    - repeat constructor.
    - apply StronglySorted_inv in Hl as [Hl Hd].
      destruct (length c <=? length d)%nat eqn:Hcd.
      + apply Nat.leb_le in Hcd. constructor; [constructor; assumption|].
        constructor; [exact Hcd|].
        eapply Forall_impl; [exact Hd|]. simpl. intros x Hx. lia.
      + apply Nat.leb_gt in Hcd. constructor; [apply IH; exact Hl|].
        apply Forall_forall. intros x [->|Hx]%insert_by_len_elem; [lia|].
        rewrite Forall_forall in Hd. apply Hd. exact Hx. }
  induction Hsorted as [|c rest Hrest IH Hc]; [reflexivity|].
  simpl. destruct (tiny c) eqn:Hlen; simpl.
  - f_equal. exact IH.
  - unfold tiny in Hlen. apply Nat.leb_gt in Hlen.
    assert (Hnone : List.filter tiny rest = []).
    { clear IH Hrest. induction rest as [|d rest IHr]; [reflexivity|].
      apply Forall_cons in Hc as [Hd Hc]. simpl. unfold tiny at 1.
      replace (length d <=? 1)%nat with false
        by (symmetry; apply Nat.leb_gt; lia).
      apply IHr. exact Hc. }
    rewrite Hnone in IH |- *. simpl in *. f_equal. exact IH.
Qed.

Lemma delete_middle_at {A} (n : nat) (l1 l2 : list A) (x : A) :
  n = length l1 → delete n (l1 ++ x :: l2) = l1 ++ l2.
Proof.
  intros ->. apply delete_middle.
Qed.

(** Past the last community of at most one node the loop pops nothing. *)
Lemma prune_loop_done (fuel i : nat) (l : list (list Z)) (p : list float) :
  (∀ j c, (i ≤ j)%nat → l !! j = Some c → tiny c = false) →
  prune_loop fuel i l p = inr (l, p).
Proof.
  revert i. induction fuel as [|fuel IH]; intros i Hbig; [reflexivity|].
  simpl. destruct (l !! i) as [c|] eqn:Hc; [|reflexivity].
  pose proof (Hbig i c (le_n _) Hc) as Hlen. unfold tiny in Hlen.
  rewrite Hlen. apply IH. intros j d Hj. apply Hbig. lia.
Qed.

(** The loop on a sorted list: each pop moves the next community under the
    position the loop has just left, so every other small community is
    stepped over. *)
Lemma prune_loop_every_other (f : list Z → float) (n : nat) :
  ∀ (smalls kept bigs : list (list Z)) (fuel : nat),
    (length smalls ≤ n)%nat →
    (length smalls ≤ fuel)%nat →
    Forall (λ c, tiny c = true) smalls →
    Forall (λ c, tiny c = false) bigs →
    prune_loop fuel (length kept) (kept ++ smalls ++ bigs)
      (f <$> kept ++ smalls ++ bigs)
    = inr (kept ++ every_other smalls ++ bigs,
           f <$> kept ++ every_other smalls ++ bigs).
Proof.
  induction n as [|n IH]; intros smalls kept bigs fuel Hn Hfuel Hsmalls Hbigs.
  - destruct smalls; [|simpl in Hn; lia]. simpl.
    apply prune_loop_done. intros j c Hj Hc.
    rewrite lookup_app_r in Hc by exact Hj.
    rewrite Forall_forall in Hbigs. apply Hbigs.
    apply list_elem_of_lookup. eauto.
  - destruct smalls as [|s0 [|s1 rest]].
    + apply (IH [] kept bigs fuel); simpl; try lia; assumption.
    + destruct fuel as [|fuel]; [simpl in Hfuel; lia|].
      apply Forall_cons in Hsmalls as [Hs0 _]. unfold tiny in Hs0.
      cbn [prune_loop app every_other]. unfold list_pop.
      rewrite (fmap_app f kept (s0 :: bigs)), fmap_cons.
      rewrite !list_lookup_middle by (rewrite ?length_fmap; reflexivity).
      rewrite Hs0.
      rewrite !delete_middle_at by (rewrite ?length_fmap; reflexivity).
      rewrite <- fmap_app.
      apply prune_loop_done. intros j c Hj Hc.
      rewrite lookup_app_r in Hc by lia.
      rewrite Forall_forall in Hbigs. apply Hbigs.
      apply list_elem_of_lookup. eauto.
    + destruct fuel as [|fuel]; [simpl in Hfuel; lia|].
      apply Forall_cons in Hsmalls as [Hs0 [Hs1 Hrest]%Forall_cons].
      unfold tiny in Hs0.
      cbn [prune_loop app every_other]. unfold list_pop.
      rewrite (fmap_app f kept (s0 :: s1 :: rest ++ bigs)), fmap_cons.
      rewrite !list_lookup_middle by (rewrite ?length_fmap; reflexivity).
      rewrite Hs0.
      rewrite !delete_middle_at by (rewrite ?length_fmap; reflexivity).
      rewrite <- fmap_app.
      replace (S (length kept)) with (length (kept ++ [s1]))
        by (rewrite length_app; simpl; lia).
      replace (kept ++ s1 :: rest ++ bigs) with ((kept ++ [s1]) ++ rest ++ bigs)
        by (rewrite <- app_assoc; reflexivity).
      replace (kept ++ s1 :: every_other rest ++ bigs)
        with ((kept ++ [s1]) ++ every_other rest ++ bigs)
        by (rewrite <- app_assoc; reflexivity).
      apply IH; simpl in *; try lia; assumption.
Qed.

Lemma prune_loop_sorted (f : list Z → float) (s : list (list Z)) :
  s = List.filter tiny s ++ List.filter (λ c, negb (tiny c)) s →
  prune_loop (length s) 0 s (f <$> s)
  = inr (survivors s, f <$> survivors s).
Proof.
  intros Hs.
  pose proof (prune_loop_every_other f (length s) (List.filter tiny s) []
                (List.filter (λ c, negb (tiny c)) s) (length s)) as Hloop.
  cbn [app length] in Hloop. rewrite <- Hs in Hloop. apply Hloop.
  - apply filter_length_le.
  - apply filter_length_le.
  - apply Forall_forall. intros c Hc%list_elem_of_In%filter_In. tauto.
  - apply Forall_forall. intros c Hc%list_elem_of_In%filter_In.
    apply negb_true_iff. tauto.
Qed.

Lemma shares_run (total : Z) (cs : list (list Z)) :
  total ≠ 0 → shares total (len <$> cs) = inr (share total <$> cs).
Proof.
  intros Htotal. induction cs as [|c cs IH]; [reflexivity|].
  cbn [fmap list_fmap shares] in *. unfold true_div.
  rewrite (proj2 (Z.eqb_neq _ _) Htotal), IH. reflexivity.
Qed.

Lemma sorted_by_len_Forall {A} (P : list A → Prop) (l : list (list A)) :
  Forall P l → Forall P (sorted_by_len l).
Proof.
  unfold sorted_by_len. induction 1 as [|c l Hc Hl IH]; simpl; [constructor|].
  apply Forall_forall. intros x [->|Hx]%insert_by_len_elem; [exact Hc|].
  rewrite Forall_forall in IH. apply IH. exact Hx.
Qed.

Lemma sorted_by_len_length {A} (l : list (list A)) :
  length (sorted_by_len l) = length l.
Proof.
  unfold sorted_by_len. induction l as [|c l IH]; simpl; [reflexivity|].
  rewrite <- IH. generalize (foldr insert_by_len [] l). clear.
  intros s. induction s as [|d s IHs]; simpl; [reflexivity|].
  destruct (length c <=? length d)%nat; simpl; [reflexivity|].
  rewrite IHs. reflexivity.
Qed.

Lemma filter_all {A} (p : A → bool) (l : list A) :
  Forall (λ x, p x = true) l → List.filter p l = l.
Proof.
  induction 1 as [|x l Hx Hl IH]; simpl; [reflexivity|].
  rewrite Hx, IH. reflexivity.
Qed.

Lemma filter_none {A} (p : A → bool) (l : list A) :
  Forall (λ x, p x = true) l → List.filter (λ x, negb (p x)) l = [].
Proof.
  induction 1 as [|x l Hx Hl IH]; simpl; [reflexivity|].
  rewrite Hx. exact IH.
Qed.

Lemma every_other_length {A} (l : list A) :
  length (every_other l) = Nat.div2 (length l).
Proof.
  assert (Hboth : length (every_other l) = Nat.div2 (length l)
                  ∧ ∀ x, length (every_other (x :: l))
                         = Nat.div2 (S (length l))).
  { induction l as [|y l [IH1 IH2]]; [split; reflexivity|].
    split; [apply IH2|]. intros x. simpl. rewrite IH1. reflexivity. }
  apply Hboth.
Qed.

Lemma every_other_Forall {A} (P : A → Prop) (l : list A) :
  Forall P l → Forall P (every_other l).
Proof.
  intros Hl.
  assert (Hboth : Forall P (every_other l)
                  ∧ ∀ x, Forall P (every_other (x :: l))).
  { induction Hl as [|y l Hy Hl [IH1 IH2]]; [split; constructor|].
    split; [apply IH2|]. intros x. simpl. constructor; assumption. }
  apply Hboth.
Qed.

Section SetCommunities.

Context {cb : Collaborators}.

(** [set_communities] with its binds unfolded. *)
Lemma set_communities_run (w : World) :
  let original := detect (graph (self w)) in
  let sorted := sorted_by_len (communities original) in
  let w1 :=
    mkWorld
      (with_old_community_structure (Some original)
         (with_original_community_structure original
            (with_old_penalty_value 0%float (self w))))
      (rng w) (graph (self w) :: detector_calls w) in
  set_communities w
  = match shares (foldr Z.add 0 (len <$> sorted)) (len <$> sorted) with
    | inl err => Raises err
    | inr prob_dist =>
        match prune_loop (length sorted) 0 sorted prob_dist with
        | inl err => Raises err
        | inr (kept, probs) =>
            if (0 <? length kept)%nat then Returns (kept, probs) w1
            else Raises AssertionError
        end
    end.
Proof.
  intros original sorted w1.
  unfold set_communities. run. fold original. fold sorted.
  destruct (shares _ _) as [err|prob_dist]; run; [reflexivity|].
  destruct (prune_loop _ _ _ _) as [err|[kept probs]]; run; [reflexivity|].
  destruct (0 <? length kept)%nat; reflexivity.
Qed.

(** X9.  [set_communities] calls the detector once, on the working graph,
    and stores what it found as the original and as the previous-step
    structure.  It fails its assertion when the detector found no
    community, and divides by zero when every community found is empty.
    Otherwise, of the communities sorted by size, it keeps all those of
    more than one node, and of those of at most one node every second one,
    because it pops from the list it iterates over; each community kept
    still has its own share of the nodes beside it.  The assertion fails
    only if nothing is kept. *)
Theorem set_communities_spec (w : World) :
  let original := detect (graph (self w)) in
  let sorted := sorted_by_len (communities original) in
  let total := foldr Z.add 0 (len <$> sorted) in
  let w1 :=
    mkWorld
      (with_old_community_structure (Some original)
         (with_original_community_structure original
            (with_old_penalty_value 0%float (self w))))
      (rng w) (graph (self w) :: detector_calls w) in
  set_communities w
  = match sorted with
    | [] => Raises AssertionError
    | _ =>
        if total =? 0 then Raises ZeroDivisionError
        else
          match survivors sorted with
          | [] => Raises AssertionError
          | kept => Returns (kept, share total <$> kept) w1
          end
    end.
Proof.
  intros original sorted total w1.
  rewrite set_communities_run. fold original. fold sorted.
  change (foldr Z.add 0 (len <$> sorted)) with total.
  destruct sorted as [|c sorted'] eqn:Hsorted; [reflexivity|].
  rewrite <- Hsorted.
  destruct (total =? 0) eqn:Htotal.
  - apply Z.eqb_eq in Htotal. rewrite Htotal, Hsorted. simpl.
    unfold true_div. simpl. reflexivity.
  - apply Z.eqb_neq in Htotal.
    rewrite (shares_run total sorted Htotal).
    rewrite (prune_loop_sorted (share total) sorted)
      by (subst sorted; apply sorted_by_len_split).
    destruct (survivors sorted); reflexivity.
Qed.

(** X10.  When the detector finds only communities of one node, and at
    least two of them, [set_communities] returns: the assertion that there
    is a community of more than one node passes on the half of them that
    the loop left in the list. *)
Theorem set_communities_keeps_singletons (w : World) :
  let original := detect (graph (self w)) in
  Forall (λ c, length c = 1%nat) (communities original) →
  (2 ≤ length (communities original))%nat →
  ∃ kept probs w1,
    set_communities w = Returns (kept, probs) w1
    ∧ Forall (λ c, length c = 1%nat) kept
    ∧ length kept = Nat.div2 (length (communities original)).
Proof.
  intros original Hones Hmany.
  rewrite set_communities_run. fold original.
  set (sorted := sorted_by_len (communities original)).
  assert (Hsorted : Forall (λ c, length c = 1%nat) sorted)
    by (apply sorted_by_len_Forall; exact Hones).
  assert (Hlength : length sorted = length (communities original))
    by apply sorted_by_len_length.
  assert (Htotal : foldr Z.add 0 (len <$> sorted) = Z.of_nat (length sorted)).
  { clear Hlength. induction Hsorted as [|c rest Hc Hrest IH]; [reflexivity|].
    cbn [fmap list_fmap foldr length] in *. rewrite IH. unfold len.
    rewrite Hc. lia. }
  assert (Hkept : survivors sorted = every_other sorted).
  { unfold survivors. rewrite filter_all, filter_none, app_nil_r.
    - reflexivity.
    - eapply Forall_impl; [exact Hsorted|]. simpl. intros c Hc.
      unfold tiny. rewrite Hc. reflexivity.
    - eapply Forall_impl; [exact Hsorted|]. simpl. intros c Hc.
      unfold tiny. rewrite Hc. reflexivity. }
  assert (Hsplit : sorted = List.filter tiny sorted
                            ++ List.filter (λ c, negb (tiny c)) sorted)
    by apply sorted_by_len_split.
  clearbody sorted.
  assert (Hpos : Z.of_nat (length sorted) ≠ 0) by lia.
  rewrite Htotal, (shares_run _ _ Hpos).
  rewrite (prune_loop_sorted _ sorted Hsplit), Hkept.
  assert (Hhalf : length (every_other sorted)
                  = Nat.div2 (length (communities original)))
    by (rewrite <- Hlength; apply every_other_length).
  assert (Hstill : Forall (λ c, length c = 1%nat) (every_other sorted))
    by (apply every_other_Forall; exact Hsorted).
  replace (0 <? length (every_other sorted))%nat with true.
  - eexists _, _, _. split; [reflexivity|]. split; assumption.
  - symmetry. apply Nat.ltb_lt. rewrite Hhalf. clear Hhalf Hlength.
    remember (length (communities original)) as n eqn:Hn. clear Hn.
    destruct n as [|[|n]]; [lia|lia|]. cbn [Nat.div2]. apply Nat.lt_0_succ.
Qed.

End SetCommunities.

(** A detector that finds five communities of one node each: two are kept
    and the assertion passes. *)
Lemma set_communities_keeps_singletons_witness :
  ∃ kept probs w1,
    set_communities (cb := Runs.singletons) Demo.world
    = Returns (kept, probs) w1
    ∧ length kept = 2%nat.
Proof.
  assert (Hones : Forall (λ c : list Z, length c = 1%nat)
                    (communities
                       (detect (Collaborators := Runs.singletons)
                          (graph (self Demo.world)))))
    by (repeat constructor).
  destruct (set_communities_keeps_singletons (cb := Runs.singletons)
              Demo.world Hones) as (kept & probs & w1 & Hrun & _ & Hhalf).
  - simpl. lia.
  - exists kept, probs, w1. split; [exact Hrun|exact Hhalf].
Defined.

(** ** The goal test of the evaluation harness *)

Section Harness.

Context {cb : Collaborators}.

#[local] Arguments get_penalty : simpl never.

(** X11.  The goal test of [NodeHiding] agrees with the environment.  On the
    structure the environment holds as current, with the harness holding
    the environment's target and [tau], [get_new_community] followed by
    [check_goal] returns 1 exactly when [get_reward] reports the episode
    done, and 0 when it does not.  Where no community of the structure
    holds the target node, the harness raises [ValueError]. *)
Theorem goal_matches_done (w : World) (s : NodeClustering) :
  new_community_structure (self w) = Some s →
  (∀ r d w1, get_reward w = Returns (r, d) w1 →
     goal_of (harness_of (self w)) (Some s) = inr (if d then 1 else 0))
  ∧ (community_of (node_target (self w)) (communities s) = None →
     goal_of (harness_of (self w)) (Some s) = inl ValueError).
Proof.
  intros Hnew. split.
  - intros r d w1. unfold get_reward. run. rewrite Hnew.
    destruct (lambda_metric (self w)) as [lambda|]; run; [|discriminate].
    destruct (community_of (node_target (self w)) (communities s))
      as [c|] eqn:Hc; run; [|discriminate].
    destruct (get_penalty w) as [p wp| |]; try discriminate.
    unfold goal_of, get_new_community, check_goal, harness_of.
    cbn [nh_community_target nh_node_target nh_tau].
    unfold community_of in Hc. rewrite Hc.
    destruct (bool_decide (length c = 1%nat)); run.
    { intros [= _ <- _]. reflexivity. }
    destruct (remove c (node_target (self w))) as [err|c']; run;
      [discriminate|].
    destruct (community_target (self w)) as [t|]; run; [|discriminate].
    destruct (remove t (node_target (self w))) as [err|t']; run;
      [discriminate|].
    destruct (community_similarity c' t' <=? tau (self w))%float;
      intros [= _ <- _]; reflexivity.
  - intros Hc. unfold goal_of, get_new_community, harness_of.
    cbn [nh_community_target nh_node_target nh_tau].
    unfold community_of in Hc. rewrite Hc. reflexivity.
Qed.

End Harness.

(** The step that cut node 0 off: the environment reports the episode
    done, and the harness a goal reached. *)
Lemma goal_matches_done_witness :
  get_reward (cb := Demo.collaborators 2) Demo.cut_off
  = Returns (Runs.cut_off_reward, true) Runs.after_cut_off
  ∧ goal_of (cb := Demo.collaborators 2) (harness_of (self Demo.cut_off))
      (new_community_structure (self Demo.cut_off))
    = inr 1.
Proof.
  assert (Hrun : get_reward (cb := Demo.collaborators 2) Demo.cut_off
                 = Returns (Runs.cut_off_reward, true) Runs.after_cut_off)
    by (vm_compute; reflexivity).
  split; [exact Hrun|].
  exact (proj1 (goal_matches_done (cb := Demo.collaborators 2) Demo.cut_off
                  (mkClustering [[1; 2; 3; 4]; [5; 6; 7; 8; 9]; [0]])
                  eq_refl)
           Runs.cut_off_reward true Runs.after_cut_off Hrun).
Defined.

(** ** Choosing a target: what is chosen, and when the choice never ends *)

Lemma random_choice_run {A} (seq : list A) (w : World) :
  seq ≠ [] →
  random_choice seq w = Starved
  ∨ ∃ x tape, x ∈ seq ∧ (length tape < length (rng w))%nat
              ∧ random_choice seq w
                = Returns x (mkWorld (self w) tape (detector_calls w)).
Proof.
  intros Hseq. unfold random_choice.
  destruct seq as [|y seq]; [contradiction|].
  destruct (rng w) as [|d tape]; [left; reflexivity|]. right.
  destruct (lookup_lt_is_Some_2 (y :: seq) (d `mod` length (y :: seq))%nat)
    as [x Hx]; [apply Nat.mod_upper_bound; discriminate|].
  rewrite Hx. exists x, tape. split; [|split; [simpl; lia|reflexivity]].
  apply list_elem_of_lookup. eauto.
Qed.

Lemma change_target_node_loop_starves (fuel : nat) (old : option Z)
    (c : list Z) (w : World) :
  community_target (self w) = Some c →
  c ≠ [] →
  (∀ n, n ∈ c → old = Some n) →
  node_target (self w) = old →
  (length (rng w) < fuel)%nat →
  change_target_node_loop fuel old w = Starved.
Proof.
  intros Hc Hne Hall. revert w Hc.
  induction fuel as [|fuel IH]; intros w Hc Hold Hfuel; [lia|].
  simpl. run. rewrite decide_True by exact Hold. rewrite Hc.
  unfold mret, M_ret. cbv beta iota.
  destruct (random_choice_run c w Hne) as [->|(x & tape & Hx & Htape & ->)];
    [reflexivity|].
  apply IH; simpl; [exact Hc|symmetry; apply Hall; exact Hx|lia].
Qed.

(** X12.  [change_target_node()] never returns when the target community has
    no node but the current target: every draw gives the old node back,
    and the loop runs until the draws end, however many there are.  This
    is the case of a target community of one node that is already the
    target. *)
Theorem change_target_node_never_ends (w : World) (c : list Z) :
  community_target (self w) = Some c →
  c ≠ [] →
  (∀ n, n ∈ c → node_target (self w) = Some n) →
  change_target_node None w = Starved.
Proof.
  intros Hc Hne Hall.
  change (change_target_node None w)
    with (change_target_node_loop (S (length (rng w)))
            (node_target (self w)) w).
  apply (change_target_node_loop_starves _ _ c); auto.
Qed.

Lemma random_community_run (w : World) :
  random_community w
  = match community_target (self w) with
    | Some old => random_community_loop (S (length (rng w))) old w
    | None => Raises AttributeError
    end.
Proof.
  unfold random_community, mbind, M_bind, get_self, require, draws_left.
  destruct (community_target (self w)); reflexivity.
Qed.

Lemma random_community_loop_post (fuel : nat) (old : list Z) (w w1 : World) :
  random_community_loop fuel old w = Returns tt w1 →
  let communities := communities (original_community_structure (self w)) in
  ∃ c, c ∈ communities
       ∧ (((1 < length c)%nat ∧ c ≠ old) ∨ (length communities < 2)%nat)
       ∧ self w1 = with_community_target (Some c) (self w)
       ∧ detector_calls w1 = detector_calls w.
Proof.
  revert w. induction fuel as [|fuel IH]; intros w; [discriminate|].
  simpl. intros (e & w' & [= <- <-] & Hrest)%bind_returns.
  apply bind_returns in Hrest as (c & w0 & Hdraw & Hrest).
  destruct (random_choice_elem _ _ _ _ Hdraw) as (Hc & Hself & Hcalls).
  revert Hrest. run. rewrite Hself, Hcalls.
  destruct ((1 <? length c)%nat && negb (bool_decide (c = old))
            || (length (communities (original_community_structure (self w)))
                <? 2)%nat) eqn:Hdone.
  - intros [= <-]. exists c. split; [exact Hc|].
    split; [|split; reflexivity].
    apply orb_true_iff in Hdone as [[Hlen Hold]%andb_true_iff|Hfew].
    + left. apply Nat.ltb_lt in Hlen. apply negb_true_iff in Hold.
      apply bool_decide_eq_false in Hold. tauto.
    + right. apply Nat.ltb_lt in Hfew. exact Hfew.
  - intros Hloop. apply IH in Hloop as (c' & Hc' & Hcond & Hself' & Hcalls').
    exists c'. split; [exact Hc'|]. split; [exact Hcond|].
    split; [rewrite Hself'; reflexivity|exact Hcalls'].
Qed.

(** X13.  When [random_community()] returns, the target community is one of
    the communities of the original structure; it has more than one node
    and differs from the previous target, unless the structure has fewer
    than two communities.  Nothing else of the environment has changed:
    the target node is still the old one, a node of the previous target,
    and the detector was not called. *)
Theorem random_community_post (w w1 : World) :
  random_community w = Returns tt w1 →
  let communities := communities (original_community_structure (self w)) in
  ∃ old c,
    community_target (self w) = Some old
    ∧ c ∈ communities
    ∧ (((1 < length c)%nat ∧ c ≠ old) ∨ (length communities < 2)%nat)
    ∧ self w1 = with_community_target (Some c) (self w)
    ∧ detector_calls w1 = detector_calls w.
Proof.
  rewrite random_community_run.
  destruct (community_target (self w)) as [old|] eqn:Hold; [|discriminate].
  intros (c & Hc & Hcond & Hself & Hcalls)%random_community_loop_post.
  exists old, c. auto.
Qed.

Lemma random_community_loop_starves (fuel : nat) (old : list Z) (w : World) :
  let communities := communities (original_community_structure (self w)) in
  (2 ≤ length communities)%nat →
  (∀ c, c ∈ communities → (length c ≤ 1)%nat ∨ c = old) →
  (length (rng w) < fuel)%nat →
  random_community_loop fuel old w = Starved.
Proof.
  cbv zeta. revert w.
  induction fuel as [|fuel IH]; intros w Hmany Hall Hfuel; [lia|].
  simpl. unfold mbind, M_bind, get_self.
  destruct (random_choice_run
              (communities (original_community_structure (self w))) w)
    as [->|(c & tape & Hc & Htape & ->)];
    [intros Hnil; rewrite Hnil in Hmany; simpl in Hmany; lia|reflexivity|].
  unfold modify_self, mbind, M_bind, get_self, put_self. cbn [self rng].
  replace ((1 <? length c)%nat && negb (bool_decide (c = old))
           || (length (communities (original_community_structure (self w)))
               <? 2)%nat) with false.
  - apply IH; simpl; [exact Hmany|exact Hall|lia].
  - symmetry. apply orb_false_iff. split; [|apply Nat.ltb_ge; exact Hmany].
    destruct (Hall c Hc) as [Hlen| ->].
    + apply andb_false_iff. left. apply Nat.ltb_ge. exact Hlen.
    + apply andb_false_iff. right. apply negb_false_iff.
      apply bool_decide_eq_true. reflexivity.
Qed.

(** X14.  [random_community()] never returns when the original structure has
    two communities or more and each of them has at most one node or is
    the current target: no draw passes the test of the loop. *)
Theorem random_community_never_ends (w : World) (old : list Z) :
  let communities := communities (original_community_structure (self w)) in
  community_target (self w) = Some old →
  (2 ≤ length communities)%nat →
  (∀ c, c ∈ communities → (length c ≤ 1)%nat ∨ c = old) →
  random_community w = Starved.
Proof.
  intros communities Hold Hmany Hall.
  rewrite random_community_run, Hold.
  apply random_community_loop_starves; auto.
Qed.

Section Policies.

Context {cb : Collaborators}.

(** X15.  [change_target_community()] without a community raises
    [ValueError] when the configured method is not 1, 2 or 3; under
    method 1 it raises [AttributeError] when no target community is set
    yet, as on the first call, since the random policy starts from a copy
    of the previous target; under method 2 it raises [ValueError] when the
    original structure has no community. *)
Theorem change_target_community_failures (w : World) (node : option Z) :
  (COMMUNITY_CHANGE_METHOD ≠ 1 → COMMUNITY_CHANGE_METHOD ≠ 2 →
   COMMUNITY_CHANGE_METHOD ≠ 3 →
   change_target_community None node w = Raises ValueError)
  ∧ (COMMUNITY_CHANGE_METHOD = 1 → community_target (self w) = None →
     change_target_community None node w = Raises AttributeError)
  ∧ (COMMUNITY_CHANGE_METHOD = 2 →
     communities (original_community_structure (self w)) = [] →
     change_target_community None node w = Raises ValueError).
Proof.
  unfold change_target_community, mbind, M_bind.
  split; [|split].
  - intros H1 H2 H3.
    rewrite !(proj2 (Z.eqb_neq _ _)) by assumption. reflexivity.
  - intros -> Hnone. simpl. rewrite random_community_run, Hnone.
    reflexivity.
  - intros -> Hnone. simpl. unfold fixed_community. run.
    rewrite Hnone. reflexivity.
Qed.

End Policies.


(** Draws 3, 1, 4 on a target community of node 0 alone: three rounds, and
    the tape is over. *)
Lemma change_target_node_never_ends_witness :
  change_target_node None Runs.lonely = Starved.
Proof.
  apply (change_target_node_never_ends Runs.lonely [0]).
  - reflexivity.
  - discriminate.
  - intros n ->%list_elem_of_singleton. reflexivity.
Defined.

Lemma random_community_post_witness :
  community_target (self Runs.after_random_community) = Some [5; 6; 7; 8; 9]
  ∧ node_target (self Runs.after_random_community) = Some 0.
Proof.
  assert (Hrun : random_community Demo.world
                 = Returns tt Runs.after_random_community)
    by (vm_compute; reflexivity).
  destruct (random_community_post Demo.world Runs.after_random_community Hrun)
    as (old & c & _ & _ & _ & Hself & _).
  rewrite Hself. split; [|reflexivity].
  revert Hself. vm_compute. intros [= <-]. reflexivity.
Defined.

Lemma random_community_never_ends_witness :
  random_community Runs.stuck = Starved.
Proof.
  apply (random_community_never_ends Runs.stuck [0; 1; 2; 3; 4]).
  - reflexivity.
  - simpl. lia.
  - intros c Hc. simpl in Hc.
    apply elem_of_cons in Hc as [->|Hc]; [right; reflexivity|].
    apply list_elem_of_singleton in Hc as ->. left. simpl. lia.
Defined.


(** ** How many actions there are, and how much budget *)

Lemma size_add_one (p : action_pair) (X : gset action_pair) :
  (size ({[ p ]} ∪ X) ≤ S (size X))%nat.
Proof.
  rewrite size_union_alt, size_singleton.
  assert (size (X ∖ {[ p ]}) ≤ size X)%nat
    by (apply subseteq_size; set_solver).
  lia.
Qed.

Lemma grow_none (a r : nat) : (a + r ≤ a + r + 1)%nat.
Proof. lia. Qed.

Lemma grow_left (a a' r : nat) : (a' ≤ S a)%nat → (a' + r ≤ a + r + 1)%nat.
Proof. lia. Qed.

Lemma grow_right (a r r' : nat) : (r' ≤ S r)%nat → (a + r' ≤ a + r + 1)%nat.
Proof. lia. Qed.

(** A round lists at most one pair, and none for the target node. *)
Lemma possible_actions_round_grows (e : Env) (u : option Z) (v : Z)
    (actions actions1 : PossibleActions) :
  possible_actions_round e u actions v = inr actions1 →
  (listed_size actions1
   ≤ listed_size actions + (if decide (u = Some v) then 0 else 1))%nat.
Proof.
  unfold possible_actions_round, listed_size.
  destruct (decide (u = Some v)) as [Heq|Hne]; [intros [= <-]; lia|].
  destruct (community_target e) as [community|]; [|discriminate].
  destruct (Nx.has_edge (graph e) u (Some v)),
           (contains community u), (contains community (Some v));
    simpl; repeat case_decide; intros [= <-]; simpl;
    first [ apply grow_none
          | apply grow_left, size_add_one
          | apply grow_right, size_add_one ].
Qed.

Lemma possible_actions_loop_grows (e : Env) (u : option Z) (vs : list Z)
    (actions actions' : PossibleActions) :
  possible_actions_loop e u actions vs = inr actions' →
  (listed_size actions'
   ≤ listed_size actions
     + length (List.filter (λ v, bool_decide (u ≠ Some v)) vs))%nat.
Proof.
  revert actions. induction vs as [|v vs IH]; intros actions; simpl.
  - intros [= <-]. lia.
  - destruct (possible_actions_round e u actions v) as [err|actions1] eqn:Hround;
      [discriminate|].
    intros Hloop. apply IH in Hloop.
    apply possible_actions_round_grows in Hround.
    destruct (decide (u = Some v)) as [Heq|Hne].
    + rewrite bool_decide_eq_false_2 by tauto. lia.
    + rewrite bool_decide_eq_true_2 by exact Hne. simpl. lia.
Qed.

Lemma filter_drops {A} (p : A → bool) (l : list A) (x : A) :
  x ∈ l → p x = false → (length (List.filter p l) < length l)%nat.
Proof.
  induction l as [|y l IH]; intros Hin Hp; [inversion Hin|]. simpl.
  pose proof (filter_length_le p l).
  apply elem_of_cons in Hin as [<-|Hin].
  - rewrite Hp. lia.
  - specialize (IH Hin Hp). destruct (p y); simpl; lia.
Qed.

(** Without a target community the listing fails on the first node that
    is not the target node. *)
Lemma possible_actions_loop_no_community (e : Env) (u : option Z)
    (vs : list Z) (actions : PossibleActions) :
  community_target e = None →
  (∃ v, v ∈ vs ∧ u ≠ Some v) →
  possible_actions_loop e u actions vs = inl TypeError.
Proof.
  intros Hnone. induction vs as [|v vs IH]; intros (x & Hx & Hne).
  - inversion Hx.
  - simpl. unfold possible_actions_round. rewrite Hnone.
    destruct (decide (u = Some v)) as [Heq|Hnv]; [|reflexivity].
    apply IH. exists x. split; [|exact Hne].
    apply elem_of_cons in Hx as [->|Hx]; [contradiction|exact Hx].
Qed.

Section Bounds.

Context {cb : Collaborators}.

(** X17.  After [reset] there are at most as many actions listed as the
    graph has nodes, and one fewer when the target node is a node of the
    graph.  So, whatever the edge budget is, no sequence of [step] and
    [act] calls between two resets uses more budget than that. *)
Theorem reset_bounds_budget (graph_reset : bool) (w w1 : World)
    (g : Nx.Graph) :
  reset graph_reset w = Returns g w1 →
  used_edge_budget (self w1) = 0
  ∧ actions_left (self w1) ≤ Nx.number_of_nodes g
  ∧ (∀ u, node_target (self w) = Some u → has_node g u →
       actions_left (self w1) ≤ Nx.number_of_nodes g - 1)
  ∧ (∀ calls w2, forallb counts_budget calls = true →
       episode calls w1 = Returns tt w2 →
       used_edge_budget (self w2) ≤ actions_left (self w1)).
Proof.
  rewrite reset_run. cbv zeta.
  destruct (possible_actions_loop _ _ _ _) as [err|actions] eqn:Hloop;
    [discriminate|].
  intros Heq.
  assert (Hgraph : g = graph (reset_env graph_reset (self w)))
    by congruence.
  assert (Hworld : w1 = mkWorld
                          (with_possible_actions actions
                             (reset_env graph_reset (self w)))
                          (rng w) (detector_calls w))
    by congruence.
  clear Heq. subst g w1.
  apply possible_actions_loop_grows in Hloop.
  destruct (reset_env_fields graph_reset (self w)) as [Hg Hn].
  rewrite Hn in Hloop.
  assert (Hsize : Nx.number_of_nodes (graph (reset_env graph_reset (self w)))
                  = Z.of_nat
                      (length (Nx.nodes (graph (reset_env graph_reset
                                                  (self w)))))).
  { unfold Nx.number_of_nodes, Nx.nodes.
    rewrite <- size_dom. reflexivity. }
  assert (Hleft : actions_left
                    (with_possible_actions actions
                       (reset_env graph_reset (self w)))
                  = Z.of_nat (listed_size actions)).
  { unfold actions_left, listed_size.
    destruct (reset_fields graph_reset actions (self w)) as (_ & -> & _).
    lia. }
  cbn [self]. rewrite Hleft, Hsize.
  assert (Hzero : listed_size no_actions = 0%nat) by reflexivity.
  rewrite Hzero in Hloop.
  split; [reflexivity|]. split; [|split].
  - pose proof (filter_length_le
                  (λ v, bool_decide (node_target (self w) ≠ Some v))
                  (Nx.nodes (graph (reset_env graph_reset (self w))))).
    lia.
  - intros u Hu Hnode. rewrite Hu in Hloop.
    pose proof (filter_drops (λ v, bool_decide (Some u ≠ Some v))
                  (Nx.nodes (graph (reset_env graph_reset (self w)))) u)
      as Hdrop.
    assert (length (List.filter (λ v, bool_decide (Some u ≠ Some v))
                      (Nx.nodes (graph (reset_env graph_reset (self w)))))
            < length (Nx.nodes (graph (reset_env graph_reset (self w)))))%nat.
    { apply Hdrop.
      - unfold Nx.nodes. apply elem_of_elements, elem_of_dom. exact Hnode.
      - apply bool_decide_eq_false. tauto. }
    lia.
  - intros calls w2 Hcalls Hep.
    pose proof (episode_balance _ _ _ Hcalls Hep) as Hused.
    cbn [self] in Hused. rewrite Hleft in Hused.
    replace (used_edge_budget
               (with_possible_actions actions
                  (reset_env graph_reset (self w)))) with 0 in Hused
      by (destruct (self w); reflexivity).
    assert (0 ≤ actions_left (self w2)) by (unfold actions_left; lia).
    lia.
Qed.

End Bounds.

(** X18.  [reset] raises [TypeError] when no target community is set and the
    graph has a node other than the target node: listing the actions
    tests membership in the community. *)
Theorem reset_without_target_community (graph_reset : bool) (w : World)
    (v : Z) :
  community_target (self w) = None →
  v ∈ Nx.nodes (if graph_reset then original_graph (self w)
                else graph (self w)) →
  node_target (self w) ≠ Some v →
  reset graph_reset w = Raises TypeError.
Proof.
  intros Hnone Hv Hne. rewrite reset_run. cbv zeta.
  destruct (reset_env_fields graph_reset (self w)) as [Hg Hn].
  rewrite Hn, Hg.
  rewrite possible_actions_loop_no_community; [reflexivity| |eauto].
  destruct (self w), graph_reset; exact Hnone.
Qed.

Section Budgets.

Import FloatOps.

Lemma int_of_float_nonneg (x : float) (n : Z) :
  not_negative (Prim2SF x) = true → int_of_float x = inr n → 0 ≤ n.
Proof.
  unfold int_of_float.
  destruct (Prim2SF x) as [s|s| |s m e]; try discriminate.
  - intros _ [= <-]. lia.
  - destruct s; [discriminate|]. intros _ [= <-]. unfold sf_trunc. simpl.
    apply Z.shiftl_nonneg. lia.
Qed.

(** X19.  [get_edge_budget] divides by the number of nodes: on a graph
    without nodes it raises [ZeroDivisionError].  When it returns, it has
    changed nothing, the graph has a node, and for a [beta] that is not
    negative the budget is not negative. *)
Theorem get_edge_budget_never_negative (w : World) :
  (Nx.number_of_nodes (graph (self w)) = 0 →
   get_edge_budget w = Raises ZeroDivisionError)
  ∧ (∀ n w1, get_edge_budget w = Returns n w1 →
       w1 = w
       ∧ 0 < Nx.number_of_nodes (graph (self w))
       ∧ (nonnegative (beta (self w)) = true → 0 ≤ n)).
Proof.
  unfold get_edge_budget. run. unfold true_div. split.
  - intros ->. simpl. destruct (_ || _); reflexivity.
  - intros n w1.
    assert (0 ≤ Nx.number_of_nodes (graph (self w)))
      by (unfold Nx.number_of_nodes; lia).
    assert (Hd : not_negative
                   (Prim2SF
                      (float_of_int (Nx.number_of_edges (graph (self w)))
                       / float_of_int (Nx.number_of_nodes (graph (self w)))))
                 = true).
    { apply div_not_negative; apply float_of_int_not_negative;
        [apply number_of_edges_nonneg|assumption]. }
    destruct (Nx.number_of_nodes (graph (self w)) =? 0) eqn:Hnodes;
      [destruct (_ || _); discriminate|].
    apply Z.eqb_neq in Hnodes.
    destruct (_ || _); run;
      (destruct (int_of_float _) as [err|k] eqn:Hint; run; [discriminate|]);
      intros [= <- <-]; (split; [reflexivity|]); (split; [lia|]);
      intros Hbeta%nonnegative_not_negative;
      (eapply int_of_float_nonneg; [|exact Hint]);
      (apply mul_not_negative; [|exact Hbeta]);
      first [exact Hd | apply add_not_negative; [exact Hd|reflexivity]].
Qed.

End Budgets.

(** The demo graph has ten nodes and the fresh world lists eight actions,
    of which the four calls use two. *)
Lemma reset_bounds_budget_witness :
  actions_left (self Demo.fresh) ≤ 9
  ∧ used_edge_budget (self Runs.after_calls) ≤ actions_left (self Demo.fresh).
Proof.
  assert (Hreset : reset true Demo.world = Returns Demo.two_rings Demo.fresh)
    by (vm_compute; reflexivity).
  assert (Hrun : episode (cb := Demo.collaborators 2) Runs.calls Demo.fresh
                 = Returns tt Runs.after_calls)
    by (vm_compute; reflexivity).
  assert (Hnodes : Nx.number_of_nodes Demo.two_rings = 10)
    by (vm_compute; reflexivity).
  assert (Hnode : has_node Demo.two_rings 0)
    by (eexists; vm_compute; reflexivity).
  destruct (reset_bounds_budget (cb := Demo.collaborators 2) true Demo.world
              Demo.fresh Demo.two_rings Hreset) as (_ & _ & Hless & Hused).
  split.
  - specialize (Hless 0 eq_refl Hnode). rewrite Hnodes in Hless. exact Hless.
  - exact (Hused Runs.calls Runs.after_calls eq_refl Hrun).
Defined.

Lemma reset_without_target_community_witness :
  reset true Runs.untargeted = Raises TypeError.
Proof.
  apply (reset_without_target_community true Runs.untargeted 1).
  - reflexivity.
  - unfold Nx.nodes. apply elem_of_elements, elem_of_dom.
    eexists. vm_compute. reflexivity.
  - discriminate.
Defined.

(** ** Budget and parameters *)

Lemma get_edge_budget_pure (w w1 : World) (n : Z) :
  get_edge_budget w = Returns n w1 → w1 = w.
Proof.
  unfold get_edge_budget. run.
  destruct (_ || _);
    (destruct (true_div _ _) as [err|density]; run; [discriminate|]);
    (destruct (int_of_float _) as [err|k]; run; [discriminate|]);
    congruence.
Qed.

Section BudgetRun.

Context {Steps : Type} (max_steps_of : Z → Steps).

#[local] Arguments get_possible_actions : simpl never.
#[local] Arguments get_edge_budget : simpl never.

(** [set_rewiring_budget] as one equation. *)
Lemma set_rewiring_budget_run (w : World) :
  set_rewiring_budget max_steps_of w
  = match get_edge_budget w with
    | Returns budget _ =>
        let e := budget_env budget (self w) in
        match possible_actions_loop e (node_target e) no_actions
                (Nx.nodes (graph e)) with
        | inr actions =>
            Returns (max_steps_of budget, size (ADD actions))
              (mkWorld (with_possible_actions actions e) (rng w)
                 (detector_calls w))
        | inl err => Raises err
        end
    | Raises err => Raises err
    | Starved => Starved
    end.
Proof.
  unfold set_rewiring_budget, budget_env. unfold mbind at 1, M_bind at 1.
  destruct (get_edge_budget w) as [budget w'| |] eqn:Hbudget;
    [|reflexivity..].
  apply get_edge_budget_pure in Hbudget as ->. cbv zeta.
  run. rewrite get_possible_actions_run. cbn [self rng detector_calls].
  destruct (possible_actions_loop _ _ _ _); reflexivity.
Qed.

End BudgetRun.

Lemma self_world (e : Env) (tape : list nat) (calls : list Nx.Graph) :
  self (mkWorld e tape calls) = e.
Proof. reflexivity. Qed.

(** Storing the action sets leaves what the listing reads. *)
Lemma listing_fields (actions : PossibleActions) (e : Env) :
  graph (with_possible_actions actions e) = graph e
  ∧ community_target (with_possible_actions actions e) = community_target e
  ∧ node_target (with_possible_actions actions e) = node_target e
  ∧ possible_actions (with_possible_actions actions e) = actions.
Proof.
  repeat split; reflexivity.
Qed.

Section Parameters.

Context {Steps : Type} (max_steps_of : Z → Steps).

#[local] Arguments get_edge_budget : simpl never.
#[local] Arguments get_possible_actions : simpl never.
#[local] Arguments set_rewiring_budget : simpl never.

(** X20.  When [NodeHiding.set_parameters] returns, the environment holds the
    new [beta] and [tau], the budget [get_edge_budget] computes from them,
    which is at least 1, no used budget, a cleared stop flag and the
    actions listed for its target on its unchanged graph; a harness that
    held the environment's target now holds its [tau] as well, which is
    what the goal test assumes.  When the budget computed is below 1 it
    raises [ValueError]. *)
Theorem set_parameters_spec (h : NodeHiding) (beta_arg tau_arg : float)
    (w : World) :
  let w0 :=
    mkWorld (with_tau tau_arg (with_beta beta_arg (self w))) (rng w)
      (detector_calls w) in
  (∀ h1 budget steps w1,
     set_parameters max_steps_of h beta_arg tau_arg w
     = Returns (h1, budget, steps) w1 →
     get_edge_budget w0 = Returns budget w0
     ∧ 1 ≤ budget
     ∧ steps = max_steps_of budget
     ∧ edge_budget (self w1) = budget
     ∧ beta (self w1) = beta_arg
     ∧ tau (self w1) = tau_arg
     ∧ used_edge_budget (self w1) = 0
     ∧ stop_episode (self w1) = false
     ∧ graph (self w1) = graph (self w)
     ∧ get_possible_actions w1 = Returns (possible_actions (self w1)) w1
     ∧ nh_tau h1 = Some tau_arg
     ∧ (nh_community_target h = community_target (self w) →
        nh_node_target h = node_target (self w) →
        h1 = harness_of (self w1)))
  ∧ (∀ budget,
       get_edge_budget w0 = Returns budget w0 →
       budget < 1 →
       is_Some (community_target (self w)) →
       set_parameters max_steps_of h beta_arg tau_arg w = Raises ValueError).
Proof.
  intros w0.
  assert (Hrun : set_parameters max_steps_of h beta_arg tau_arg w
                 = match set_rewiring_budget max_steps_of w0 with
                   | Returns (max_steps, _) w1 =>
                       if edge_budget (self w1) <? 1 then Raises ValueError
                       else
                         Returns
                           (mkNodeHiding (nh_community_target h)
                              (nh_node_target h) (Some tau_arg),
                            edge_budget (self w1), max_steps) w1
                   | Raises err => Raises err
                   | Starved => Starved
                   end).
  { unfold set_parameters. run. fold w0.
    destruct (set_rewiring_budget max_steps_of w0) as [[steps n] w1| |];
      try reflexivity.
    run. destruct (edge_budget (self w1) <? 1); reflexivity. }
  rewrite Hrun, set_rewiring_budget_run. clear Hrun. cbv zeta. split.
  - intros h1 budget steps w1.
    destruct (get_edge_budget w0) as [n w0'| |] eqn:Hbudget;
      try discriminate.
    pose proof (get_edge_budget_pure _ _ _ Hbudget) as ->.
    destruct (possible_actions_loop _ _ _ _) as [err|actions] eqn:Hloop;
      [discriminate|].
    cbn [self].
    change (edge_budget (with_possible_actions actions
                           (budget_env n (self w0)))) with n.
    destruct (n <? 1) eqn:Hn; [discriminate|].
    apply Z.ltb_ge in Hn.
    intros [= <- <- <- <-].
    split; [reflexivity|]. split; [exact Hn|]. split; [reflexivity|].
    do 6 (split; [reflexivity|]).
    split.
    + rewrite get_possible_actions_run, !self_world.
      match goal with
      | |- context [possible_actions_loop (with_possible_actions actions ?e)] =>
          destruct (listing_fields actions e) as (Hg & Hc & Hnode & Hlisted);
          assert (Hloop' : possible_actions_loop e (node_target e) no_actions
                             (Nx.nodes (graph e)) = inr actions)
            by exact Hloop
      end.
      rewrite Hnode, Hg, (possible_actions_loop_ext _ _ _ _ _ Hg Hc), Hloop'.
      rewrite Hlisted. reflexivity.
    + split; [reflexivity|]. intros Hc Hnode. unfold harness_of.
      rewrite Hc, Hnode. reflexivity.
  - intros budget Hbudget Hsmall [c Hc]. rewrite Hbudget.
    set (w' := mkWorld (budget_env budget (self w0)) (rng w)
                 (detector_calls w)).
    destruct (get_possible_actions_listing w' c Hc)
      as (actions & Hactions & _).
    rewrite get_possible_actions_run in Hactions.
    cbn [self] in Hactions.
    destruct (possible_actions_loop _ _ _ _) as [err|actions'];
      [discriminate|].
    cbn [self].
    change (edge_budget (with_possible_actions actions'
                           (budget_env budget (self w0)))) with budget.
    rewrite (proj2 (Z.ltb_lt _ _) Hsmall). reflexivity.
Qed.

End Parameters.

(** [set_parameters(10, 0.5)] on the demo world: twelve edges on ten
    nodes give a budget of 12. *)
Lemma set_parameters_spec_witness :
  edge_budget (self Runs.after_set_parameters) = 12
  ∧ used_edge_budget (self Runs.after_set_parameters) = 0.
Proof.
  assert (Hrun : set_parameters Runs.twice (new_harness (self Demo.world))
                   10 0.5 Demo.world
                 = Returns (harness_of (self Runs.after_set_parameters), 12, 24)
                     Runs.after_set_parameters)
    by (vm_compute; reflexivity).
  destruct (proj1 (set_parameters_spec Runs.twice
                     (new_harness (self Demo.world)) 10 0.5 Demo.world)
              _ _ _ _ Hrun)
    as (_ & _ & _ & Hbudget & _ & _ & Hused & _).
  split; [exact Hbudget|exact Hused].
Defined.
